(** * DB2 schema editor of django-pyodbc-iseries: a shallow embedding

    The development follows [iseries/schemaEditor.py].  The class
    [DB2SchemaEditor] issues DDL statements through [self.execute]; here every
    method is a function in a small state-and-exception monad whose state is
    the trace of the statements issued so far.  The database engine and the
    parts of Django the editor calls (name quoting, name truncation, the
    catalog queries, the base class' [add_field] and [remove_field]) are
    parameters. *)

From Stdlib Require Import ZArith String Ascii List Bool Lia.
From Stdlib.Strings Require Import Byte.
From Stdlib Require Import Numbers.DecimalString.
Import ListNotations.
Open Scope list_scope.
Open Scope string_scope.

(** ** Python strings *)

Module PyStr.

(** [s[k:]] *)
Fixpoint drop (k : nat) (s : string) : string :=
  match k, s with
  | O, _ => s
  | S _, EmptyString => EmptyString
  | S k', String _ s' => drop k' s'
  end.

(** The scan of [str.replace] for a non-empty pattern: [skip] counts the
    characters of an occurrence already replaced that are still to be
    passed over. *)
Fixpoint replace_from (old new : string) (skip : nat) (s : string) : string :=
  match s with
  | EmptyString => EmptyString
  | String c s' =>
      match skip with
      | S k => replace_from old new k s'
      | O =>
          if prefix old s
          then new ++ replace_from old new (String.length old - 1) s'
          else String c (replace_from old new 0 s')
      end
  end.

(** How many occurrences the scan replaces *)
Fixpoint replaced (old : string) (skip : nat) (s : string) : nat :=
  match s with
  | EmptyString => 0
  | String c s' =>
      match skip with
      | S k => replaced old k s'
      | O => if prefix old s then S (replaced old (String.length old - 1) s')
             else replaced old 0 s'
      end
  end.

(** With an empty pattern Python puts [new] before every character and at
    the end. *)
Fixpoint interleave (new s : string) : string :=
  match s with
  | EmptyString => new
  | String c s' => new ++ String c (interleave new s')
  end.

(** [s.replace(old, new)] *)
Definition replace (s old new : string) : string :=
  match old with
  | EmptyString => interleave new s
  | String _ _ => replace_from old new 0 s
  end.

(** [sep.join(ls)] is [String.concat sep ls]. *)
Definition join (sep : string) (ls : list string) : string := String.concat sep ls.

(** [x in ls] for a list of strings *)
Fixpoint contains (x : string) (ls : list string) : bool :=
  match ls with
  | [] => false
  | y :: ls' => String.eqb y x || contains x ls'
  end.

(** [old] occurs in [s] *)
Definition occurs (old s : string) : Prop :=
  exists pre post, s = pre ++ old ++ post.

(** [str(n)] for an integer *)
Definition of_Z (z : Z) : string := NilZero.string_of_int (Z.to_int z).

End PyStr.

(** ** The value formatter, [quote_value] *)

Module Literal.

(** The values [quote_value] tells apart by [isinstance].  A [datetime],
    [date] or [time] is kept with its fields; [VOther] is a value of any
    other class, kept with its [str()]. *)
Inductive PyValue :=
| VStr (s : string)
| VDatetime (year month day hour minute second microsecond : Z)
| VDate (year month day : Z)
| VTime (hour minute second microsecond : Z)
| VBool (b : bool)
| VUUID (int : N)
| VBytes (bs : list byte)
| VTimedelta (days seconds microseconds : Z)
| VInt (z : Z)
| VOther (str : string).

Definition hexdigit (n : N) : ascii :=
  match n with
  | 0%N => "0" | 1%N => "1" | 2%N => "2" | 3%N => "3" | 4%N => "4"
  | 5%N => "5" | 6%N => "6" | 7%N => "7" | 8%N => "8" | 9%N => "9"
  | 10%N => "a" | 11%N => "b" | 12%N => "c" | 13%N => "d" | 14%N => "e"
  | _ => "f"
  end%char.

(** [bytes.hex()]: two lower-case digits per byte *)
Fixpoint bytes_hex (bs : list byte) : string :=
  match bs with
  | [] => EmptyString
  | b :: bs' =>
      let n := Byte.to_N b in
      String (hexdigit (n / 16)) (String (hexdigit (n mod 16)) (bytes_hex bs'))
  end.

(** The [k] low hex digits of [n], most significant first *)
Fixpoint hex_fixed (k : nat) (n : N) (acc : string) : string :=
  match k with
  | O => acc
  | S k' => hex_fixed k' (n / 16) (String (hexdigit (n mod 16)) acc)
  end.

(** [str(uuid.UUID(int=n))]: 32 hex digits grouped 8-4-4-4-12 *)
Definition uuid_str (n : N) : string :=
  let h := hex_fixed 32 n EmptyString in
  substring 0 8 h ++ "-" ++ substring 8 4 h ++ "-" ++ substring 12 4 h ++ "-"
    ++ substring 16 4 h ++ "-" ++ substring 20 12 h.

(** Microseconds in a [timedelta] *)
Definition to_microseconds (days seconds microseconds : Z) : Z :=
  ((days * 86400 + seconds) * 1000000 + microseconds)%Z.

Section Formatter.

(** [str()] of the values whose text comes from Python's library: the ISO
    form of a [datetime], [date] or [time], and the forms of [bytes] and
    [timedelta]. *)
Variable lib_str : PyValue -> string.

(** [repr] of the double nearest to [us / 10^6], for a count of microseconds
    that is not a whole number of seconds (or is too large to print without
    an exponent). *)
Variable float_repr : Z -> string.

(** [str(value)] *)
Definition py_str (value : PyValue) : string :=
  match value with
  | VStr s => s
  | VBool b => if b then "True" else "False"
  | VUUID n => uuid_str n
  | VInt z => PyStr.of_Z z
  | VOther s => s
  | VDatetime _ _ _ _ _ _ _ | VDate _ _ _ | VTime _ _ _ _
  | VBytes _ | VTimedelta _ _ _ => lib_str value
  end.

(** [f"{a / datetime.timedelta(seconds=1)}"]: the quotient of two
    microsecond counts is a float; a whole number of seconds below 10^16
    prints as its digits followed by [.0]. *)
Definition seconds_str (us : Z) : string :=
  if ((us mod 1000000 =? 0) && (Z.abs (us / 1000000) <? 10 ^ 16))%Z
  then PyStr.of_Z (us / 1000000) ++ ".0"
  else float_repr us.

Definition escape_quotes (value : PyValue) : string :=
  PyStr.replace (py_str value) "'" "''".

Definition quote_value (value : PyValue) : string :=
  match value with
  | VDatetime _ _ _ _ _ _ _ | VDate _ _ _ | VTime _ _ _ _ | VStr _ =>
      "'" ++ escape_quotes value ++ "'"
  | VBool b => if b then "1" else "0"
  | VUUID n => "'" ++ uuid_str n ++ "'"
  | VBytes bs => "BLOB(X'" ++ bytes_hex bs ++ "')"
  | VTimedelta d s us => seconds_str (to_microseconds d s us)
  | VInt _ | VOther _ => py_str value
  end.

End Formatter.

(** The spec's escaping rule, character by character: every quote is
    written twice. *)
Fixpoint double_quotes (s : string) : string :=
  match s with
  | EmptyString => EmptyString
  | String c s' =>
      if Ascii.eqb c "'"%char then String "'"%char (String "'"%char (double_quotes s'))
      else String c (double_quotes s')
  end.

(** Reading a literal's body back: a pair of quotes is one quote, a quote
    on its own is an error. *)
Fixpoint unescape (s : string) (pending : bool) : option string :=
  match s with
  | EmptyString => if pending then None else Some EmptyString
  | String c s' =>
      if Ascii.eqb c "'"%char then
        if pending then option_map (String c) (unescape s' false)
        else unescape s' true
      else if pending then None
      else option_map (String c) (unescape s' false)
  end.

(** Reading [bytes.hex()] back: the value of a hex digit, and the bytes of
    a string of pairs of digits. *)
Definition unhexdigit (c : ascii) : option N :=
  let code := N_of_ascii c in
  if ((48 <=? code) && (code <=? 57))%N then Some (code - 48)%N
  else if ((97 <=? code) && (code <=? 102))%N then Some (code - 87)%N
  else None.

Fixpoint unhex (s : string) : option (list byte) :=
  match s with
  | EmptyString => Some []
  | String hi (String lo s') =>
      match unhexdigit hi, unhexdigit lo, unhex s' with
      | Some h, Some l, Some bs =>
          match Byte.of_N (h * 16 + l) with
          | Some b => Some (b :: bs)
          | None => None
          end
      | _, _, _ => None
      end
  | String _ EmptyString => None
  end.

End Literal.

(** ** Fields, models and the constraint catalog *)

Module Schema.
Import Literal.
Open Scope list_scope.

(** The field classes the editor tests with [isinstance]. *)
Inductive FieldClass :=
| AutoField | IntegerField | TextField | ManyToManyField | OtherField.

Definition FieldClass_eqb (a b : FieldClass) : bool :=
  match a, b with
  | AutoField, AutoField | IntegerField, IntegerField | TextField, TextField
  | ManyToManyField, ManyToManyField | OtherField, OtherField => true
  | _, _ => false
  end.

(** The [default] attribute of a field: [NOT_PROVIDED], [None] or a value. *)
Inductive FieldDefault :=
| NOT_PROVIDED
| DefaultNone
| DefaultValue (v : PyValue).

(** [through._meta] of an automatically or explicitly declared link table;
    [reverse_column] is the column of
    [through._meta.get_field(field.m2m_reverse_field_name())]. *)
Record Through := {
  through_db_table : string;
  auto_created : bool;
  reverse_column : string }.

(** [field.remote_field].  [through] is [None] when the object has no
    [through] attribute, [Some None] when the attribute is [None]. *)
Record RemoteField := {
  through : option (option Through);
  to_table : string;      (* remote_field.model._meta.db_table *)
  to_column : string }.   (* remote_field.get_related_field().column *)

(** An entry of [_meta.get_fields()] or [_meta.get_all_related_objects()]:
    [rel_column] is [entry.field.column], absent when the entry has no
    [field] attribute. *)
Record Related := {
  rel_db_table : string;            (* entry.model._meta.db_table *)
  rel_column : option string;
  rel_db_type : string }.           (* entry.field.db_parameters()['type'] *)

(** [model._meta] *)
Record Model := {
  db_table : string;
  get_fields : list Related;
  get_all_related_objects : list Related }.

Record Field := {
  cls : FieldClass;
  column : string;
  db_type : option string;            (* db_parameters()['type'] *)
  db_check : string -> option string; (* db_parameters()['check'], by column *)
  null : bool;
  primary_key : bool;
  _unique : bool;
  db_index : bool;
  default : FieldDefault;
  effective_default : option PyValue; (* self.effective_default(field) *)
  remote_field : option RemoteField;
  rel : option RemoteField;           (* the attribute of Django before 1.9 *)
  model : Model }.                    (* field.model._meta *)

(** The property [Field.unique] of Django: [self._unique or self.primary_key] *)
Definition unique (f : Field) : bool := _unique f || primary_key f.

Definition has_default (f : Field) : bool :=
  match default f with NOT_PROVIDED => false | _ => true end.

Definition default_is_not_None (f : Field) : bool :=
  match default f with DefaultNone => false | _ => true end.

Definition check_of (f : Field) : option string := db_check f (column f).

(** Assignments to attributes of a field *)
Definition set_column (f : Field) (c : string) : Field :=
  {| cls := cls f; column := c; db_type := db_type f; db_check := db_check f;
     null := null f; primary_key := primary_key f; _unique := _unique f;
     db_index := db_index f; default := default f;
     effective_default := effective_default f;
     remote_field := remote_field f; rel := rel f; model := model f |}.

Definition set_null (f : Field) (b : bool) : Field :=
  {| cls := cls f; column := column f; db_type := db_type f; db_check := db_check f;
     null := b; primary_key := primary_key f; _unique := _unique f;
     db_index := db_index f; default := default f;
     effective_default := effective_default f;
     remote_field := remote_field f; rel := rel f; model := model f |}.

Definition set_primary_key (f : Field) (b : bool) : Field :=
  {| cls := cls f; column := column f; db_type := db_type f; db_check := db_check f;
     null := null f; primary_key := b; _unique := _unique f;
     db_index := db_index f; default := default f;
     effective_default := effective_default f;
     remote_field := remote_field f; rel := rel f; model := model f |}.

Definition set__unique (f : Field) (b : bool) : Field :=
  {| cls := cls f; column := column f; db_type := db_type f; db_check := db_check f;
     null := null f; primary_key := primary_key f; _unique := b;
     db_index := db_index f; default := default f;
     effective_default := effective_default f;
     remote_field := remote_field f; rel := rel f; model := model f |}.

(** [a != b] for two effective defaults, either of which may be [None]:
    [None] differs from every value but [None]; on two values the answer is
    that of Python's [!=], which depends on their classes and is given by
    [ne]. *)
Definition default_neq (ne : PyValue -> PyValue -> bool)
    (a b : option PyValue) : bool :=
  match a, b with
  | None, None => false
  | Some x, Some y => ne x y
  | _, _ => true
  end.

Definition opt_string_neq (a b : option string) : bool :=
  match a, b with
  | None, None => false
  | Some x, Some y => negb (String.eqb x y)
  | _, _ => true
  end.

(** Truth value of [db_parameters()['check']]: neither [None] nor empty *)
Definition truthy (c : option string) : bool :=
  match c with
  | Some (String _ _) => true
  | _ => false
  end.

(** An entry of the dictionary [introspection.get_constraints] returns *)
Record ConstrDict := {
  cd_columns : list string;
  cd_primary_key : bool;
  cd_unique : bool;
  cd_index : bool;
  cd_check : bool;
  cd_foreign_key : option (string * string) }.

(** A Python [dict] with string keys, in insertion order *)
Definition dict (V : Type) := list (string * V).

(** [d[k] = v] *)
Fixpoint dict_set {V} (d : dict V) (k : string) (v : V) : dict V :=
  match d with
  | [] => [(k, v)]
  | (k', v') :: d' =>
      if String.eqb k' k then (k, v) :: d' else (k', v') :: dict_set d' k v
  end.

Definition keys {V} (d : dict V) : list string := map fst d.

(** The dictionary [deferred_constraints], with its four keys *)
Record Deferred := {
  d_pk : dict (list string);
  d_unique : dict (list string);
  d_index : dict (list string);
  d_check : dict (list string) }.

Definition no_deferred : Deferred :=
  {| d_pk := []; d_unique := []; d_index := []; d_check := [] |}.

Definition record_pk (d : Deferred) (k : string) (v : list string) : Deferred :=
  {| d_pk := dict_set (d_pk d) k v; d_unique := d_unique d;
     d_index := d_index d; d_check := d_check d |}.
Definition record_unique (d : Deferred) (k : string) (v : list string) : Deferred :=
  {| d_pk := d_pk d; d_unique := dict_set (d_unique d) k v;
     d_index := d_index d; d_check := d_check d |}.
Definition record_index (d : Deferred) (k : string) (v : list string) : Deferred :=
  {| d_pk := d_pk d; d_unique := d_unique d;
     d_index := dict_set (d_index d) k v; d_check := d_check d |}.
Definition record_check (d : Deferred) (k : string) (v : list string) : Deferred :=
  {| d_pk := d_pk d; d_unique := d_unique d;
     d_index := d_index d; d_check := dict_set (d_check d) k v |}.

(** ** Statements *)

(** The [changes] of [sql_alter_column], one constructor per template *)
Inductive Change :=
| sql_alter_column_type (column type : string)
| sql_alter_column_type_from_int_to_auto (column : string) (max : Z)
| sql_alter_column_not_null (column : string)
| sql_alter_column_null (column : string)
| sql_alter_column_default (column default : string).

(** What the editor hands to [self.execute], one constructor per template
    with the values it is filled with; the last three are the calls into the
    base class, which issue statements of their own. *)
Inductive Stmt :=
| sql_alter_column (table : string) (changes : Change)
| sql_rename_column (table old_column new_column : string)
| sql_drop_default (table column : string)
| sql_drop_pk (table : string)
| sql_delete_pk (table name : string)
| sql_delete_unique (table name : string)
| sql_delete_index (table : option string) (name : string)
| sql_delete_check (table name : string)
| sql_delete_fk (table name : string)
| sql_delete_column (table column : string)
| sql_create_pk (table name columns : string)
| sql_create_unique (table name columns : string)
| sql_create_index (table name columns extra : string)
| sql_create_check (table name column check : string)
| sql_create_fk (table name column to_table to_column : string)
| sql_update_set (table column from_column : string)
| sql_reorg_table (sName tName : string)
| super_add_field (m : Model) (f : Field)
| super_remove_field (m : Model) (f : Field)
| super_alter_many_to_many (m : Model) (old_field new_field : Field) (strict : bool).

(** A statement that ran, or one the engine refused with [Database.Error] *)
Inductive Event :=
| Done (s : Stmt)
| Refused (s : Stmt).

Definition Trace := list Event.

Inductive ConstraintKind := PrimaryKey | Unique | Index | Check | ForeignKey.

(** The first argument of [_create_index_name], which the editor calls with
    a model in some places and with a table name in one. *)
Inductive NameSubject :=
| OfModel (db_table : string)      (* a model, known by its table *)
| OfTable (t : string).

(** The engine, seen through the statements issued so far: whether it
    refuses the next statement, and what its catalog answers. *)
Record Engine := {
  refuses : Trace -> Stmt -> bool;
  (* self._constraint_names(model, [column], kind=True) *)
  constraint_names : Trace -> string -> list string -> ConstraintKind -> list string;
  (* connection.introspection.get_constraints(cur, table) *)
  get_constraints : Trace -> string -> dict ConstrDict;
  (* SELECT MAX(column) FROM table; None for an empty table *)
  select_max : Trace -> string -> string -> option Z;
  (* the rows of sysibmadm.admintabinfo with reorg_pending = 'Y' *)
  reorg_pending : Trace -> list (string * string);
  (* the PK_NAME of the rows of connection.primary_keys(...) *)
  primary_keys : Trace -> string -> list string }.

(** The parts of Python, of Django and of the connection the editor uses as
    pure functions. *)
Record Django := {
  (* Python's [!=] on two values that are not None *)
  value_ne : PyValue -> PyValue -> bool;
  quote_name : string -> string;
  truncate_name : string -> nat -> string;
  max_name_length : nat;
  _create_index_name : NameSubject -> list string -> string -> string;
  djangoVersion : nat * nat;
  (* AutoField derives from IntegerField from Django 3.0 on *)
  autofield_is_integerfield : bool }.

Definition isinstance (dj : Django) (f : Field) (k : FieldClass) : bool :=
  FieldClass_eqb (cls f) k
  || (autofield_is_integerfield dj && FieldClass_eqb (cls f) AutoField
      && FieldClass_eqb k IntegerField).

(** ** The monad of the editor *)

Inductive Exn :=
| ValueError (msg : string)
| AttributeError
| Error (s : Stmt).          (* Database.Error *)

Inductive Res (A : Type) :=
| Ok (a : A) (t : Trace)
| Raise (e : Exn) (t : Trace).
Arguments Ok {A} a t.
Arguments Raise {A} e t.

Definition M (A : Type) := Trace -> Res A.

Definition ret {A} (a : A) : M A := fun t => Ok a t.

Definition bind {A B} (m : M A) (k : A -> M B) : M B :=
  fun t => match m t with
           | Ok a t' => k a t'
           | Raise e t' => Raise e t'
           end.

Definition raise {A} (e : Exn) : M A := fun t => Raise e t.

Notation "x <- m ;; k" := (bind m (fun x => k))
  (at level 61, m at next level, right associativity).
Notation "m ;; k" := (bind m (fun _ => k))
  (at level 61, right associativity).

(** [try: m except: h] *)
Definition try_except {A} (m : M A) (h : M A) : M A :=
  fun t => match m t with
           | Ok a t' => Ok a t'
           | Raise _ t' => h t'
           end.

(** [try: m except Error as e: h e] *)
Definition try_except_Error {A} (m : M A) (h : Exn -> M A) : M A :=
  fun t => match m t with
           | Ok a t' => Ok a t'
           | Raise (Error s) t' => h (Error s) t'
           | Raise e t' => Raise e t'
           end.

(** [for x in xs: body x] *)
Fixpoint for_each {X} (xs : list X) (body : X -> M unit) : M unit :=
  match xs with
  | [] => ret tt
  | x :: xs' => body x ;; for_each xs' body
  end.

(** A loop that carries a value the body updates *)
Fixpoint for_fold {X S} (xs : list X) (body : S -> X -> M S) (s : S) : M S :=
  match xs with
  | [] => ret s
  | x :: xs' => s' <- body s x ;; for_fold xs' body s'
  end.

Definition trace_of {A} (r : Res A) : Trace :=
  match r with Ok _ t => t | Raise _ t => t end.

(** ** The editor *)

Section Editor.

Variable E : Engine.
Variable dj : Django.
Variable lib_str : PyValue -> string.
Variable float_repr : Z -> string.

Definition psudo_column_prefix : string := "psudo_".

Definition qn (s : string) : string := quote_name dj s.

(** [self.execute(sql)] *)
Definition execute (s : Stmt) : M unit :=
  fun t => if refuses E t s then Raise (Error s) (t ++ [Refused s])
           else Ok tt (t ++ [Done s]).

(** A question to the engine's catalog, answered in its present state *)
Definition ask {A} (q : Engine -> Trace -> A) : M A := fun t => Ok (q E t) t.

Definition prepare_default (value : PyValue) : string :=
  quote_value lib_str float_repr value.

Definition _reorg_tables : M unit :=
  res <- ask reorg_pending ;;
  for_each res (fun '(sName, tName) => execute (sql_reorg_table sName tName)).

(** The property [sql_create_pk] reorganizes the pending tables each time
    it is read, before the statement made from it is executed. *)
Definition execute_sql_create_pk (table name columns : string) : M unit :=
  _reorg_tables ;;
  execute (sql_create_pk table name columns).

(** *** Deferring and restoring constraints *)

Section Defer.

Variables (old_column new_column table : string).
Variables (defer_pk defer_unique defer_index defer_check : bool).

(** One turn of the loop of [_defer_constraints_check] *)
Definition defer_entry (deferred_constraints : Deferred)
    (entry : string * ConstrDict) : M Deferred :=
  let '(constr_name, constr_dict) := entry in
  let touched := PyStr.contains old_column (cd_columns constr_dict) in
  if defer_pk && cd_primary_key constr_dict && touched then
    execute (sql_delete_pk table constr_name) ;;
    ret (record_pk deferred_constraints constr_name (cd_columns constr_dict))
  else if defer_unique && cd_unique constr_dict && touched then
    try_except
      (execute (sql_delete_unique table constr_name) ;;
       ret (record_unique deferred_constraints constr_name (cd_columns constr_dict)))
      (ret deferred_constraints)
  else
    d <- (if defer_index && cd_index constr_dict && touched then
            try_except
              (execute (sql_delete_index (Some table) constr_name) ;;
               ret (record_index deferred_constraints constr_name
                      (cd_columns constr_dict)))
              (ret deferred_constraints)
          else ret deferred_constraints) ;;
    if defer_check && cd_check constr_dict && touched then
      execute (sql_delete_check table constr_name) ;;
      ret (record_check d constr_name (cd_columns constr_dict))
    else ret d.

Definition _defer_constraints_check (constraints : dict ConstrDict)
    (deferred_constraints : Deferred) : M Deferred :=
  for_fold constraints defer_entry deferred_constraints.

(** [', '.join(column.replace(old_field.column, new_field.column)
              for column in columns)] *)
Definition renamed_columns (columns : list string) : string :=
  PyStr.join ", "
    (map (fun column => PyStr.replace column old_column new_column) columns).

Definition _restore_constraints_check (deferred_constraints : Deferred) : M unit :=
  for_each (d_pk deferred_constraints) (fun '(pk_name, columns) =>
    execute_sql_create_pk table pk_name (renamed_columns columns)) ;;
  for_each (d_unique deferred_constraints) (fun '(constr_name, columns) =>
    execute (sql_create_unique table constr_name (renamed_columns columns))) ;;
  for_each (d_index deferred_constraints) (fun '(index_name, columns) =>
    execute (sql_create_index table index_name (renamed_columns columns) EmptyString)).

End Defer.

(** *** Adding a column *)

(** [try: body except Error as e: self.execute(del_column); raise e] *)
Definition or_drop_column (del_column : Stmt) (body : M unit) : M unit :=
  try_except_Error body (fun e => execute del_column ;; raise e).

(** [field.remote_field.through._meta.auto_created], when [remote_field] is
    there and has a [through] attribute *)
Definition through_auto_created (field : Field) : M bool :=
  match remote_field field with
  | Some r =>
      match through r with
      | Some (Some th) => ret (auto_created th)
      | Some None => raise AttributeError
      | None => ret false
      end
  | None => ret false
  end.

(** [add_field] assigns to attributes of [field]; the field it returns is
    the caller's field after the call. *)
Definition add_field (model : Model) (field : Field) : M Field :=
  let notnull := negb (null field) in
  let field := set_null field true in
  let p_key := primary_key field in
  let field := set_primary_key field false in
  let unique := unique field in
  let field := set__unique field false in
  execute (super_add_field model field) ;;
  rel_condition <- through_auto_created field ;;
  if isinstance dj field ManyToManyField && rel_condition then ret field
  else
    _reorg_tables ;;
    if notnull || unique || p_key then
      let del_column :=
        sql_delete_column (qn (db_table model)) (qn (column field)) in
      field <-
        (if notnull then
           let field := set_null field false in
           or_drop_column del_column
             (execute (sql_alter_column (qn (db_table model))
                         (sql_alter_column_not_null (qn (column field)))) ;;
              _reorg_tables) ;;
           ret field
         else ret field) ;;
      if p_key then
        let field := set_primary_key field true in
        other_pks <- ask (fun e t => primary_keys e t (db_table model)) ;;
        for_each other_pks (fun other_pk =>
          execute (sql_delete_pk (qn (db_table model)) other_pk)) ;;
        _reorg_tables ;;
        or_drop_column del_column
          (execute (sql_create_pk (qn (db_table model))
                      (_create_index_name dj (OfModel (db_table model)) [column field] "_pk")
                      (qn (column field))) ;;
           _reorg_tables) ;;
        ret field
      else if unique then
        let field := set__unique field true in
        or_drop_column del_column
          (execute (sql_create_unique (qn (db_table model))
                      (_create_index_name dj (OfModel (db_table model)) [column field] "_uniq")
                      (qn (column field))) ;;
           _reorg_tables) ;;
        ret field
      else ret field
    else ret field.

Definition alterFieldDataTypeByRemaking (model : Model) (old_field new_field : Field)
    (strict : bool) : M (Field * Field) :=
  let tmp_new_field :=
    set_column new_field
      (truncate_name dj (psudo_column_prefix ++ column new_field)%string
         (max_name_length dj)) in
  tmp_new_field <- add_field model tmp_new_field ;;
  execute (sql_update_set (qn (db_table model)) (qn (column tmp_new_field))
             (qn (column old_field))) ;;
  execute (super_remove_field model old_field) ;;
  ret (tmp_new_field, new_field).


(** *** Altering a link table *)

Definition _alter_many_to_many (model : Model) (old_field new_field : Field)
    (strict : bool) : M unit :=
  match remote_field old_field, remote_field new_field with
  | Some ro, Some rn =>
      match through ro, through rn with
      | Some old_through, Some new_through =>
          match old_through, new_through with
          | Some old_field_rel_through, Some new_rel_through =>
              let rel_old_column := reverse_column old_field_rel_through in
              let rel_new_column := reverse_column new_rel_through in
              let table := through_db_table old_field_rel_through in
              constraints <- ask (fun e t => get_constraints e t table) ;;
              for_each constraints (fun '(constr_name, constr_dict) =>
                match cd_foreign_key constr_dict with
                | Some _ => execute (sql_delete_fk (qn table) constr_name)
                | None => ret tt
                end) ;;
              deferred_constraints <-
                _defer_constraints_check rel_old_column table true true true false
                  constraints no_deferred ;;
              _reorg_tables ;;
              execute (super_alter_many_to_many model old_field new_field strict) ;;
              match rel new_field with
              | Some r =>
                  match through r with
                  | Some (Some th) =>
                      _restore_constraints_check rel_old_column rel_new_column
                        (through_db_table th) deferred_constraints
                  | _ => raise AttributeError
                  end
              | None => raise AttributeError
              end
          | _, _ => raise AttributeError
          end
      | _, _ => ret tt
      end
  | _, _ => ret tt
  end.

(** *** Altering a field *)

(** [%s] of a storage type *)
Definition type_text (ty : option string) : string :=
  match ty with Some s => s | None => "None" end.

Definition opt_is_None {A} (o : option A) : bool :=
  match o with None => true | Some _ => false end.

(** [old_field.remote_field.through and new_field.remote_field.through and
     old_field.remote_field.through._meta.auto_created and
     new_field.remote_field.through._meta.auto_created], or [False] *)
Definition rel_condition_of (old_field new_field : Field) : M bool :=
  match remote_field old_field with
  | Some ro =>
      match through ro with
      | Some (Some old_through) =>
          match remote_field new_field with
          | Some rn =>
              match through rn with
              | Some (Some new_through) =>
                  ret (auto_created old_through && auto_created new_through)
              | Some None => ret false
              | None => raise AttributeError
              end
          | None => raise AttributeError
          end
      | Some None => ret false
      | None => ret false
      end
  | None => ret false
  end.

(** The test that sends a datatype change through the remake *)
Definition needs_remaking (old_field new_field : Field) : bool :=
  opt_string_neq (db_type old_field) (db_type new_field)
  && (isinstance dj old_field AutoField || isinstance dj old_field TextField
      || isinstance dj new_field TextField).

Section Steps.

Variable model : Model.
Variable strict : bool.

Definition names_on (column : string) (kind : ConstraintKind) : M (list string) :=
  ask (fun e t => constraint_names e t (db_table model) [column] kind).

(** [# Need to remove Primary Key] *)
Definition remove_primary_key (old_field : Field)
    (alter_field_primary_key : bool) : M unit :=
  if alter_field_primary_key && primary_key old_field then
    (if strict then
       pk_names <- names_on (column old_field) PrimaryKey ;;
       if (List.length pk_names =? 0)%nat then
         raise (ValueError ("Found no primary key in " ++ db_table model ++ "."
                              ++ column old_field ++ " ")%string)
       else ret tt
     else ret tt) ;;
    execute (sql_drop_pk (qn (db_table model)))
  else ret tt.

(** [# Need to remove unique Key] *)
Definition remove_unique (old_field : Field)
    (alter_field_unique alter_field_primary_key : bool) : M unit :=
  if (alter_field_unique && unique old_field)
     || (unique old_field && alter_field_primary_key
         && negb (primary_key old_field)) then
    unique_key_names <- names_on (column old_field) Unique ;;
    if strict && negb (List.length unique_key_names =? 1)%nat then
      raise (ValueError
               "Found wrong number of unique constraints for (table)s.(column)s")
    else
      for_each unique_key_names (fun unique_key_name =>
        execute (sql_delete_unique (qn (db_table model)) unique_key_name))
  else ret tt.

(** [# Need to remove Index] *)
Definition remove_index (old_field : Field) (alter_field_index : bool) : M unit :=
  if alter_field_index && db_index old_field then
    index_names <- names_on (column old_field) Index ;;
    if strict && negb (List.length index_names =? 1)%nat then
      raise (ValueError "Found wrong number of Indexes for (table)s.(column)s")
    else
      for_each index_names (fun index_name =>
        execute (sql_delete_index None index_name))
  else ret tt.

(** [# Need to remove check constraint] *)
Definition remove_check (old_field : Field)
    (alter_field_check_constraint : bool) : M unit :=
  if alter_field_check_constraint && truthy (check_of old_field) then
    check_constraint_names <- names_on (column old_field) Check ;;
    if strict && negb (List.length check_constraint_names =? 1)%nat then
      raise (ValueError
               "Found wrong number of check constraints for (table)s.(column)s")
    else
      for_each check_constraint_names (fun check_constraint_name =>
        execute (sql_delete_check (qn (db_table model)) check_constraint_name))
  else ret tt.

(** [# Need to remove Nullability] *)
Definition remove_nullability (old_field : Field)
    (alter_field_nullable : bool) : M unit :=
  if alter_field_nullable && null old_field then
    execute (sql_alter_column (qn (db_table model))
               (sql_alter_column_not_null (qn (column old_field))))
  else ret tt.

(** The five drops, in the order of the source *)
Definition drop_steps (old_field : Field)
    (alter_field_primary_key alter_field_unique alter_field_index
     alter_field_check_constraint alter_field_nullable : bool) : M unit :=
  remove_primary_key old_field alter_field_primary_key ;;
  remove_unique old_field alter_field_unique alter_field_primary_key ;;
  remove_index old_field alter_field_index ;;
  remove_check old_field alter_field_check_constraint ;;
  remove_nullability old_field alter_field_nullable.

(** [# Drop all FK constraints, if require we will make it again] *)
Definition drop_fk_constraints (old_field : Field) : M unit :=
  match remote_field old_field with
  | Some _ =>
      fk_names <- names_on (column old_field) ForeignKey ;;
      for_each fk_names (fun fk_name =>
        execute (sql_delete_fk (qn (db_table model)) fk_name))
  | None => ret tt
  end.

(** [# Drop all incoming FK constraint, if require we will make it again] *)
Definition drop_incoming_fk (old_field : Field) : M unit :=
  for_each (get_fields (Schema.model old_field)) (fun incoming_fks =>
    match rel_column incoming_fks with
    | Some c =>
        fk_names <- ask (fun e t =>
          constraint_names e t (rel_db_table incoming_fks) [c] ForeignKey) ;;
        for_each fk_names (fun fk_name =>
          execute (sql_delete_fk (qn (rel_db_table incoming_fks)) fk_name))
    | None => raise AttributeError
    end).

(** [# Need to change the field type] *)
Definition change_field_type (old_field new_field : Field)
    (old_default : option PyValue) : M unit :=
  (if default_is_not_None old_field && has_default old_field
      && negb (opt_is_None old_default) then
     execute (sql_drop_default (qn (db_table model)) (qn (column new_field)))
   else ret tt) ;;
  if isinstance dj new_field AutoField then
    max <- ask (fun e t =>
      select_max e t (qn (column new_field)) (qn (db_table model))) ;;
    let max := match max with None => 0%Z | Some m => m end in
    (if negb (isinstance dj old_field IntegerField) then
       execute (sql_alter_column (qn (db_table model))
                  (sql_alter_column_type (qn (column new_field)) "Integer"))
     else ret tt) ;;
    execute (sql_alter_column (qn (db_table model))
               (sql_alter_column_type_from_int_to_auto (qn (column new_field))
                  (max + 1)%Z))
  else
    execute (sql_alter_column (qn (db_table model))
               (sql_alter_column_type (qn (column new_field))
                  (type_text (db_type new_field)))).

(** The block under [if alter_field_name or alter_field_data_type]; it
    returns the two flags it may set. *)
Definition rename_and_retype (old_field new_field : Field)
    (old_default : option PyValue)
    (alter_field_name alter_field_data_type : bool)
    (rebuild_incomming_fk alter_incomming_fk_data_type : bool)
    : M (bool * bool) :=
  if alter_field_name || alter_field_data_type then
    rebuild_incomming_fk <-
      (if primary_key old_field && primary_key new_field then
         drop_incoming_fk old_field ;; ret true
       else ret rebuild_incomming_fk) ;;
    constraints <- ask (fun e t => get_constraints e t (db_table model)) ;;
    deferred_constraints <-
      _defer_constraints_check (column old_field) (db_table model)
        true true true true constraints no_deferred ;;
    (if alter_field_name then
       execute (sql_rename_column (qn (db_table model)) (qn (column old_field))
                  (qn (column new_field)))
     else ret tt) ;;
    alter_incomming_fk_data_type <-
      (if alter_field_data_type then
         change_field_type old_field new_field old_default ;;
         ret (if primary_key old_field && primary_key new_field then
                if isinstance dj new_field AutoField
                   && isinstance dj old_field IntegerField
                then alter_incomming_fk_data_type
                else true
              else alter_incomming_fk_data_type)
       else ret alter_incomming_fk_data_type) ;;
    _restore_constraints_check (column old_field) (column new_field)
      (db_table model) deferred_constraints ;;
    ret (rebuild_incomming_fk, alter_incomming_fk_data_type)
  else ret (rebuild_incomming_fk, alter_incomming_fk_data_type).

(** [# Need to change Default] *)
Definition change_default (new_field : Field) (new_default : option PyValue)
    (alter_field_default alter_field_data_type alter_field_nullable : bool)
    : M unit :=
  if alter_field_default then
    match new_default with
    | None =>
        if alter_field_data_type || alter_field_nullable then ret tt
        else execute (sql_drop_default (qn (db_table model))
                        (qn (column new_field)))
    | Some v =>
        execute (sql_alter_column (qn (db_table model))
                   (sql_alter_column_default (qn (column new_field))
                      (prepare_default v)))
    end
  else ret tt.

(** [# Need to change nullability] *)
Definition change_nullability (new_field : Field)
    (alter_field_nullable : bool) : M unit :=
  if alter_field_nullable then
    execute (sql_alter_column (qn (db_table model))
               (if null new_field
                then sql_alter_column_null (qn (column new_field))
                else sql_alter_column_not_null (qn (column new_field))))
  else ret tt.

(** [# Need to add check constraint] *)
Definition add_check_constraint (new_field : Field)
    (alter_field_check_constraint : bool) : M unit :=
  if alter_field_check_constraint && truthy (check_of new_field) then
    execute (sql_create_check (qn (db_table model))
               (_create_index_name dj (OfModel (db_table model))
                  [column new_field] "_check")
               (qn (column new_field))
               (type_text (check_of new_field)))
  else ret tt.

(** [# Need to add new PK], [# Need to add a unique constraint],
    [# Need to add a index]; it returns the relations it adds to
    [incoming_relations]. *)
Definition add_keys (new_field : Field)
    (alter_field_primary_key alter_field_unique alter_field_index : bool)
    : M (list Related) :=
  if alter_field_primary_key && primary_key new_field then
    try_except (execute (sql_drop_pk (qn (db_table model)))) (ret tt) ;;
    execute_sql_create_pk (qn (db_table model))
      (_create_index_name dj (OfModel (db_table model)) [column new_field] "_pk")
      (qn (column new_field)) ;;
    ret (get_all_related_objects (Schema.model new_field))
  else if alter_field_unique && unique new_field then
    execute (sql_create_unique (qn (db_table model))
               (_create_index_name dj (OfTable (db_table model))
                  [column new_field] "_uniq")
               (qn (column new_field))) ;;
    ret []
  else if alter_field_index && db_index new_field then
    execute (sql_create_index (qn (db_table model))
               (_create_index_name dj (OfModel (db_table model))
                  [column new_field] "_index")
               (qn (column new_field)) EmptyString) ;;
    ret []
  else ret [].

(** [# Update incoming FK field] and the reorganization after it *)
Definition update_incoming_fk (incoming_relations : list Related) : M unit :=
  for_each incoming_relations (fun inc_rel =>
    match rel_column inc_rel with
    | Some c =>
        execute (sql_alter_column (qn (rel_db_table inc_rel))
                   (sql_alter_column_type (qn c) (rel_db_type inc_rel)))
    | None => raise AttributeError
    end) ;;
  if (0 <? List.length incoming_relations)%nat then _reorg_tables else ret tt.

(** [# Rebuild/make FK constraint, if it have any] *)
Definition make_fk_constraint (new_field : Field) : M unit :=
  let target :=
    if (fst (djangoVersion dj) <? 1)%nat
       || ((fst (djangoVersion dj) =? 1)%nat && (snd (djangoVersion dj) <? 9)%nat)
    then rel new_field else remote_field new_field in
  match target with
  | Some r =>
      execute (sql_create_fk (qn (db_table model))
                 (_create_index_name dj (OfModel (db_table model))
                    [column new_field] "_fk")
                 (qn (column new_field)) (qn (to_table r)) (qn (to_column r)))
  | None => ret tt
  end.

(** [# Rebuild incoming FK constraints] *)
Definition rebuild_incoming_fk (new_field : Field)
    (rebuild_incomming_fk : bool) : M unit :=
  if rebuild_incomming_fk then
    for_each (get_all_related_objects (Schema.model new_field)) (fun inc_rel =>
      match rel_column inc_rel with
      | Some c =>
          execute (sql_create_fk (qn (rel_db_table inc_rel))
                     (_create_index_name dj (OfModel (rel_db_table inc_rel))
                        [c] "_fk")
                     (qn c) (qn (db_table model)) (qn (column new_field)))
      | None => raise AttributeError
      end)
  else ret tt.

(** [alter_field] from the line that compares the two storage types for the
    second time: [old_field] is the temporary column when the remake took
    place. *)
Definition alter_field_from_flags (old_field new_field : Field)
    (rebuild_incomming_fk alter_incomming_fk_data_type : bool) : M unit :=
  let alter_field_data_type := opt_string_neq (db_type old_field) (db_type new_field) in
  let alter_field_name := negb (String.eqb (column old_field) (column new_field)) in
  let alter_field_index := negb (Bool.eqb (db_index old_field) (db_index new_field)) in
  let alter_field_unique := negb (Bool.eqb (unique old_field) (unique new_field)) in
  let alter_field_primary_key :=
    negb (Bool.eqb (primary_key old_field) (primary_key new_field)) in
  let alter_field_check_constraint :=
    opt_string_neq (check_of old_field) (check_of new_field) in
  let alter_field_nullable := negb (Bool.eqb (null old_field) (null new_field)) in
  let old_default := effective_default old_field in
  let new_default := effective_default new_field in
  let alter_field_default :=
    default_is_not_None old_field && has_default old_field
    && default_neq (value_ne dj) old_default new_default in
  drop_steps old_field alter_field_primary_key alter_field_unique
    alter_field_index alter_field_check_constraint alter_field_nullable ;;
  drop_fk_constraints old_field ;;
  flags <- rename_and_retype old_field new_field old_default
             alter_field_name alter_field_data_type
             rebuild_incomming_fk alter_incomming_fk_data_type ;;
  let '(rebuild_incomming_fk, alter_incomming_fk_data_type) := flags in
  change_default new_field new_default alter_field_default
    alter_field_data_type alter_field_nullable ;;
  change_nullability new_field alter_field_nullable ;;
  add_check_constraint new_field alter_field_check_constraint ;;
  let incoming_relations :=
    if alter_incomming_fk_data_type
    then get_all_related_objects (Schema.model new_field) else [] in
  added <- add_keys new_field alter_field_primary_key alter_field_unique
             alter_field_index ;;
  update_incoming_fk (incoming_relations ++ added) ;;
  make_fk_constraint new_field ;;
  rebuild_incoming_fk new_field rebuild_incomming_fk.

(** [alter_field]; the text of its [ValueError] is kept short. *)
Definition alter_field (old_field new_field : Field) : M unit :=
  rel_condition <- rel_condition_of old_field new_field ;;
  if opt_is_None (db_type old_field) && opt_is_None (db_type new_field)
     && rel_condition then
    _alter_many_to_many model old_field new_field strict
  else if opt_is_None (db_type old_field) || opt_is_None (db_type new_field) then
    raise (ValueError "Cannot alter field")
  else if needs_remaking old_field new_field then
    let rebuild_incomming_fk := primary_key old_field && primary_key new_field in
    let alter_incomming_fk_data_type :=
      primary_key old_field && primary_key new_field
      && negb (isinstance dj old_field AutoField
               && isinstance dj new_field IntegerField) in
    fields <- alterFieldDataTypeByRemaking model old_field new_field strict ;;
    alter_field_from_flags (fst fields) (snd fields)
      rebuild_incomming_fk alter_incomming_fk_data_type
  else
    alter_field_from_flags old_field new_field false false.

End Steps.

End Editor.

(** ** Observations on traces *)

(** The events issued since the trace was [t] *)
Definition since (t t' : Trace) : Trace := skipn (List.length t) t'.

(** The event [self.execute(s)] leaves when the trace is [t] *)
Definition attempt (E : Engine) (t : Trace) (s : Stmt) : Event :=
  if refuses E t s then Refused s else Done s.

Definition is_reorg (ev : Event) : Prop :=
  match ev with
  | Done (sql_reorg_table _ _) | Refused (sql_reorg_table _ _) => True
  | _ => False
  end.

(** The columns of [table] after an event, for the statements of this editor
    that add, drop or rename a column; identifiers are the quoted ones. *)
Definition columns_after (dj : Django) (table : string) (cols : list string)
    (ev : Event) : list string :=
  match ev with
  | Done (super_add_field m f) =>
      if String.eqb (quote_name dj (db_table m)) table
      then cols ++ [quote_name dj (column f)] else cols
  | Done (super_remove_field m f) =>
      if String.eqb (quote_name dj (db_table m)) table
      then remove string_dec (quote_name dj (column f)) cols else cols
  | Done (sql_delete_column tb c) =>
      if String.eqb tb table then remove string_dec c cols else cols
  | Done (sql_rename_column tb o n) =>
      if String.eqb tb table
      then map (fun c => if String.eqb c o then n else c) cols else cols
  | _ => cols
  end.

Definition table_columns (dj : Django) (table : string) (cols : list string)
    (t : Trace) : list string :=
  fold_left (columns_after dj table) t cols.

(** The statements [_restore_constraints_check] makes from the deferred
    constraints, in its order *)
Definition restore_stmts (old_column new_column table : string)
    (d : Deferred) : list Stmt :=
  map (fun '(n, cols) =>
         sql_create_pk table n (renamed_columns old_column new_column cols)) (d_pk d)
  ++ map (fun '(n, cols) =>
         sql_create_unique table n (renamed_columns old_column new_column cols))
       (d_unique d)
  ++ map (fun '(n, cols) =>
         sql_create_index table n (renamed_columns old_column new_column cols)
           EmptyString) (d_index d).

(** The names of the constraints the restoration recreates *)
Definition restored_names (d : Deferred) : list string :=
  keys (d_pk d) ++ keys (d_unique d) ++ keys (d_index d).

Definition has_key {V} (d : dict V) (k : string) : bool :=
  existsb (String.eqb k) (keys d).

(** Under how many of the four kinds a name is recorded *)
Definition recorded_kinds (d : Deferred) (name : string) : nat :=
  (if has_key (d_pk d) name then 1 else 0)
  + (if has_key (d_unique d) name then 1 else 0)
  + (if has_key (d_index d) name then 1 else 0)
  + (if has_key (d_check d) name then 1 else 0).

(** A computation only issues events that satisfy [P], whatever its
    outcome. *)
Definition emits {A} (P : Event -> Prop) (m : M A) : Prop :=
  forall t, exists ext, trace_of (m t) = t ++ ext /\ Forall P ext.

(** One turn of the deferral loop as a relation: from the deferred set [d]
    and the trace [t], what the turn for the constraint [n] with the columns
    [cols] can leave. *)
Inductive index_part (table n : string) (cols : list string) (d : Deferred)
    (t : Trace) : Deferred -> Trace -> Prop :=
| index_skipped : index_part table n cols d t d t
| index_dropped :
    index_part table n cols d t (record_index d n cols)
      (t ++ [Done (sql_delete_index (Some table) n)])
| index_refused :
    index_part table n cols d t d
      (t ++ [Refused (sql_delete_index (Some table) n)]).

Inductive turn (table n : string) (cols : list string) (d : Deferred)
    (t : Trace) : Res Deferred -> Prop :=
| turn_pk_dropped :
    turn table n cols d t
      (Ok (record_pk d n cols) (t ++ [Done (sql_delete_pk table n)]))
| turn_pk_refused :
    turn table n cols d t
      (Raise (Error (sql_delete_pk table n)) (t ++ [Refused (sql_delete_pk table n)]))
| turn_unique_dropped :
    turn table n cols d t
      (Ok (record_unique d n cols) (t ++ [Done (sql_delete_unique table n)]))
| turn_unique_refused :
    turn table n cols d t (Ok d (t ++ [Refused (sql_delete_unique table n)]))
| turn_check_skipped di ti :
    index_part table n cols d t di ti -> turn table n cols d t (Ok di ti)
| turn_check_dropped di ti :
    index_part table n cols d t di ti ->
    turn table n cols d t
      (Ok (record_check di n cols) (ti ++ [Done (sql_delete_check table n)]))
| turn_check_refused di ti :
    index_part table n cols d t di ti ->
    turn table n cols d t
      (Raise (Error (sql_delete_check table n))
         (ti ++ [Refused (sql_delete_check table n)])).

(** The statement of an event, and the statements a trace shows apart from
    the reorganizations *)
Definition stmt_of (ev : Event) : Stmt :=
  match ev with Done s | Refused s => s end.

Definition is_reorg_stmt (s : Stmt) : bool :=
  match s with sql_reorg_table _ _ => true | _ => false end.

Definition attempted (t : Trace) : list Stmt :=
  filter (fun s => negb (is_reorg_stmt s)) (map stmt_of t).

(** The name of the constraint a statement of the deferral drops *)
Definition dropped_name (s : Stmt) : option string :=
  match s with
  | sql_delete_pk _ n | sql_delete_unique _ n | sql_delete_index _ n
  | sql_delete_check _ n => Some n
  | _ => None
  end.

Definition drops (name : string) (ev : Event) : Prop :=
  dropped_name (stmt_of ev) = Some name.

(** The name of the constraint a statement creates *)
Definition created_name (s : Stmt) : option string :=
  match s with
  | sql_create_pk _ n _ | sql_create_unique _ n _ | sql_create_index _ n _ _ =>
      Some n
  | _ => None
  end.

Definition creates (name : string) (s : Stmt) : bool :=
  match created_name s with
  | Some n => String.eqb n name
  | None => false
  end.

(** Under which of the kinds pk, unique, index and check a name is
    recorded *)
Definition kinds (d : Deferred) (name : string) : bool * bool * bool * bool :=
  (has_key (d_pk d) name, has_key (d_unique d) name,
   has_key (d_index d) name, has_key (d_check d) name).

(** What the [continue] statements of the deferral leave possible: a name
    recorded under pk or under unique is recorded under nothing else. *)
Definition exclusive (k : bool * bool * bool * bool) : bool :=
  let '(p, u, i, c) := k in
  negb (p && (u || i || c)) && negb (u && (i || c)).

Definition nodup_maps (d : Deferred) : Prop :=
  NoDup (keys (d_pk d)) /\ NoDup (keys (d_unique d))
  /\ NoDup (keys (d_index d)) /\ NoDup (keys (d_check d)).

(** An event that leaves the columns of [table] as they are *)
Definition neutral (dj : Django) (table : string) (ev : Event) : Prop :=
  forall cols, columns_after dj table cols ev = cols.

(** The three statements [add_field] executes inside a [try] that drops the
    new column: NOT NULL, the primary key, the unique constraint. *)
Definition follow_up (dj : Django) (model : Model) (field : Field)
    (s : Stmt) : Prop :=
  let tbl := quote_name dj (db_table model) in
  let col := quote_name dj (column field) in
  s = sql_alter_column tbl (sql_alter_column_not_null col)
  \/ s = sql_create_pk tbl
           (_create_index_name dj (OfModel (db_table model)) [column field] "_pk")
           col
  \/ s = sql_create_unique tbl
           (_create_index_name dj (OfModel (db_table model)) [column field] "_uniq")
           col.

(** A computation all of whose events satisfy [Q], unless it ends by
    raising after a refused statement followed by the attempt to execute
    [del]: the refusal is raised again when [del] ran, the refusal of [del]
    otherwise. *)
Definition compensated (del : Stmt) (Q : Event -> Prop) {A} (m : M A) : Prop :=
  forall t, exists ext, trace_of (m t) = t ++ ext
    /\ (Forall Q ext
        \/ exists pre s, Forall Q pre
             /\ ((ext = pre ++ [Refused s; Done del]
                  /\ m t = Raise (Error s) (t ++ ext))
                 \/ (ext = pre ++ [Refused s; Refused del]
                     /\ m t = Raise (Error del) (t ++ ext)))).

(** A statement that creates, fills or removes a column as the remake does *)
Definition remakes (s : Stmt) : Prop :=
  match s with
  | super_add_field _ _ | sql_update_set _ _ _ | super_remove_field _ _ => True
  | _ => False
  end.

(** A computation that, when it completes, returns a value that
    satisfies [R] *)
Definition returns {A} (R : A -> Prop) (m : M A) : Prop :=
  forall t a t', m t = Ok a t' -> R a.

(** Statements by template *)
Definition is_drop_default (s : Stmt) : bool :=
  match s with sql_drop_default _ _ => true | _ => false end.

Definition is_set_default (s : Stmt) : bool :=
  match s with
  | sql_alter_column _ (sql_alter_column_default _ _) => true
  | _ => false
  end.

Definition is_identity (s : Stmt) : bool :=
  match s with
  | sql_alter_column _ (sql_alter_column_type_from_int_to_auto _ _) => true
  | _ => false
  end.

(** How many of the statements a trace shows satisfy [p] *)
Definition attempts_of (p : Stmt -> bool) (t : Trace) : nat :=
  List.length (filter p (map stmt_of t)).

(** *** The deferral when nothing is refused

    Which branch of the loop of [_defer_constraints_check] takes a
    constraint: the primary-key branch first, then the unique branch, and
    the index and check branches for what neither took. *)
Section DeferralPlan.

Variables (old_column table : string).
Variables (defer_pk defer_unique defer_index defer_check : bool).

Definition touches (cd : ConstrDict) : bool :=
  PyStr.contains old_column (cd_columns cd).

Definition defers_pk (cd : ConstrDict) : bool :=
  defer_pk && cd_primary_key cd && touches cd.

Definition defers_unique (cd : ConstrDict) : bool :=
  negb (defers_pk cd) && (defer_unique && cd_unique cd && touches cd).

Definition defers_index (cd : ConstrDict) : bool :=
  negb (defers_pk cd) && negb (defer_unique && cd_unique cd && touches cd)
  && (defer_index && cd_index cd && touches cd).

Definition defers_check (cd : ConstrDict) : bool :=
  negb (defers_pk cd) && negb (defer_unique && cd_unique cd && touches cd)
  && (defer_check && cd_check cd && touches cd).

(** The names and column lists of the constraints a branch takes *)
Definition taken (p : ConstrDict -> bool) (catalog : dict ConstrDict)
    : dict (list string) :=
  map (fun e => (fst e, cd_columns (snd e))) (filter (fun e => p (snd e)) catalog).

Definition deferred_of (catalog : dict ConstrDict) : Deferred :=
  {| d_pk := taken defers_pk catalog;
     d_unique := taken defers_unique catalog;
     d_index := taken defers_index catalog;
     d_check := taken defers_check catalog |}.

(** The drops of one constraint, in the order of the branches *)
Definition drops_of (e : string * ConstrDict) : list Stmt :=
  (if defers_pk (snd e) then [sql_delete_pk table (fst e)] else [])
  ++ (if defers_unique (snd e) then [sql_delete_unique table (fst e)] else [])
  ++ (if defers_index (snd e) then [sql_delete_index (Some table) (fst e)] else [])
  ++ (if defers_check (snd e) then [sql_delete_check table (fst e)] else []).

End DeferralPlan.

(** The four keys of the dictionary of deferred constraints *)
Inductive DeferKey := KeyPk | KeyUnique | KeyIndex | KeyCheck.

Definition entries (k : DeferKey) (d : Deferred) : dict (list string) :=
  match k with
  | KeyPk => d_pk d
  | KeyUnique => d_unique d
  | KeyIndex => d_index d
  | KeyCheck => d_check d
  end.

(** The statement that drops the constraint [n] as one of kind [k] *)
Definition drop_stmt (k : DeferKey) (table n : string) : Stmt :=
  match k with
  | KeyPk => sql_delete_pk table n
  | KeyUnique => sql_delete_unique table n
  | KeyIndex => sql_delete_index (Some table) n
  | KeyCheck => sql_delete_check table n
  end.

(** The entry of the snapshot the loop tests for a kind *)
Definition is_kind (k : DeferKey) (cd : ConstrDict) : bool :=
  match k with
  | KeyPk => cd_primary_key cd
  | KeyUnique => cd_unique cd
  | KeyIndex => cd_index cd
  | KeyCheck => cd_check cd
  end.

(** The [defer_*] argument of a kind *)
Definition deferring (defer_pk defer_unique defer_index defer_check : bool)
    (k : DeferKey) : bool :=
  match k with
  | KeyPk => defer_pk
  | KeyUnique => defer_unique
  | KeyIndex => defer_index
  | KeyCheck => defer_check
  end.

(** Two deferred sets, one after the other *)
Definition deferred_app (a b : Deferred) : Deferred :=
  {| d_pk := d_pk a ++ d_pk b; d_unique := d_unique a ++ d_unique b;
     d_index := d_index a ++ d_index b; d_check := d_check a ++ d_check b |}.

(** The statements that recreate the constraints of [d] with the column
    lists as they were recorded *)
Definition recreate_stmts (table : string) (d : Deferred) : list Stmt :=
  map (fun e => sql_create_pk table (fst e) (PyStr.join ", " (snd e))) (d_pk d)
  ++ map (fun e => sql_create_unique table (fst e) (PyStr.join ", " (snd e)))
       (d_unique d)
  ++ map (fun e => sql_create_index table (fst e) (PyStr.join ", " (snd e))
                     EmptyString) (d_index d).

(** The test after which [add_field] returns at once: a many-to-many field
    whose link table Django created itself *)
Definition is_auto_created_link (dj : Django) (field : Field) : bool :=
  isinstance dj field ManyToManyField
  && match remote_field field with
     | Some r =>
         match through r with
         | Some (Some th) => auto_created th
         | _ => false
         end
     | None => false
     end.

(** The field [add_field] leaves to its caller when it completes: [null]
    and [primary_key] are assigned back, [_unique] only in the branch of a
    field that is no primary key, and nothing for an auto-created link. *)
Definition added_field (dj : Django) (field : Field) : Field :=
  if is_auto_created_link dj field
  then set__unique (set_primary_key (set_null field true) false) false
  else set__unique field (_unique field && negb (primary_key field)).

(** The copy of the new field the remake adds as a column *)
Definition temporary_field (dj : Django) (new_field : Field) : Field :=
  set_column new_field
    (truncate_name dj (psudo_column_prefix ++ column new_field)%string
       (max_name_length dj)).

(** The field [alter_field] has in [old_field] when it computes its flags:
    the temporary column after a remake, the old field otherwise *)
Definition plan_old_field (dj : Django) (old_field new_field : Field) : Field :=
  if needs_remaking dj old_field new_field
  then added_field dj (temporary_field dj new_field)
  else old_field.

(** The statements of the link-table alteration before and after the call
    into the base class *)
Definition clears_constraint (s : Stmt) : Prop :=
  match s with
  | sql_delete_fk _ _ | sql_delete_pk _ _ | sql_delete_unique _ _
  | sql_delete_index _ _ | sql_reorg_table _ _ => True
  | _ => False
  end.

Definition recreates_constraint (s : Stmt) : Prop :=
  match s with
  | sql_create_pk _ _ _ | sql_create_unique _ _ _ | sql_create_index _ _ _ _
  | sql_reorg_table _ _ => True
  | _ => False
  end.

End Schema.

(** ** Sample engines, models and fields *)

Module Sample.
Import Literal Schema.
Open Scope list_scope.

(** Python's [!=] on two integers; the samples compare no other values, and
    for those the answer here is [True]. *)
Definition int_ne (a b : PyValue) : bool :=
  match a, b with
  | VInt x, VInt y => negb (x =? y)%Z
  | _, _ => true
  end.

(** A Django whose quoting puts brackets around a name *)
Definition django : Django :=
  {| value_ne := int_ne;
     quote_name := fun s => ("[" ++ s ++ "]")%string;
     truncate_name := fun s n =>
       if (String.length s <=? n)%nat then s else substring 0 n s;
     max_name_length := 128;
     _create_index_name := fun subject cols suffix =>
       ((match subject with OfModel t | OfTable t => t end)
        ++ "_" ++ PyStr.join "_" cols ++ suffix)%string;
     djangoVersion := (2, 2);
     autofield_is_integerfield := false |}.

(** An engine that refuses the statements of [refused], whose catalog holds
    the constraints [catalog], answers [names] to [_constraint_names], has
    the primary keys [pks], and whose [MAX] is [max]; nothing is pending
    reorganization. *)
Definition engine (refused : Stmt -> bool) (catalog : dict ConstrDict)
    (names : ConstraintKind -> list string) (pks : list string)
    (max : option Z) : Engine :=
  {| refuses := fun _ s => refused s;
     constraint_names := fun _ _ _ k => names k;
     get_constraints := fun _ _ => catalog;
     select_max := fun _ _ _ => max;
     reorg_pending := fun _ => [];
     primary_keys := fun _ _ => pks |}.

Definition calm : Engine :=
  engine (fun _ => false) [] (fun _ => []) [] None.

Definition no_str : PyValue -> string := fun _ => EmptyString.
Definition no_repr : Z -> string := fun _ => EmptyString.

Definition T : Model :=
  {| db_table := "T"; get_fields := []; get_all_related_objects := [] |}.

(** A field of [T] with nothing but a class, a column and a storage type *)
Definition field (c : FieldClass) (col ty : string) : Field :=
  {| cls := c; column := col; db_type := Some ty; db_check := fun _ => None;
     null := false; primary_key := false; _unique := false; db_index := false;
     default := NOT_PROVIDED; effective_default := None;
     remote_field := None; rel := None; model := T |}.

Definition on_column (col : string) (pk uq ix ck : bool) : ConstrDict :=
  {| cd_columns := [col]; cd_primary_key := pk; cd_unique := uq;
     cd_index := ix; cd_check := ck; cd_foreign_key := None |}.

(** A table with one check constraint on the column [qty] *)
Definition checked : Engine :=
  engine (fun _ => false) [("qty_positive", on_column "qty" false false false true)]
    (fun _ => []) [] None.

(** A constraint the catalog reports both as an index and as a check *)
Definition index_and_check : dict ConstrDict :=
  [("ix", on_column "c" false false true true)].


(** An engine that refuses to set a column NOT NULL *)
Definition keeps_nullable : Engine :=
  engine (fun s => match s with
                   | sql_alter_column _ (sql_alter_column_not_null _) => true
                   | _ => false
                   end)
    [] (fun _ => []) [] None.

(** A table with the primary key [OLD_PK], which the engine refuses to drop *)
Definition keeps_pk : Engine :=
  engine (fun s => match s with sql_delete_pk _ _ => true | _ => false end)
    [] (fun _ => []) ["OLD_PK"] None.

(** The primary key [id] to add to [T] *)
Definition id_pk : Field :=
  {| cls := IntegerField; column := "id"; db_type := Some "INTEGER";
     db_check := fun _ => None; null := false; primary_key := true;
     _unique := false; db_index := false; default := NOT_PROVIDED;
     effective_default := None; remote_field := None; rel := None;
     model := T |}.

(** The unique column [c] of [T], and the same column as primary key *)
Definition unique_c : Field :=
  {| cls := OtherField; column := "c"; db_type := Some "INTEGER";
     db_check := fun _ => None; null := false; primary_key := false;
     _unique := true; db_index := false; default := NOT_PROVIDED;
     effective_default := None; remote_field := None; rel := None;
     model := T |}.

Definition pk_c : Field := set_primary_key unique_c true.

(** A table whose column has the unique constraint [T_c_uniq] *)
Definition with_unique : Engine :=
  engine (fun _ => false) []
    (fun k => match k with Unique => ["T_c_uniq"] | _ => [] end) [] None.

(** The identity column [id] of [T], and the plain integer it becomes *)
Definition auto_id : Field :=
  field AutoField "id" "INTEGER GENERATED BY DEFAULT AS IDENTITY".

Definition integer_id : Field := field IntegerField "id" "INTEGER".

(** The column [n] of [T] with the default 0, and with the default 5 *)
Definition n_default (v : Z) : Field :=
  {| cls := IntegerField; column := "n"; db_type := Some "INTEGER";
     db_check := fun _ => None; null := false; primary_key := false;
     _unique := false; db_index := false; default := DefaultValue (VInt v);
     effective_default := Some (VInt v); remote_field := None; rel := None;
     model := T |}.

(** A table whose column holds 41 at most *)
Definition max_41 : Engine :=
  engine (fun _ => false) [] (fun _ => []) [] (Some 41%Z).


(** The large-text column [id] of [T] *)
Definition text_id : Field := field TextField "id" "CLOB".

(** Two tables wait for a reorganization; nothing is refused *)
Definition two_pending : Engine :=
  {| refuses := fun _ _ => false;
     constraint_names := fun _ _ _ _ => [];
     get_constraints := fun _ _ => [];
     select_max := fun _ _ _ => None;
     reorg_pending := fun _ => [("S", "A"); ("S", "B")];
     primary_keys := fun _ _ => [] |}.

(** A catalog with a primary key and a unique index on [c], and an index
    on another column *)
Definition three_constraints : dict ConstrDict :=
  [("P", on_column "c" true true true false);
   ("U", on_column "c" false true true false);
   ("I", on_column "other" false false true false)].

(** An engine that refuses DROP PRIMARY KEY *)
Definition no_pk_to_drop : Engine :=
  engine (fun s => match s with sql_drop_pk _ => true | _ => false end)
    [] (fun _ => []) [] None.

(** The nullable column [n] of [T] *)
Definition nullable_n : Field := set_null (field IntegerField "n" "INTEGER") true.

(** A link table and the two sides of a relation through it *)
Definition link : Through :=
  {| through_db_table := "T_tags"; auto_created := true; reverse_column := "tag_id" |}.

Definition tags : Field :=
  {| cls := ManyToManyField; column := "tags"; db_type := None;
     db_check := fun _ => None; null := false; primary_key := false;
     _unique := false; db_index := false; default := NOT_PROVIDED;
     effective_default := None;
     remote_field := Some {| through := Some (Some link); to_table := "Tag";
                             to_column := "id" |};
     rel := Some {| through := Some (Some link); to_table := "Tag";
                    to_column := "id" |};
     model := T |}.

End Sample.

(** * Properties *)

(** ** Strings *)

Module PyStrFacts.
Import PyStr.

Lemma append_nil_r (s : string) : s ++ EmptyString = s.
Proof. induction s; simpl; congruence. Qed.

Lemma append_assoc (a b c : string) : (a ++ b) ++ c = a ++ (b ++ c).
Proof. induction a; simpl; congruence. Qed.

Lemma length_append (a b : string) :
  String.length (a ++ b) = String.length a + String.length b.
Proof. induction a; simpl; auto. Qed.

Lemma append_inv_head (a b c : string) : a ++ b = a ++ c -> b = c.
Proof. induction a; simpl; intros H; auto. inversion H; auto. Qed.

Lemma append_same_length (a b c d : string) :
  String.length a = String.length b -> a ++ c = b ++ d -> a = b /\ c = d.
Proof.
  revert b. induction a as [|x a IH]; intros [|y b] L H; simpl in *;
    try discriminate; auto.
  inversion H; subst. destruct (IH b) as [-> ->]; auto.
Qed.

Lemma drop_nil (k : nat) : drop k EmptyString = EmptyString.
Proof. destruct k; reflexivity. Qed.

Lemma drop_append (a b : string) : drop (String.length a) (a ++ b) = b.
Proof. induction a; simpl; auto. Qed.

Lemma length_drop (k : nat) (s : string) :
  String.length (drop k s) = String.length s - k.
Proof.
  revert s. induction k as [|k IH]; intros [|c s]; simpl; auto.
Qed.

Lemma prefix_append (a b : string) : prefix a (a ++ b) = true.
Proof.
  induction a as [|x a IH]; simpl.
  - destruct b; reflexivity.
  - destruct (ascii_dec x x); [assumption | congruence].
Qed.

Lemma prefix_split (a s : string) :
  prefix a s = true -> exists rest, s = a ++ rest.
Proof.
  revert s. induction a as [|x a IH]; intros s H.
  - exists s. reflexivity.
  - destruct s as [|y s]; simpl in H; [discriminate|].
    destruct (ascii_dec x y) as [->|]; [|discriminate].
    destruct (IH _ H) as [rest ->]. exists rest. reflexivity.
Qed.

(** Skipping [k] characters is scanning the rest of the string. *)
Lemma replace_from_skip (old new : string) (k : nat) (s : string) :
  replace_from old new k s = replace_from old new 0 (drop k s).
Proof.
  revert k. induction s as [|c s IH]; intros k.
  - rewrite drop_nil. reflexivity.
  - destruct k; [reflexivity|]. simpl. apply IH.
Qed.

(** An occurrence at the head is replaced and the scan goes on behind it. *)
Lemma replace_from_head (a : ascii) (o new rest : string) :
  replace_from (String a o) new 0 (String a o ++ rest)
  = new ++ replace_from (String a o) new 0 rest.
Proof.
  change (String a o ++ rest) with (String a (o ++ rest)).
  cbn [replace_from].
  change (String a (o ++ rest)) with (String a o ++ rest).
  rewrite prefix_append.
  rewrite replace_from_skip.
  replace (String.length (String a o) - 1) with (String.length o)
    by (simpl; lia).
  rewrite drop_append. reflexivity.
Qed.

Lemma prefix_length (a s : string) :
  prefix a s = true -> String.length a <= String.length s.
Proof.
  intros H. destruct (prefix_split _ _ H) as [r ->].
  rewrite length_append. lia.
Qed.

Lemma replace_from_length (old new : string) (k : nat) (s : string) :
  old <> EmptyString ->
  String.length (replace_from old new k s) + replaced old k s * String.length old
  = String.length (drop k s) + replaced old k s * String.length new.
Proof.
  intros NE. assert (1 <= String.length old) as L1
    by (destruct old; [congruence | simpl; lia]).
  revert k. induction s as [|c s IH]; intros k.
  - rewrite drop_nil. reflexivity.
  - destruct k as [|k].
    + cbn [replace_from replaced drop].
      destruct (prefix old (String c s)) eqn:P.
      * specialize (IH (String.length old - 1)).
        rewrite length_drop in IH.
        apply prefix_length in P. simpl String.length in P.
        rewrite length_append. simpl String.length.
        remember (String.length old) as n. remember (String.length new) as m.
        remember (replaced old (n - 1) s) as r.
        remember (String.length (replace_from old new (n - 1) s)) as q.
        remember (String.length s) as ls. clear - IH P L1. nia.
      * simpl String.length. specialize (IH 0). simpl drop in IH. lia.
    + simpl. apply IH.
Qed.

Lemma occurs_tail (old : string) (c : ascii) (s : string) :
  prefix old (String c s) = false -> occurs old (String c s) -> occurs old s.
Proof.
  intros P [pre [post H]]. destruct pre as [|x pre].
  - simpl in H. rewrite H, prefix_append in P. discriminate.
  - simpl in H. inversion H; subst. exists pre, post. reflexivity.
Qed.

Lemma occurs_replaced (old : string) (s : string) :
  old <> EmptyString -> occurs old s -> 1 <= replaced old 0 s.
Proof.
  intros NE. induction s as [|c s IH]; intros O.
  - destruct O as [pre [post H]].
    destruct pre; [destruct old; [congruence | discriminate] | discriminate].
  - cbn [replaced]. destruct (prefix old (String c s)) eqn:P; [lia|].
    apply IH. eapply occurs_tail; eauto.
Qed.

(** The first occurrence is replaced, what precedes it is kept. *)
Lemma replace_from_first (old new s : string) :
  old <> EmptyString -> occurs old s ->
  exists pre post, s = pre ++ old ++ post
    /\ replace_from old new 0 s = pre ++ new ++ replace_from old new 0 post.
Proof.
  intros NE. induction s as [|c s IH]; intros O.
  - destruct O as [pre [post H]].
    destruct pre; [destruct old; [congruence | discriminate] | discriminate].
  - destruct (prefix old (String c s)) eqn:P.
    + destruct (prefix_split _ _ P) as [rest R]. exists EmptyString, rest.
      split; [exact R|]. rewrite R. destruct old as [|a o]; [congruence|].
      simpl append at 2. apply replace_from_head.
    + destruct (IH (occurs_tail _ _ _ P O)) as [pre [post [-> R]]].
      exists (String c pre), post. split; [reflexivity|].
      cbn [replace_from]. rewrite P, R. reflexivity.
Qed.

Lemma replace_changes (s old new : string) :
  old <> EmptyString -> old <> new -> occurs old s -> replace s old new <> s.
Proof.
  intros NE D O. unfold replace. destruct old as [|a o] eqn:Eo; [congruence|].
  rewrite <- Eo in *. clear Eo a o. intros R.
  pose proof (replace_from_length old new 0 s NE) as L.
  pose proof (occurs_replaced old s NE O) as C.
  rewrite R in L. simpl drop in L.
  assert (String.length old = String.length new) as EL by nia.
  destruct (replace_from_first old new s NE O) as [pre [post [S1 S2]]].
  rewrite R in S2. rewrite S1 in S2 at 1.
  apply append_inv_head in S2.
  apply append_same_length in S2; [|assumption].
  destruct S2; congruence.
Qed.

Lemma replace_same (s old : string) : replace s old old = s \/ old = EmptyString.
Proof.
  destruct old as [|a o]; [right; reflexivity | left].
  unfold replace. remember (String a o) as old eqn:Eo.
  assert (forall n s, String.length s <= n -> replace_from old old 0 s = s) as H.
  { induction n as [|n IH]; intros [|c r] Ln; simpl in Ln; try reflexivity; try lia.
    cbn [replace_from]. destruct (prefix old (String c r)) eqn:P.
    - destruct (prefix_split _ _ P) as [rest R]. rewrite Eo in R. simpl in R.
      inversion R; subst c r. rewrite replace_from_skip.
      assert (String.length old - 1 = String.length o) as ->
        by (rewrite Eo; simpl; lia).
      rewrite drop_append, IH.
      + rewrite Eo. reflexivity.
      + rewrite length_append in Ln. lia.
    - rewrite IH; [reflexivity | lia]. }
  apply (H (String.length s)). lia.
Qed.

End PyStrFacts.

(** ** The value formatter *)

Module LiteralFacts.
Import Literal PyStr PyStrFacts.

Lemma prefix_nil (s : string) : prefix EmptyString s = true.
Proof. destruct s; reflexivity. Qed.

Lemma replace_quote (s : string) : replace s "'" "''" = double_quotes s.
Proof.
  unfold replace. induction s as [|c s IH]; [reflexivity|].
  cbn [replace_from double_quotes prefix].
  destruct (ascii_dec "'" c) as [<-|N].
  - rewrite prefix_nil. simpl. rewrite IH. reflexivity.
  - destruct (Ascii.eqb_spec c "'") as [->|_]; [congruence|].
    rewrite IH. reflexivity.
Qed.

Lemma unescape_double_quotes (s : string) :
  unescape (double_quotes s) false = Some s.
Proof.
  induction s as [|c s IH]; [reflexivity|].
  cbn [double_quotes]. destruct (Ascii.eqb_spec c "'") as [->|N].
  - simpl. rewrite IH. reflexivity.
  - cbn [unescape]. destruct (Ascii.eqb_spec c "'"); [congruence|].
    rewrite IH. reflexivity.
Qed.

(** C8.  [quote_value] is a total function of the literal; a text, date,
    time or datetime is quoted with every quote of its text doubled, so that
    the body reads back as the text and holds no quote on its own; a boolean
    gives [1] or [0]; a UUID its quoted text; a byte sequence the literal
    [BLOB(X'..')] of its hex digits; a duration its count of seconds as a
    float, which for a whole number of seconds is the digits followed by
    [.0]; any other value its [str()].  The examples of the specification
    hold: 90 seconds, the byte [0xAB], and [True]. *)
Theorem quote_value_by_kind (lib_str : PyValue -> string) (float_repr : Z -> string)
    (value : PyValue) :
  match value with
  | VStr _ | VDatetime _ _ _ _ _ _ _ | VDate _ _ _ | VTime _ _ _ _ =>
      quote_value lib_str float_repr value
      = "'" ++ double_quotes (py_str lib_str value) ++ "'"
      /\ unescape (double_quotes (py_str lib_str value)) false
         = Some (py_str lib_str value)
  | VBool b => quote_value lib_str float_repr value = if b then "1" else "0"
  | VUUID n => quote_value lib_str float_repr value = "'" ++ uuid_str n ++ "'"
  | VBytes bs =>
      quote_value lib_str float_repr value = "BLOB(X'" ++ bytes_hex bs ++ "')"
  | VTimedelta d s us =>
      let n := to_microseconds d s us in
      quote_value lib_str float_repr value
      = if ((n mod 1000000 =? 0) && (Z.abs (n / 1000000) <? 10 ^ 16))%Z
        then of_Z (n / 1000000) ++ ".0"
        else float_repr n
  | VInt _ | VOther _ =>
      quote_value lib_str float_repr value = py_str lib_str value
  end
  /\ quote_value lib_str float_repr (VTimedelta 0 90 0) = "90.0"
  /\ quote_value lib_str float_repr (VBytes [xab]) = "BLOB(X'ab')"
  /\ quote_value lib_str float_repr (VBool true) = "1".
Proof.
  split; [|repeat split; reflexivity].
  destruct value; try reflexivity;
    (split; [unfold quote_value, escape_quotes; rewrite replace_quote; reflexivity
            | apply unescape_double_quotes]).
Qed.

End LiteralFacts.

(** ** The monad *)

Import Schema.
Open Scope list_scope.

Section MonadFacts.

Variable E : Engine.

Lemma bind_Ok_inv {A B} (m : M A) (k : A -> M B) t b t' :
  bind m k t = Ok b t' -> exists a t1, m t = Ok a t1 /\ k a t1 = Ok b t'.
Proof.
  unfold bind. destruct (m t) as [a t1|e t1]; [eauto | discriminate].
Qed.

Lemma bind_Raise_inv {A B} (m : M A) (k : A -> M B) t e t' :
  bind m k t = Raise e t' ->
  m t = Raise e t' \/ exists a t1, m t = Ok a t1 /\ k a t1 = Raise e t'.
Proof.
  unfold bind. destruct (m t) as [a t1|e1 t1]; intros H.
  - right. exists a, t1. auto.
  - left. inversion H. reflexivity.
Qed.

Lemma execute_Ok_inv s t u t' :
  execute E s t = Ok u t' -> refuses E t s = false /\ t' = t ++ [Done s].
Proof.
  unfold execute. destruct (refuses E t s); [discriminate|].
  intros H; inversion H; auto.
Qed.

Lemma execute_Raise_inv s t e t' :
  execute E s t = Raise e t' ->
  refuses E t s = true /\ e = Error s /\ t' = t ++ [Refused s].
Proof.
  unfold execute. destruct (refuses E t s); [|discriminate].
  intros H; inversion H; auto.
Qed.

Lemma execute_accepted s t :
  refuses E t s = false -> execute E s t = Ok tt (t ++ [Done s]).
Proof. unfold execute. intros ->. reflexivity. Qed.

Lemma execute_refused s t :
  refuses E t s = true -> execute E s t = Raise (Error s) (t ++ [Refused s]).
Proof. unfold execute. intros ->. reflexivity. Qed.

Lemma trace_of_execute s t :
  trace_of (execute E s t) = t ++ [attempt E t s].
Proof. unfold execute, attempt. destruct (refuses E t s); reflexivity. Qed.

Lemma since_app (t ext : Trace) : since t (t ++ ext) = ext.
Proof.
  unfold since. rewrite skipn_app, Nat.sub_diag, skipn_all. reflexivity.
Qed.

(** *** What a computation issues *)

Lemma emits_ret {A} P (a : A) : emits P (ret a).
Proof. intros t. exists []. rewrite app_nil_r. auto. Qed.

Lemma emits_raise {A} P e : emits P (@raise A e).
Proof. intros t. exists []. rewrite app_nil_r. auto. Qed.

Lemma emits_ask {A} P (q : Engine -> Trace -> A) : emits P (ask E q).
Proof. intros t. exists []. rewrite app_nil_r. auto. Qed.

Lemma emits_execute (P : Event -> Prop) s :
  P (Done s) -> P (Refused s) -> emits P (execute E s).
Proof.
  intros H1 H2 t. exists [attempt E t s]. rewrite trace_of_execute.
  split; [reflexivity|]. constructor; [|constructor].
  unfold attempt. destruct (refuses E t s); assumption.
Qed.

Lemma emits_bind {A B} P (m : M A) (k : A -> M B) :
  emits P m -> (forall a, emits P (k a)) -> emits P (bind m k).
Proof.
  intros Hm Hk t. destruct (Hm t) as [e1 [T1 F1]]. unfold bind.
  destruct (m t) as [a t1|e t1]; simpl in T1; subst t1.
  - destruct (Hk a (t ++ e1)) as [e2 [T2 F2]]. exists (e1 ++ e2).
    rewrite T2, app_assoc. split; [reflexivity | apply Forall_app; auto].
  - exists e1. auto.
Qed.

Lemma emits_try_except {A} P (m h : M A) :
  emits P m -> emits P h -> emits P (try_except m h).
Proof.
  intros Hm Hh t. destruct (Hm t) as [e1 [T1 F1]]. unfold try_except.
  destruct (m t) as [a t1|e t1]; simpl in T1; subst t1.
  - exists e1. auto.
  - destruct (Hh (t ++ e1)) as [e2 [T2 F2]]. exists (e1 ++ e2).
    rewrite T2, app_assoc. split; [reflexivity | apply Forall_app; auto].
Qed.

Lemma emits_try_except_Error {A} P (m : M A) (h : Exn -> M A) :
  emits P m -> (forall e, emits P (h e)) -> emits P (try_except_Error m h).
Proof.
  intros Hm Hh t. destruct (Hm t) as [e1 [T1 F1]]. unfold try_except_Error.
  destruct (m t) as [a t1|e t1]; simpl in T1; subst t1.
  - exists e1. auto.
  - destruct e as [msg| |s]; try (exists e1; auto; fail).
    destruct (Hh (Error s) (t ++ e1)) as [e2 [T2 F2]]. exists (e1 ++ e2).
    rewrite T2, app_assoc. split; [reflexivity | apply Forall_app; auto].
Qed.

Lemma emits_for_each {X} P (xs : list X) (body : X -> M unit) :
  (forall x, In x xs -> emits P (body x)) -> emits P (for_each xs body).
Proof.
  induction xs as [|x xs IH]; intros H; simpl.
  - apply emits_ret.
  - apply emits_bind; [apply H; left; reflexivity|].
    intros _. apply IH. intros y Hy. apply H. right. assumption.
Qed.

Lemma emits_for_fold {X S} P (xs : list X) (body : S -> X -> M S) s :
  (forall s x, In x xs -> emits P (body s x)) -> emits P (for_fold xs body s).
Proof.
  revert s. induction xs as [|x xs IH]; intros s H; simpl.
  - apply emits_ret.
  - apply emits_bind; [apply H; left; reflexivity|].
    intros s'. apply IH. intros s2 y Hy. apply H. right. assumption.
Qed.

Lemma emits_weaken {A} (P Q : Event -> Prop) (m : M A) :
  (forall ev, P ev -> Q ev) -> emits P m -> emits Q m.
Proof.
  intros PQ Hm t. destruct (Hm t) as [ext [T F]]. exists ext.
  split; [assumption|]. eapply Forall_impl; eauto.
Qed.

(** A successful run of a computation that only issues [P] *)
Lemma emits_Ok {A} P (m : M A) t a t' :
  emits P m -> m t = Ok a t' -> exists ext, t' = t ++ ext /\ Forall P ext.
Proof. intros H R. destruct (H t) as [ext [T F]]. rewrite R in T. eauto. Qed.

Lemma emits_Raise {A} P (m : M A) t e t' :
  emits P m -> m t = Raise e t' -> exists ext, t' = t ++ ext /\ Forall P ext.
Proof. intros H R. destruct (H t) as [ext [T F]]. rewrite R in T. eauto. Qed.

Lemma for_each_execute_all {X} (xs : list X) (f : X -> Stmt) t :
  (forall t' x, In x xs -> refuses E t' (f x) = false) ->
  for_each xs (fun x => execute E (f x)) t = Ok tt (t ++ map (fun x => Done (f x)) xs).
Proof.
  revert t. induction xs as [|x xs IH]; intros t H; simpl.
  - unfold ret. rewrite app_nil_r. reflexivity.
  - unfold bind. rewrite execute_accepted by (apply H; left; reflexivity).
    rewrite IH by (intros; apply H; right; assumption).
    rewrite <- app_assoc. reflexivity.
Qed.

End MonadFacts.

(** Equality of traces up to the bracketing of [++] *)
Ltac trace_eq :=
  repeat first [rewrite <- app_assoc | progress simpl]; reflexivity.

(** The tactic that walks through a computation to show what it issues *)
Ltac emits_step :=
  match goal with
  | |- emits _ (ret _) => apply emits_ret
  | |- emits _ (raise _) => apply emits_raise
  | |- emits _ (ask _ _) => apply emits_ask
  | |- emits _ (bind _ _) => apply emits_bind; [|intros]
  | |- emits _ (try_except _ _) => apply emits_try_except
  | |- emits _ (try_except_Error _ _) => apply emits_try_except_Error; [|intros]
  | |- emits _ (for_each _ _) => apply emits_for_each; intros
  | |- emits _ (for_fold _ _ _) => apply emits_for_fold; intros
  | |- emits _ (execute _ _) => apply emits_execute; simpl; auto
  | |- emits _ (if ?b then _ else _) => destruct b
  | |- emits _ (match ?x with _ => _ end) => destruct x
  | |- emits _ (let '(_, _) := ?x in _) => destruct x
  end.



(** ** Dictionaries *)

Section DictFacts.

Context {V : Type}.

Lemma has_key_In (d : dict V) k : has_key d k = true <-> In k (keys d).
Proof.
  unfold has_key. rewrite existsb_exists. split.
  - intros [x [I Q]]. apply String.eqb_eq in Q. subst. assumption.
  - intros I. exists k. split; [assumption | apply String.eqb_refl].
Qed.

Lemma keys_dict_set (d : dict V) k v x :
  In x (keys (dict_set d k v)) <-> x = k \/ In x (keys d).
Proof.
  induction d as [|[k' v'] d IH]; simpl.
  - intuition.
  - destruct (String.eqb_spec k' k) as [->|N]; simpl; intuition.
Qed.

Lemma has_key_dict_set (d : dict V) k v x :
  has_key (dict_set d k v) x = String.eqb x k || has_key d x.
Proof.
  apply eq_true_iff_eq. rewrite orb_true_iff, !has_key_In, keys_dict_set.
  rewrite String.eqb_eq. reflexivity.
Qed.

Lemma NoDup_dict_set (d : dict V) k v :
  NoDup (keys d) -> NoDup (keys (dict_set d k v)).
Proof.
  induction d as [|[k' v'] d IH]; simpl; intros ND.
  - constructor; [intros [] | constructor].
  - inversion ND as [|? ? NI ND']; subst.
    destruct (String.eqb_spec k' k) as [->|N]; simpl.
    + constructor; assumption.
    + constructor; [|auto]. rewrite keys_dict_set. intros [->|I]; auto.
Qed.

Lemma dict_set_fresh (d : dict V) k v :
  ~ In k (keys d) -> dict_set d k v = d ++ [(k, v)].
Proof.
  induction d as [|[k' v'] d IH]; simpl; intros NI; [reflexivity|].
  destruct (String.eqb_spec k' k) as [->|N]; [tauto|].
  rewrite IH; tauto.
Qed.

End DictFacts.

(** ** Deferring constraints *)

Section DeferFacts.

Variable E : Engine.
Variables (old_column table : string).
Variables (defer_pk defer_unique defer_index defer_check : bool).

Local Abbreviation defer_entry' := (defer_entry E old_column table defer_pk defer_unique
                            defer_index defer_check).
Local Abbreviation defer' := (_defer_constraints_check E old_column table defer_pk
                      defer_unique defer_index defer_check).

(** Every turn of the loop is one of the cases of [turn]. *)
Lemma defer_entry_turn d n cd t :
  turn table n (cd_columns cd) d t (defer_entry' d (n, cd) t).
Proof.
  unfold defer_entry.
  destruct (defer_pk && cd_primary_key cd
            && PyStr.contains old_column (cd_columns cd)).
  { unfold bind, execute, ret.
    destruct (refuses E t (sql_delete_pk table n)); constructor. }
  destruct (defer_unique && cd_unique cd
            && PyStr.contains old_column (cd_columns cd)).
  { unfold try_except, bind, execute, ret.
    destruct (refuses E t (sql_delete_unique table n)); constructor. }
  assert (exists di ti,
            index_part table n (cd_columns cd) d t di ti
            /\ (if defer_index && cd_index cd
                   && PyStr.contains old_column (cd_columns cd)
                then try_except
                       (execute E (sql_delete_index (Some table) n) ;;
                        ret (record_index d n (cd_columns cd)))
                       (ret d)
                else ret d) t = Ok di ti) as [di [ti [I R]]].
  { destruct (defer_index && cd_index cd
              && PyStr.contains old_column (cd_columns cd)).
    - unfold try_except, bind, execute, ret.
      destruct (refuses E t (sql_delete_index (Some table) n));
        eexists; eexists; (split; [|reflexivity]); constructor.
    - exists d, t. split; [constructor | reflexivity]. }
  unfold bind at 1. rewrite R.
  destruct (defer_check && cd_check cd
            && PyStr.contains old_column (cd_columns cd)).
  - unfold bind, execute, ret.
    destruct (refuses E ti (sql_delete_check table n));
      [apply turn_check_refused with (di := di) | apply turn_check_dropped];
      assumption.
  - apply turn_check_skipped. assumption.
Qed.

Lemma index_part_events n cols d t di ti :
  index_part table n cols d t di ti ->
  exists ext, ti = t ++ ext /\ Forall (drops n) ext.
Proof.
  intros []; [exists [] | eexists [_] | eexists [_]];
    (split; [try reflexivity; rewrite app_nil_r; reflexivity
            | repeat constructor]).
Qed.

(** A turn only issues drops of its own constraint. *)
Lemma turn_events n cols d t r :
  turn table n cols d t r ->
  exists ext, trace_of r = t ++ ext /\ Forall (drops n) ext.
Proof.
  intros [| | | |di ti I|di ti I|di ti I]; simpl;
    try (eexists [_]; split; [reflexivity | repeat constructor]; fail);
    destruct (index_part_events _ _ _ _ _ _ I) as [e [-> F]].
  - exists e. auto.
  - eexists. rewrite <- app_assoc. split; [reflexivity|].
    apply Forall_app. split; [assumption | repeat constructor].
  - eexists. rewrite <- app_assoc. split; [reflexivity|].
    apply Forall_app. split; [assumption | repeat constructor].
Qed.

Lemma defer_events constraints d t :
  exists ext, trace_of (defer' constraints d t) = t ++ ext
    /\ Forall (fun ev => exists n, In n (keys constraints) /\ drops n ev) ext.
Proof.
  revert d t. induction constraints as [|[n cd] cs IH]; intros d t.
  - exists []. simpl. rewrite app_nil_r. auto.
  - unfold _defer_constraints_check. cbn [for_fold]. unfold bind.
    destruct (turn_events _ _ _ _ _ (defer_entry_turn d n cd t)) as [e1 [T1 F1]].
    destruct (defer_entry' d (n, cd) t) as [d1 t1|e t1]; simpl in T1; subst t1.
    + destruct (IH d1 (t ++ e1)) as [e2 [T2 F2]].
      exists (e1 ++ e2). unfold _defer_constraints_check in T2.
      rewrite T2, app_assoc. split; [reflexivity|].
      apply Forall_app. split.
      * eapply Forall_impl; [|exact F1]. intros ev D. exists n. simpl. auto.
      * eapply Forall_impl; [|exact F2]. intros ev [m [I D]]. exists m. simpl. auto.
    + exists e1. split; [reflexivity|].
      eapply Forall_impl; [|exact F1]. intros ev D. exists n. simpl. auto.
Qed.



(** What a turn does to the kinds of a name *)
Lemma index_part_kinds n cols d t di ti x :
  index_part table n cols d t di ti ->
  kinds di x = kinds d x
  \/ (x = n /\ kinds di x
               = (has_key (d_pk d) x, has_key (d_unique d) x, true,
                  has_key (d_check d) x)).
Proof.
  intros []; auto. unfold kinds. simpl. rewrite has_key_dict_set.
  destruct (String.eqb_spec x n) as [->|N]; simpl; auto.
Qed.

Lemma turn_kinds_other n cols d t d' t' x :
  turn table n cols d t (Ok d' t') -> x <> n -> kinds d' x = kinds d x.
Proof.
  intros T N. apply String.eqb_neq in N.
  inversion T; subst; unfold kinds; simpl; rewrite ?has_key_dict_set, ?N; simpl;
    try reflexivity;
    match goal with
    | I : index_part _ _ _ _ _ _ _ |- _ =>
        inversion I; subst; simpl; rewrite ?has_key_dict_set, ?N; reflexivity
    end.
Qed.

Lemma turn_kinds_own n cols d t d' t' :
  turn table n cols d t (Ok d' t') ->
  kinds d n = (false, false, false, false) ->
  exclusive (kinds d' n) = true.
Proof.
  intros T K. unfold kinds in *.
  assert (has_key (d_pk d) n = false) as K1 by congruence.
  assert (has_key (d_unique d) n = false) as K2 by congruence.
  assert (has_key (d_index d) n = false) as K3 by congruence.
  assert (has_key (d_check d) n = false) as K4 by congruence.
  clear K. inversion T; subst; simpl; rewrite ?has_key_dict_set, ?String.eqb_refl,
    ?K1, ?K2, ?K3, ?K4; simpl; try reflexivity;
    match goal with
    | I : index_part _ _ _ _ _ _ _ |- _ =>
        inversion I; subst; simpl; rewrite ?has_key_dict_set, ?String.eqb_refl,
          ?K1, ?K2, ?K3, ?K4; reflexivity
    end.
Qed.

Lemma turn_nodup n cols d t d' t' :
  turn table n cols d t (Ok d' t') -> nodup_maps d -> nodup_maps d'.
Proof.
  unfold nodup_maps. intros T [N1 [N2 [N3 N4]]].
  inversion T; subst; simpl; auto using NoDup_dict_set;
    match goal with
    | I : index_part _ _ _ _ _ _ _ |- _ =>
        inversion I; subst; simpl; auto 6 using NoDup_dict_set
    end.
Qed.

(** The loop over a dictionary: names outside it keep their kinds, and the
    pattern of the kinds is kept. *)
Lemma defer_kinds constraints d t d' t' :
  NoDup (keys constraints) ->
  defer' constraints d t = Ok d' t' ->
  (forall x, ~ In x (keys constraints) -> kinds d' x = kinds d x)
  /\ ((forall x, In x (keys constraints) ->
                 kinds d x = (false, false, false, false)) ->
      (forall x, exclusive (kinds d x) = true) ->
      forall x, exclusive (kinds d' x) = true)
  /\ (nodup_maps d -> nodup_maps d').
Proof.
  revert d t. induction constraints as [|[n cd] cs IH]; intros d t ND R.
  - inversion R; subst. auto.
  - unfold _defer_constraints_check in R. cbn [for_fold] in R.
    apply bind_Ok_inv in R. destruct R as [d1 [t1 [R1 R2]]].
    pose proof (defer_entry_turn d n cd t) as T. rewrite R1 in T.
    simpl in ND. inversion ND as [|? ? NI ND']; subst.
    destruct (IH d1 t1 ND' R2) as [I1 [I2 I3]].
    split; [|split].
    + intros x NX. simpl in NX. rewrite I1 by tauto.
      eapply turn_kinds_other; eauto.
    + intros Z X x. apply I2.
      * intros y Y. rewrite (turn_kinds_other _ _ _ _ _ _ y T).
        -- apply Z. simpl. auto.
        -- intros ->. contradiction.
      * intros y. destruct (String.eqb_spec y n) as [->|N].
        -- eapply turn_kinds_own; eauto. apply Z. simpl. auto.
        -- rewrite (turn_kinds_other _ _ _ _ _ _ y T N). apply X.
    + intros N. apply I3. eapply turn_nodup; eauto.
Qed.


(** What is recorded stays recorded. *)
Lemma turn_mono n cols d t d' t' x :
  turn table n cols d t (Ok d' t') ->
  (has_key (d_pk d) x = true -> has_key (d_pk d') x = true)
  /\ (has_key (d_unique d) x = true -> has_key (d_unique d') x = true)
  /\ (has_key (d_index d) x = true -> has_key (d_index d') x = true)
  /\ (has_key (d_check d) x = true -> has_key (d_check d') x = true).
Proof.
  intros T.
  inversion T; subst; simpl; rewrite ?has_key_dict_set;
    try match goal with
    | I : index_part _ _ _ _ _ _ _ |- _ =>
        inversion I; subst; simpl; rewrite ?has_key_dict_set
    end;
    repeat split; intros ->; rewrite ?orb_true_r; reflexivity.
Qed.

Lemma defer_mono constraints d t d' t' x :
  defer' constraints d t = Ok d' t' ->
  (has_key (d_pk d) x = true -> has_key (d_pk d') x = true)
  /\ (has_key (d_unique d) x = true -> has_key (d_unique d') x = true)
  /\ (has_key (d_index d) x = true -> has_key (d_index d') x = true)
  /\ (has_key (d_check d) x = true -> has_key (d_check d') x = true).
Proof.
  revert d t. induction constraints as [|[n cd] cs IH]; intros d t R.
  - inversion R; subst. auto.
  - unfold _defer_constraints_check in R. cbn [for_fold] in R.
    apply bind_Ok_inv in R. destruct R as [d1 [t1 [R1 R2]]].
    pose proof (defer_entry_turn d n cd t) as T. rewrite R1 in T.
    destruct (turn_mono _ _ _ _ _ _ x T) as [A1 [A2 [A3 A4]]].
    destruct (IH d1 t1 R2) as [B1 [B2 [B3 B4]]]. auto 6.
Qed.


(** With [defer_pk], a primary key on the column is recorded under pk when
    the loop completes. *)
Lemma defer_pk_recorded constraints d t d' t' n cd :
  defer' constraints d t = Ok d' t' ->
  In (n, cd) constraints ->
  defer_pk && cd_primary_key cd && PyStr.contains old_column (cd_columns cd) = true ->
  has_key (d_pk d') n = true.
Proof.
  revert d t. induction constraints as [|[m cm] cs IH]; intros d t R I C.
  - destruct I.
  - unfold _defer_constraints_check in R. cbn [for_fold] in R.
    apply bind_Ok_inv in R. destruct R as [d1 [t1 [R1 R2]]].
    destruct I as [Q|I].
    + inversion Q; subst m cm. unfold defer_entry in R1. rewrite C in R1.
      apply bind_Ok_inv in R1. destruct R1 as [[] [t2 [_ R1]]].
      inversion R1; subst.
      apply (defer_mono _ _ _ _ _ n R2). simpl.
      rewrite has_key_dict_set, String.eqb_refl. reflexivity.
    + eapply IH; eauto.
Qed.

End DeferFacts.

(** ** Restoring constraints *)

Section RestoreFacts.

Variable E : Engine.

Lemma emits_reorg : emits is_reorg (_reorg_tables E).
Proof.
  unfold _reorg_tables. repeat emits_step.
Qed.

Lemma attempted_app (a b : Trace) : attempted (a ++ b) = attempted a ++ attempted b.
Proof. unfold attempted. rewrite map_app, filter_app. reflexivity. Qed.

Lemma attempted_reorg (ext : Trace) : Forall is_reorg ext -> attempted ext = [].
Proof.
  induction 1 as [|ev ext H F IH]; [reflexivity|].
  unfold attempted in *. simpl. rewrite IH.
  destruct ev as [[]|[]]; simpl in *; tauto.
Qed.

(** A loop whose turns reorganize and then execute one statement: the
    trace shows the statements of a prefix of the list, and of the whole
    list when the loop completes. *)
Lemma for_each_attempted {X} (xs : list X) (body : X -> M unit) (f : X -> Stmt) t :
  (forall x t, body x t = (_reorg_tables E ;; execute E (f x)) t
               \/ body x t = execute E (f x) t) ->
  (forall x, is_reorg_stmt (f x) = false) ->
  exists ext, trace_of (for_each xs body t) = t ++ ext
    /\ (exists rest, map f xs = attempted ext ++ rest)
    /\ (forall u t', for_each xs body t = Ok u t' -> attempted ext = map f xs).
Proof.
  intros B NR. revert t. induction xs as [|x xs IH]; intros t.
  - exists []. simpl. rewrite app_nil_r. repeat split; auto. exists []. reflexivity.
  - cbn [for_each map].
    assert (exists e1, trace_of (body x t) = t ++ e1
              /\ (attempted e1 = [f x] \/ attempted e1 = [])
              /\ (forall u t', body x t = Ok u t' -> attempted e1 = [f x]))
      as [e1 [T1 [A1 O1]]].
    { assert (forall t0, exists e, trace_of (execute E (f x) t0) = t0 ++ e
                /\ attempted e = [f x]) as EX.
      { intros t0. exists [attempt E t0 (f x)]. rewrite trace_of_execute.
        split; [reflexivity|]. unfold attempted, attempt.
        destruct (refuses E t0 (f x)); simpl; rewrite NR; reflexivity. }
      destruct (B x t) as [-> | ->].
      - unfold bind. destruct (emits_reorg t) as [e0 [T0 F0]].
        apply attempted_reorg in F0.
        destruct (_reorg_tables E t) as [[] t0|e t0]; simpl in T0; subst t0.
        + destruct (EX (t ++ e0)) as [e [T A]]. exists (e0 ++ e).
          rewrite T, app_assoc, attempted_app, F0, A. simpl. auto.
        + exists e0. simpl. rewrite F0. repeat split; auto. discriminate.
      - destruct (EX t) as [e [T A]]. exists e. auto. }
    unfold bind.
    destruct (body x t) as [[] t1|e t1]; simpl in T1; subst t1.
    + destruct (IH (t ++ e1)) as [e2 [T2 [[rest P2] O2]]].
      exists (e1 ++ e2). rewrite T2, app_assoc, attempted_app.
      rewrite (O1 tt _ eq_refl). split; [reflexivity|]. split.
      * exists rest. simpl. rewrite P2. reflexivity.
      * intros u t' R. simpl. rewrite (O2 _ _ R). reflexivity.
    + exists e1. simpl. split; [reflexivity|]. split; [|discriminate].
      destruct A1 as [-> | ->]; [exists (map f xs) | exists (f x :: map f xs)];
        reflexivity.
Qed.

Variables (old_column new_column table : string).

Local Abbreviation restore' := (_restore_constraints_check E old_column new_column table).

(** What the restoration issues: apart from reorganizations, the
    statements of [restore_stmts], in order, up to the first refusal. *)
Lemma restore_attempted d t :
  exists ext, trace_of (restore' d t) = t ++ ext
    /\ (exists rest, restore_stmts old_column new_column table d
                     = attempted ext ++ rest)
    /\ (forall u t', restore' d t = Ok u t' ->
          attempted ext = restore_stmts old_column new_column table d).
Proof.
  unfold _restore_constraints_check, restore_stmts.
  set (fp := fun '(n, cols) =>
               sql_create_pk table n (renamed_columns old_column new_column cols)).
  set (fu := fun '(n, cols) =>
               sql_create_unique table n (renamed_columns old_column new_column cols)).
  set (fi := fun '(n, cols) =>
               sql_create_index table n (renamed_columns old_column new_column cols)
                 EmptyString).
  set (bp := fun '(pk_name, columns) => _).
  set (bu := fun '(constr_name, columns) => _).
  set (bi := fun '(index_name, columns) => _).
  destruct (for_each_attempted (d_pk d) bp fp t) as [e1 [T1 [[r1 P1] O1]]].
  { intros [n c] t0. left. reflexivity. }
  { intros [n c]. reflexivity. }
  unfold bind.
  destruct (for_each (d_pk d) bp t) as [[] t1|e t1] eqn:R1; simpl in T1; subst t1.
  2:{ exists e1. simpl. split; [reflexivity|]. split; [|discriminate].
      exists (r1 ++ map fu (d_unique d) ++ map fi (d_index d)).
      rewrite P1, <- app_assoc. reflexivity. }
  pose proof (O1 tt _ eq_refl) as A1.
  destruct (for_each_attempted (d_unique d) bu fu (t ++ e1)) as [e2 [T2 [[r2 P2] O2]]].
  { intros [n c] t0. right. reflexivity. }
  { intros [n c]. reflexivity. }
  destruct (for_each (d_unique d) bu (t ++ e1)) as [[] t2|e t2] eqn:R2;
    simpl in T2; subst t2.
  2:{ exists (e1 ++ e2). simpl. rewrite app_assoc, attempted_app.
      split; [reflexivity|]. split; [|discriminate].
      exists (r2 ++ map fi (d_index d)).
      rewrite A1, P2, <- !app_assoc. reflexivity. }
  pose proof (O2 tt _ eq_refl) as A2.
  destruct (for_each_attempted (d_index d) bi fi ((t ++ e1) ++ e2))
    as [e3 [T3 [[r3 P3] O3]]].
  { intros [n c] t0. right. reflexivity. }
  { intros [n c]. reflexivity. }
  exists (e1 ++ e2 ++ e3). rewrite T3, !attempted_app, <- !app_assoc.
  rewrite A1, A2.
  split; [reflexivity|]. split.
  - exists r3. rewrite P3, <- !app_assoc. reflexivity.
  - intros u t' R. rewrite app_assoc in R. rewrite (O3 _ _ R). reflexivity.
Qed.

End RestoreFacts.

(** The definitions of the editor that the walk opens *)
Create HintDb editor.

#[local] Hint Unfold drop_steps remove_primary_key remove_unique remove_index
  remove_check remove_nullability names_on drop_fk_constraints
  rename_and_retype drop_incoming_fk _defer_constraints_check defer_entry
  _restore_constraints_check execute_sql_create_pk change_field_type
  change_default change_nullability add_check_constraint add_keys
  update_incoming_fk make_fk_constraint rebuild_incoming_fk
  or_drop_column through_auto_created alterFieldDataTypeByRemaking
  add_field : editor.

(** The walk through a whole plan *)
Ltac emits_all :=
  repeat first
    [ emits_step
    | match goal with
      | |- emits _ (_reorg_tables _) =>
          eapply emits_weaken; [|apply emits_reorg]; intros [[]|[]]; simpl; tauto
      end
    | progress autounfold with editor ].


(** ** Deferral and restoration together *)

Import PyStr PyStrFacts.

(** C1, at an input where the code departs from it.  The column [qty] of
    [T] changes its storage type and keeps its name; the catalog holds one
    check constraint on [qty].  [alter_field] drops the constraint while it
    defers, records it, changes the type, and ends: no statement creates
    the constraint again. *)
Theorem check_constraint_deferred_not_restored :
  alter_field Sample.checked Sample.django Sample.no_str Sample.no_repr
    Sample.T false
    (Sample.field IntegerField "qty" "INTEGER")
    (Sample.field IntegerField "qty" "BIGINT") []
  = Ok tt [Done (sql_delete_check "T" "qty_positive");
           Done (sql_alter_column "[T]" (sql_alter_column_type "[qty]" "BIGINT"))].
Proof. reflexivity. Qed.

Section RestoreCounts.

Variable E : Engine.

Lemma filter_creates_attempted name (ext : Trace) :
  filter (creates name) (map stmt_of ext) = filter (creates name) (attempted ext).
Proof.
  unfold attempted. induction ext as [|ev ext IH]; [reflexivity|].
  simpl. destruct (stmt_of ev); simpl; rewrite ?IH; try reflexivity.
  all: match goal with |- context [if ?b then _ else _] => destruct b end;
    rewrite ?IH; reflexivity.
Qed.

Lemma creates_restore_stmts name old_column new_column table (d : Deferred) :
  List.length (filter (creates name) (restore_stmts old_column new_column table d))
  = count_occ string_dec (restored_names d) name.
Proof.
  unfold restore_stmts, restored_names, keys.
  rewrite !filter_app, !length_app, !count_occ_app.
  assert (forall (f : string * list string -> Stmt) l,
            (forall n c, created_name (f (n, c)) = Some n) ->
            List.length (filter (creates name) (map f l))
            = count_occ string_dec (map fst l) name) as H.
  { intros f l Hf. induction l as [|[n c] l IH]; [reflexivity|].
    simpl. unfold creates at 1. rewrite Hf.
    destruct (string_dec n name) as [->|N].
    - rewrite String.eqb_refl. simpl. rewrite IH. reflexivity.
    - apply String.eqb_neq in N. rewrite N. apply IH. }
  rewrite !H by (intros; reflexivity). reflexivity.
Qed.

(** The restoration attempts to create a name at most as often as the
    deferred set names it under pk, unique and index. *)
Lemma restore_attempts_bound name old_column new_column table d t :
  attempts_of (creates name)
    (since t (trace_of (_restore_constraints_check E old_column new_column table d t)))
  <= count_occ string_dec (restored_names d) name.
Proof.
  destruct (restore_attempted E old_column new_column table d t)
    as [ext [T [[rest P] _]]].
  rewrite T, since_app. unfold attempts_of.
  rewrite filter_creates_attempted.
  rewrite <- (creates_restore_stmts name old_column new_column table d), P.
  rewrite filter_app, length_app. lia.
Qed.

Lemma count_occ_has_key {V} (d : dict V) name :
  NoDup (keys d) ->
  count_occ string_dec (keys d) name = if has_key d name then 1 else 0.
Proof.
  intros ND. destruct (has_key d name) eqn:H.
  - apply has_key_In in H.
    apply (proj1 (NoDup_count_occ' string_dec (keys d)) ND name H).
  - apply count_occ_not_In. rewrite <- has_key_In. congruence.
Qed.

Lemma restored_names_count d name :
  nodup_maps d ->
  count_occ string_dec (restored_names d) name
  = (if has_key (d_pk d) name then 1 else 0)
    + (if has_key (d_unique d) name then 1 else 0)
    + (if has_key (d_index d) name then 1 else 0).
Proof.
  intros [N1 [N2 [N3 _]]]. unfold restored_names.
  rewrite !count_occ_app, !count_occ_has_key by assumption. lia.
Qed.

End RestoreCounts.

(** C9 as stated fails: a constraint the catalog reports as an index and
    as a check constraint is recorded under both kinds. *)
Lemma recorded_under_two_kinds :
  ~ (forall (E : Engine) (old_column table : string) (catalog : dict ConstrDict)
            (t : Trace) (d : Deferred) (t' : Trace),
        NoDup (keys catalog) ->
        _defer_constraints_check E old_column table true true true true
          catalog no_deferred t = Ok d t' ->
        forall name, recorded_kinds d name <= 1).
Proof.
  intros H.
  specialize (H Sample.calm "c" "T" Sample.index_and_check []
                {| d_pk := []; d_unique := []; d_index := [("ix", ["c"])];
                   d_check := [("ix", ["c"])] |}
                [Done (sql_delete_index (Some "T") "ix");
                 Done (sql_delete_check "T" "ix")]).
  specialize (H ltac:(repeat constructor; simpl; tauto) eq_refl "ix").
  vm_compute in H. lia.
Qed.

(** C9, amended.  When the deferral of a dictionary of constraints
    completes, a name recorded under pk is recorded under no other kind, a
    name recorded under unique is recorded under no other kind, a name
    recorded under index is recorded under neither pk nor unique (it may
    be recorded under check as well); with [defer_pk], a primary key that
    touches the column is recorded under pk; and the restoration attempts
    to create each name at most once. *)
Theorem deferred_kinds_exclusive (E : Engine) (old_column table : string)
    (defer_pk defer_unique defer_index defer_check : bool)
    (catalog : dict ConstrDict) (t : Trace) (d : Deferred) (t' : Trace) :
  NoDup (keys catalog) ->
  _defer_constraints_check E old_column table defer_pk defer_unique defer_index
    defer_check catalog no_deferred t = Ok d t' ->
  forall name,
    (has_key (d_pk d) name = true -> recorded_kinds d name = 1)
    /\ (has_key (d_unique d) name = true -> recorded_kinds d name = 1)
    /\ (has_key (d_index d) name = true ->
        has_key (d_pk d) name = false /\ has_key (d_unique d) name = false)
    /\ (forall cd, In (name, cd) catalog ->
          defer_pk && cd_primary_key cd
          && PyStr.contains old_column (cd_columns cd) = true ->
          has_key (d_pk d) name = true)
    /\ count_occ string_dec (restored_names d) name <= 1
    /\ (forall new_column table' t2,
          attempts_of (creates name)
            (since t2 (trace_of (_restore_constraints_check E old_column
                                   new_column table' d t2))) <= 1).
Proof.
  intros ND R name.
  destruct (defer_kinds E old_column table defer_pk defer_unique defer_index
              defer_check catalog no_deferred t d t' ND R) as [_ [X N]].
  specialize (X ltac:(reflexivity) ltac:(reflexivity) name).
  specialize (N ltac:(repeat split; constructor)).
  assert (count_occ string_dec (restored_names d) name <= 1) as C.
  { rewrite restored_names_count by assumption.
    unfold exclusive, kinds in X.
    destruct (has_key (d_pk d) name), (has_key (d_unique d) name),
      (has_key (d_index d) name), (has_key (d_check d) name);
      simpl in *; try discriminate; lia. }
  unfold recorded_kinds. unfold exclusive, kinds in X.
  refine (conj _ (conj _ (conj _ (conj _ (conj _ _))))).
  - intros H. rewrite H in *.
    destruct (has_key (d_unique d) name), (has_key (d_index d) name),
      (has_key (d_check d) name); simpl in *; try discriminate; reflexivity.
  - intros H. rewrite H in *.
    destruct (has_key (d_pk d) name), (has_key (d_index d) name),
      (has_key (d_check d) name); simpl in *; try discriminate; reflexivity.
  - intros H. rewrite H in *.
    destruct (has_key (d_pk d) name), (has_key (d_unique d) name);
      simpl in *; try discriminate; auto.
  - intros cd I P. eapply defer_pk_recorded; eauto.
  - exact C.
  - intros new_column table' t2.
    eapply Nat.le_trans; [apply restore_attempts_bound | exact C].
Qed.

(** The amended C9 on a catalog with a primary key and a unique index on
    the column [c] *)
Lemma deferred_kinds_exclusive_witness :
  recorded_kinds
    {| d_pk := [("P", ["c"])]; d_unique := [("U", ["c"])];
       d_index := []; d_check := [] |} "P" = 1.
Proof.
  apply (proj1 (deferred_kinds_exclusive Sample.calm "c" "T" true true true true
                  [("P", Sample.on_column "c" true true true false);
                   ("U", Sample.on_column "c" false true true false)]
                  []
                  {| d_pk := [("P", ["c"])]; d_unique := [("U", ["c"])];
                     d_index := []; d_check := [] |}
                  [Done (sql_delete_pk "T" "P"); Done (sql_delete_unique "T" "U")]
                  ltac:(repeat constructor; simpl; intuition discriminate)
                  eq_refl "P")).
  reflexivity.
Defined.







(** C10.  The restoration issues, apart from reorganizations, the
    statements of [restore_stmts] in order (all of them when it completes);
    the statement that recreates a deferred constraint lists its columns
    after [str.replace] on each of them; and a column of the list that is
    not the old column but contains its name is rewritten: the first
    occurrence of the old name in it is replaced by the new name, so the
    column named in the recreated constraint is another one. *)
Theorem restore_rewrites_substrings (E : Engine)
    (old_column new_column table : string) (d : Deferred) (t : Trace)
    (name : string) (columns : list string) (column : string) :
  In (name, columns) (d_pk d) \/ In (name, columns) (d_unique d)
  \/ In (name, columns) (d_index d) ->
  In column columns ->
  old_column <> EmptyString ->
  old_column <> new_column ->
  column <> old_column ->
  occurs old_column column ->
  let text := join ", " (map (fun c => replace c old_column new_column) columns) in
  let stmts := restore_stmts old_column new_column table d in
  (exists ext,
      trace_of (_restore_constraints_check E old_column new_column table d t)
      = t ++ ext
      /\ (exists rest, stmts = attempted ext ++ rest)
      /\ (forall u t',
            _restore_constraints_check E old_column new_column table d t = Ok u t' ->
            attempted ext = stmts))
  /\ (In (sql_create_pk table name text) stmts
      \/ In (sql_create_unique table name text) stmts
      \/ In (sql_create_index table name text EmptyString) stmts)
  /\ In (replace column old_column new_column)
        (map (fun c => replace c old_column new_column) columns)
  /\ replace column old_column new_column <> column
  /\ exists pre post,
       column = (pre ++ old_column ++ post)%string
       /\ replace column old_column new_column
          = (pre ++ new_column ++ replace post old_column new_column)%string.
Proof.
  intros I C NE D P O text stmts.
  refine (conj (restore_attempted E old_column new_column table d t)
            (conj _ (conj _ (conj _ _)))).
  - unfold stmts, restore_stmts. rewrite !in_app_iff, !in_map_iff.
    destruct I as [I|[I|I]];
      [left; left | right; left; right; left | right; right; right; right];
      exists (name, columns); auto.
  - apply in_map_iff. exists column. auto.
  - apply replace_changes; assumption.
  - unfold replace. destruct old_column as [|a o] eqn:Q; [congruence|].
    rewrite <- Q in *. apply replace_from_first; assumption.
Qed.

(** C10 on a unique constraint over [id] and [user_id] when [id] is
    renamed to [uid]: [user_id] becomes [user_uid]. *)
Lemma restore_rewrites_substrings_witness :
  In (sql_create_unique "T" "T_uniq" "uid, user_uid")
     (restore_stmts "id" "uid" "T"
        {| d_pk := []; d_unique := [("T_uniq", ["id"; "user_id"])];
           d_index := []; d_check := [] |})
  /\ replace "user_id" "id" "uid" <> "user_id".
Proof.
  destruct (restore_rewrites_substrings Sample.calm "id" "uid" "T"
              {| d_pk := []; d_unique := [("T_uniq", ["id"; "user_id"])];
                 d_index := []; d_check := [] |}
              [] "T_uniq" ["id"; "user_id"] "user_id"
              ltac:(right; left; left; reflexivity)
              ltac:(right; left; reflexivity)
              ltac:(discriminate) ltac:(discriminate) ltac:(discriminate)
              ltac:(exists "user_", EmptyString; reflexivity))
    as [_ [S [_ [N _]]]].
  split; [|exact N].
  destruct S as [S|[S|S]]; [|exact S|]; simpl in S; intuition discriminate.
Defined.

(** ** Adding a column *)

Section AddFieldFacts.

Variable E : Engine.
Variable dj : Django.

(** When the reorganization raises, it raises the refusal of its last
    statement. *)
Lemma for_each_execute_raise {X} (xs : list X) (f : X -> Stmt) t e t' :
  for_each xs (fun x => execute E (f x)) t = Raise e t' ->
  exists pre x, In x xs /\ t' = t ++ pre ++ [Refused (f x)] /\ e = Error (f x)
    /\ Forall (fun ev => exists y, In y xs /\ ev = Done (f y)) pre.
Proof.
  revert t. induction xs as [|x xs IH]; intros t R; [discriminate|].
  simpl in R. apply bind_Raise_inv in R. destruct R as [R|[[] [t1 [R1 R2]]]].
  - apply execute_Raise_inv in R. destruct R as [_ [-> ->]].
    exists [], x. simpl. auto.
  - apply execute_Ok_inv in R1. destruct R1 as [_ ->].
    destruct (IH _ R2) as [pre [y [I [-> [-> F]]]]].
    exists (Done (f x) :: pre), y. rewrite <- app_assoc. simpl.
    repeat split; auto. constructor.
    + exists x. auto.
    + eapply Forall_impl; [|exact F]. intros ev [z [Iz ->]]. exists z. auto.
Qed.

Lemma reorg_raise t e t' :
  _reorg_tables E t = Raise e t' ->
  exists pre s, t' = t ++ pre ++ [Refused s] /\ e = Error s /\ Forall is_reorg pre.
Proof.
  unfold _reorg_tables, ask, bind. intros R.
  assert (for_each (reorg_pending E t)
            (fun x => execute E (sql_reorg_table (fst x) (snd x))) t
          = Raise e t') as R'.
  { rewrite <- R. clear R. generalize t at 2 4. induction (reorg_pending E t) as [|[a b] l IH];
      intros t0; [reflexivity|]. simpl. unfold bind.
    destruct (execute E (sql_reorg_table a b) t0); [apply IH | reflexivity]. }
  apply for_each_execute_raise in R'.
  destruct R' as [pre [x [_ [-> [-> F]]]]]. exists pre, (sql_reorg_table (fst x) (snd x)).
  repeat split; auto. eapply Forall_impl; [|exact F].
  intros ev [y [_ ->]]. exact I.
Qed.

Section Compensation.

Variable del : Stmt.
Variable Q : Event -> Prop.

Lemma compensated_emits {A} (m : M A) : emits Q m -> compensated del Q m.
Proof. intros H t. destruct (H t) as [ext [T F]]. exists ext. auto. Qed.

Lemma compensated_bind {A B} (m : M A) (k : A -> M B) :
  compensated del Q m -> (forall a, compensated del Q (k a)) ->
  compensated del Q (bind m k).
Proof.
  intros Hm Hk t. destruct (Hm t) as [e1 [T1 S1]]. unfold bind.
  destruct (m t) as [a t1|e t1] eqn:R; simpl in T1; subst t1.
  - destruct S1 as [F1|[pre [s [_ [[_ X]|[_ X]]]]]]; try discriminate.
    destruct (Hk a (t ++ e1)) as [e2 [T2 S2]]. exists (e1 ++ e2).
    rewrite T2, app_assoc. split; [reflexivity|].
    destruct S2 as [F2|[pre [s [F2 S2]]]].
    + left. apply Forall_app. auto.
    + right. exists (e1 ++ pre), s. split; [apply Forall_app; auto|].
      rewrite <- !app_assoc in *.
      destruct S2 as [[-> X]|[-> X]]; [left | right];
        (split; [reflexivity | exact X]).
  - exists e1. split; [reflexivity|].
    destruct S1 as [F1|[pre [s [F1 S1]]]]; [left; assumption|].
    right. exists pre, s. split; [assumption|].
    destruct S1 as [[-> X]|[-> X]]; [left | right];
      (split; [reflexivity|]); inversion X; reflexivity.
Qed.

(** The guarded block: the statement, then a reorganization, and the drop
    of the column when either is refused. *)
Lemma block_refused (s : Stmt) t :
  refuses E t s = true ->
  or_drop_column E del (execute E s ;; _reorg_tables E) t
  = if refuses E (t ++ [Refused s]) del
    then Raise (Error del) (t ++ [Refused s; Refused del])
    else Raise (Error s) (t ++ [Refused s; Done del]).
Proof.
  intros R. unfold or_drop_column, try_except_Error, bind, execute, raise.
  rewrite R. destruct (refuses E (t ++ [Refused s]) del);
    rewrite <- app_assoc; reflexivity.
Qed.

Lemma block_accepted (s : Stmt) t :
  refuses E t s = false ->
  or_drop_column E del (execute E s ;; _reorg_tables E) t
  = match _reorg_tables E (t ++ [Done s]) with
    | Ok _ t1 => Ok tt t1
    | Raise (Error x) t1 =>
        if refuses E t1 del then Raise (Error del) (t1 ++ [Refused del])
        else Raise (Error x) (t1 ++ [Done del])
    | Raise e t1 => Raise e t1
    end.
Proof.
  intros R. unfold or_drop_column, try_except_Error, bind at 1.
  unfold execute at 1. rewrite R.
  destruct (_reorg_tables E (t ++ [Done s])) as [[] t1|[| |x] t1]; try reflexivity.
  unfold bind, execute, raise. destruct (refuses E t1 del); reflexivity.
Qed.

Lemma compensated_block (s : Stmt) :
  Q (Done s) -> (forall ev, is_reorg ev -> Q ev) ->
  compensated del Q (or_drop_column E del (execute E s ;; _reorg_tables E)).
Proof.
  intros Qs Qr t. destruct (refuses E t s) eqn:Rs.
  - (* the statement is refused *)
    rewrite block_refused by assumption.
    destruct (refuses E (t ++ [Refused s]) del).
    + exists [Refused s; Refused del]. simpl.
      split; [reflexivity|]. right. exists [], s. split; [constructor|].
      right. split; reflexivity.
    + exists [Refused s; Done del]. simpl.
      split; [reflexivity|]. right. exists [], s. split; [constructor|].
      left. split; reflexivity.
  - rewrite block_accepted by assumption.
    destruct (emits_reorg E (t ++ [Done s])) as [er [Tr Fr]].
    destruct (_reorg_tables E (t ++ [Done s])) as [[] t1|e t1] eqn:Rr;
      simpl in Tr; subst t1.
    + exists (Done s :: er).
      split; [trace_eq|]. left. constructor; [assumption|].
      eapply Forall_impl; [|exact Fr]. auto.
    + destruct (reorg_raise _ _ _ Rr) as [pre [x [Tx [-> Fx]]]].
      apply app_inv_head in Tx. subst er.
      assert (Forall Q (Done s :: pre)) as FQ.
      { constructor; [assumption|]. eapply Forall_impl; [|exact Fx]. auto. }
      destruct (refuses E ((t ++ [Done s]) ++ pre ++ [Refused x]) del).
      * exists ((Done s :: pre) ++ [Refused x; Refused del]).
        assert (((t ++ [Done s]) ++ pre ++ [Refused x]) ++ [Refused del]
                = t ++ (Done s :: pre) ++ [Refused x; Refused del]) as ->
          by trace_eq.
        split; [reflexivity|]. right. exists (Done s :: pre), x.
        split; [assumption|]. right. split; reflexivity.
      * exists ((Done s :: pre) ++ [Refused x; Done del]).
        assert (((t ++ [Done s]) ++ pre ++ [Refused x]) ++ [Done del]
                = t ++ (Done s :: pre) ++ [Refused x; Done del]) as ->
          by trace_eq.
        split; [reflexivity|]. right. exists (Done s :: pre), x.
        split; [assumption|]. left. split; reflexivity.
Qed.

End Compensation.


Variable model : Model.
Variable field : Field.

Let created : Field :=
  set__unique (set_primary_key (set_null field true) false) false.
Let tbl : string := quote_name dj (db_table model).
Let col : string := quote_name dj (column field).
Let del_column : Stmt := sql_delete_column tbl col.

(** What [add_field] issues outside the refusal that makes it drop the
    column: the creation of the column, and events that leave the columns
    of the table alone and are not the refusal of a follow-up statement. *)
Let quiet (ev : Event) : Prop :=
  (neutral dj tbl ev \/ ev = Done (super_add_field model created))
  /\ forall s, follow_up dj model field s -> ev <> Refused s.

Ltac quiet_event :=
  split;
  [ first [ left; intros ?; reflexivity | right; reflexivity ]
  | let s := fresh in let H := fresh in let X := fresh in
    intros s H X; inversion X; subst; destruct H as [H|[H|H]]; discriminate ].

Lemma quiet_reorg ev : is_reorg ev -> quiet ev.
Proof. destruct ev as [[]|[]]; simpl; try tauto; intros _; quiet_event. Qed.

Ltac comp_step :=
  match goal with
  | |- compensated _ _ (bind _ _) => apply compensated_bind; [|intros]
  | |- compensated _ _ (or_drop_column _ _ _) =>
      apply compensated_block; [quiet_event | apply quiet_reorg]
  | |- compensated _ _ (if ?b then _ else _) => destruct b
  | |- compensated _ _ (_reorg_tables _) =>
      apply compensated_emits, emits_weaken with (P := is_reorg);
      [apply quiet_reorg | apply emits_reorg]
  | |- compensated _ _ (through_auto_created _) =>
      apply compensated_emits; unfold through_auto_created; repeat emits_step
  | |- compensated _ _ _ =>
      apply compensated_emits; repeat emits_step; quiet_event
  end.

Lemma add_field_compensated :
  compensated del_column quiet (add_field E dj model field).
Proof.
  unfold add_field. repeat comp_step.
Qed.

End AddFieldFacts.

Section AddFieldColumns.

Variable dj : Django.
Variables (tbl col : string).
Variable model : Model.
Variable created : Field.
Hypothesis Htbl : quote_name dj (db_table model) = tbl.
Hypothesis Hcol : quote_name dj (column created) = col.

Lemma repeat_snoc {A} (x : A) k : repeat x k ++ [x] = repeat x (S k).
Proof. induction k; simpl in *; congruence. Qed.

Lemma columns_quiet pre :
  Forall (fun ev => neutral dj tbl ev
                    \/ ev = Done (super_add_field model created)) pre ->
  forall cols k, exists k',
    fold_left (columns_after dj tbl) pre (cols ++ repeat col k)
    = cols ++ repeat col k'.
Proof.
  induction 1 as [|ev pre Q F IH]; intros cols k; simpl.
  - exists k. reflexivity.
  - destruct Q as [N | ->].
    + rewrite N. apply IH.
    + simpl. rewrite Htbl, String.eqb_refl, Hcol, <- app_assoc, repeat_snoc.
      apply IH.
Qed.

Lemma remove_added cols k :
  ~ In col cols -> remove string_dec col (cols ++ repeat col k) = cols.
Proof.
  intros NI. rewrite remove_app, notin_remove by assumption.
  assert (remove string_dec col (repeat col k) = []) as ->.
  { induction k; simpl; [reflexivity|].
    destruct (string_dec col col); [assumption | congruence]. }
  apply app_nil_r.
Qed.

End AddFieldColumns.

(** The first thing [add_field] does is to have the base class create the
    column, nullable and neither primary key nor unique. *)
Lemma add_field_first_event (E : Engine) (dj : Django) (model : Model)
    (field : Field) (t : Trace) :
  exists rest,
    trace_of (add_field E dj model field t)
    = t ++ attempt E t
             (super_add_field model
                (set__unique (set_primary_key (set_null field true) false) false))
           :: rest.
Proof.
  unfold add_field.
  set (created := set__unique (set_primary_key (set_null field true) false) false).
  unfold bind at 1. unfold execute at 1, attempt.
  destruct (refuses E t (super_add_field model created));
    [exists []; reflexivity|].
  match goal with
  | |- exists rest, trace_of (?k ?t1) = _ =>
      assert (emits (fun _ => True) k) as X
  end.
  { emits_all. }
  destruct (X (t ++ [Done (super_add_field model created)])) as [ext [-> _]].
  exists ext. rewrite <- app_assoc. reflexivity.
Qed.

(** C5, at an input where the code departs from it.  The table [T] has the
    primary key [OLD_PK], which the engine refuses to drop.  Adding the
    primary key [id] has the column created, sets it NOT NULL, and then
    fails in the primary-key step, on the drop of the old key: the loop that
    drops the keys the table has stands outside the [try] blocks, so the
    refusal is raised with the new column left in the table. *)
Theorem failed_key_drop_leaves_column :
  add_field Sample.keeps_pk Sample.django Sample.T Sample.id_pk []
  = Raise (Error (sql_delete_pk "[T]" "OLD_PK"))
      [Done (super_add_field Sample.T
               (set__unique (set_primary_key (set_null Sample.id_pk true) false)
                  false));
       Done (sql_alter_column "[T]" (sql_alter_column_not_null "[id]"));
       Refused (sql_delete_pk "[T]" "OLD_PK")]
  /\ table_columns Sample.django "[T]" []
       (trace_of (add_field Sample.keeps_pk Sample.django Sample.T
                    Sample.id_pk []))
     = ["[id]"].
Proof. split; reflexivity. Qed.

(** X17.  [add_field] first has the base class create the column with
    [null] set and [primary_key] and uniqueness cleared.  When the
    NOT NULL statement, the statement that creates the primary key or the
    statement that creates the unique constraint is refused, the next thing
    [add_field] does is to execute the drop of the new column, and it ends
    there: if the drop ran, the refusal is raised again and the table has the
    columns it had before the call; if the drop is refused too, that refusal
    is raised. *)
Theorem add_field_compensation (E : Engine) (dj : Django) (model : Model)
    (field : Field) (t : Trace) :
  let created :=
    set__unique (set_primary_key (set_null field true) false) false in
  let tbl := quote_name dj (db_table model) in
  let col := quote_name dj (column field) in
  let del_column := sql_delete_column tbl col in
  let r := add_field E dj model field t in
  (null created = true /\ primary_key created = false /\ unique created = false)
  /\ (exists rest,
        trace_of r = t ++ attempt E t (super_add_field model created) :: rest)
  /\ forall s,
       follow_up dj model field s ->
       In (Refused s) (since t (trace_of r)) ->
       exists before,
         (trace_of r = before ++ [Refused s; Done del_column]
          /\ r = Raise (Error s) (trace_of r)
          /\ forall cols, ~ In col (table_columns dj tbl cols t) ->
               table_columns dj tbl cols (trace_of r)
               = table_columns dj tbl cols t)
         \/ (trace_of r = before ++ [Refused s; Refused del_column]
             /\ r = Raise (Error del_column) (trace_of r)).
Proof.
  intros created tbl col del_column r.
  split; [repeat split|]. split.
  - (* the first event *)
    apply add_field_first_event.
  - (* the refusal of a follow-up statement *)
    intros s FU I.
    destruct (add_field_compensated E dj model field t) as [ext [T S]].
    fold r in T, S. fold created tbl col del_column in S.
    change (In (Refused s) (since t (trace_of r))) in I.
    rewrite T, since_app in I.
    destruct S as [F|[pre [x [F S]]]].
    { rewrite Forall_forall in F. destruct (F _ I) as [_ N].
      exfalso. exact (N s FU eq_refl). }
    assert (x = s) as ->.
    { destruct S as [[-> _]|[-> _]]; apply in_app_or in I;
        (destruct I as [I|[I|[I|[]]]];
         [ rewrite Forall_forall in F; destruct (F _ I) as [_ N];
           exfalso; exact (N s FU eq_refl)
         | congruence
         | try discriminate ]).
      inversion I; subst. destruct FU as [H|[H|H]]; discriminate. }
    exists (t ++ pre). rewrite T.
    destruct S as [[-> R]|[-> R]];
      [left; split; [trace_eq|]; split; [exact R|]
      | right; split; [trace_eq | exact R]].
    intros cols NI. unfold table_columns in *.
    rewrite !fold_left_app. simpl.
    destruct (columns_quiet dj tbl col model created eq_refl eq_refl pre
                ltac:(eapply Forall_impl; [|exact F]; intros ? [? _]; assumption)
                (fold_left (columns_after dj tbl) t cols) 0) as [k K].
    simpl in K. rewrite app_nil_r in K. rewrite K.
    rewrite String.eqb_refl. apply remove_added. assumption.
Qed.

(** X17 on an engine that refuses NOT NULL: the column [id] is
    created, the refusal makes [add_field] drop it, and the table is left
    without columns. *)
Lemma add_field_compensation_witness :
  add_field Sample.keeps_nullable Sample.django Sample.T Sample.id_pk []
  = Raise (Error (sql_alter_column "[T]" (sql_alter_column_not_null "[id]")))
      [Done (super_add_field Sample.T
               (set__unique (set_primary_key (set_null Sample.id_pk true) false)
                  false));
       Refused (sql_alter_column "[T]" (sql_alter_column_not_null "[id]"));
       Done (sql_delete_column "[T]" "[id]")]
  /\ table_columns Sample.django "[T]" []
       (trace_of (add_field Sample.keeps_nullable Sample.django Sample.T
                    Sample.id_pk [])) = [].
Proof.
  destruct (add_field_compensation Sample.keeps_nullable Sample.django Sample.T
              Sample.id_pk []) as [_ [_ H]].
  destruct (H (sql_alter_column "[T]" (sql_alter_column_not_null "[id]"))
              ltac:(left; reflexivity)
              ltac:(right; left; reflexivity))
    as [before [[_ [R C]]|[B _]]].
  - split; [exact R | apply (C []); simpl; tauto].
  - exfalso. vm_compute in B.
    destruct before as [|? [|? [|? [|? ?]]]]; simpl in B; discriminate.
Defined.

(** ** Altering a field: the drops *)

Section DropSteps.

Variable E : Engine.
Variable dj : Django.
Variable model : Model.
Variable strict : bool.
Variable old_field : Field.
Variables (alter_field_primary_key alter_field_unique alter_field_index
           alter_field_check_constraint alter_field_nullable : bool).

Let tbl : string := quote_name dj (db_table model).
Let do_pk : bool := alter_field_primary_key && primary_key old_field.
Let do_unique : bool :=
  (alter_field_unique && unique old_field)
  || (unique old_field && alter_field_primary_key && negb (primary_key old_field)).
Let do_index : bool := alter_field_index && db_index old_field.
Let do_check : bool := alter_field_check_constraint && truthy (check_of old_field).
Let do_null : bool := alter_field_nullable && null old_field.

Lemma emits_remove_primary_key :
  emits (fun ev => do_pk = true /\ stmt_of ev = sql_drop_pk tbl)
    (remove_primary_key E dj model strict old_field alter_field_primary_key).
Proof.
  unfold remove_primary_key, names_on. fold do_pk.
  destruct do_pk; repeat emits_step.
Qed.

Lemma emits_remove_unique :
  emits (fun ev => do_unique = true
                   /\ exists n, stmt_of ev = sql_delete_unique tbl n)
    (remove_unique E dj model strict old_field alter_field_unique
       alter_field_primary_key).
Proof.
  unfold remove_unique, names_on. fold do_unique.
  destruct do_unique; repeat emits_step; split; eauto.
Qed.

Lemma emits_remove_index :
  emits (fun ev => do_index = true
                   /\ exists n, stmt_of ev = sql_delete_index None n)
    (remove_index E model strict old_field alter_field_index).
Proof.
  unfold remove_index, names_on. fold do_index.
  destruct do_index; repeat emits_step; split; eauto.
Qed.

Lemma emits_remove_check :
  emits (fun ev => do_check = true
                   /\ exists n, stmt_of ev = sql_delete_check tbl n)
    (remove_check E dj model strict old_field alter_field_check_constraint).
Proof.
  unfold remove_check, names_on. fold do_check.
  destruct do_check; repeat emits_step; split; eauto.
Qed.

Lemma emits_remove_nullability :
  emits (fun ev => do_null = true
                   /\ stmt_of ev
                      = sql_alter_column tbl
                          (sql_alter_column_not_null
                             (quote_name dj (column old_field))))
    (remove_nullability E dj model old_field alter_field_nullable).
Proof.
  unfold remove_nullability. fold do_null.
  destruct do_null; repeat emits_step.
Qed.

(** Two computations in sequence: what the first issues, then what the
    second issues (nothing when the first raises). *)
Lemma seq_traces {A B} (P : Event -> Prop) (Q : Trace -> Prop)
    (m : M A) (k : M B) :
  emits P m -> Q [] ->
  (forall t, exists ext, trace_of (k t) = t ++ ext /\ Q ext) ->
  forall t, exists ext, trace_of ((m ;; k) t) = t ++ ext
    /\ exists e1 e2, ext = e1 ++ e2 /\ Forall P e1 /\ Q e2.
Proof.
  intros Hm Q0 Hk t. destruct (Hm t) as [e1 [T1 F1]]. unfold bind.
  destruct (m t) as [a t1|e t1]; simpl in T1; subst t1.
  - destruct (Hk (t ++ e1)) as [e2 [T2 Q2]]. exists (e1 ++ e2).
    rewrite T2, app_assoc. split; [reflexivity|]. exists e1, e2. auto.
  - exists e1. split; [reflexivity|]. exists e1, []. rewrite app_nil_r. auto.
Qed.

Lemma drop_steps_traces t :
  exists e1 e2 e3 e4 e5,
    trace_of (drop_steps E dj model strict old_field alter_field_primary_key
                alter_field_unique alter_field_index
                alter_field_check_constraint alter_field_nullable t)
    = t ++ e1 ++ e2 ++ e3 ++ e4 ++ e5
    /\ Forall (fun ev => do_pk = true /\ stmt_of ev = sql_drop_pk tbl) e1
    /\ Forall (fun ev => do_unique = true
                         /\ exists n, stmt_of ev = sql_delete_unique tbl n) e2
    /\ Forall (fun ev => do_index = true
                         /\ exists n, stmt_of ev = sql_delete_index None n) e3
    /\ Forall (fun ev => do_check = true
                         /\ exists n, stmt_of ev = sql_delete_check tbl n) e4
    /\ Forall (fun ev => do_null = true
                         /\ stmt_of ev
                            = sql_alter_column tbl
                                (sql_alter_column_not_null
                                   (quote_name dj (column old_field)))) e5.
Proof.
  unfold drop_steps.
  pose proof emits_remove_nullability as H5.
  pose proof (seq_traces _ _ _ _ emits_remove_check
                (Forall_nil _) H5) as H4.
  pose proof (seq_traces _ _ _ _ emits_remove_index
                (ex_intro _ [] (ex_intro _ []
                   (conj eq_refl (conj (Forall_nil _) (Forall_nil _))))) H4) as H3.
  pose proof (seq_traces _ _ _ _ emits_remove_unique
                (ex_intro _ [] (ex_intro _ []
                   (conj eq_refl (conj (Forall_nil _)
                      (ex_intro _ [] (ex_intro _ []
                         (conj eq_refl (conj (Forall_nil _) (Forall_nil _))))))))) H3)
    as H2.
  pose proof (seq_traces _ _ _ _ emits_remove_primary_key
                (ex_intro _ [] (ex_intro _ []
                   (conj eq_refl (conj (Forall_nil _)
                      (ex_intro _ [] (ex_intro _ []
                         (conj eq_refl (conj (Forall_nil _)
                            (ex_intro _ [] (ex_intro _ []
                               (conj eq_refl
                                  (conj (Forall_nil _) (Forall_nil _)))))))))))))
                H2) as H1.
  destruct (H1 t) as (ext & T & e1 & r1 & X1 & F1 & e2 & r2 & X2 & F2
                      & e3 & r3 & X3 & F3 & e4 & e5 & X4 & F4 & F5).
  subst. exists e1, e2, e3, e4, e5. rewrite T. auto 10.
Qed.

End DropSteps.

Lemma trace_of_bind_prefix {A B} (m : M A) (k : A -> M B) t :
  (forall a, emits (fun _ => True) (k a)) ->
  exists rest, trace_of (bind m k t) = trace_of (m t) ++ rest.
Proof.
  intros H. unfold bind. destruct (m t) as [a t1|e t1]; simpl.
  - destruct (H a t1) as [ext [-> _]]. exists ext. reflexivity.
  - exists []. rewrite app_nil_r. reflexivity.
Qed.

(** The plan starts with the five drops, under the flags it computes from
    the two fields. *)
Lemma alter_field_starts_with_drops E dj lib_str float_repr model strict
    old_field new_field rebuild alter_incoming t :
  exists rest,
    trace_of (alter_field_from_flags E dj lib_str float_repr model strict
                old_field new_field rebuild alter_incoming t)
    = trace_of (drop_steps E dj model strict old_field
                  (negb (Bool.eqb (primary_key old_field) (primary_key new_field)))
                  (negb (Bool.eqb (unique old_field) (unique new_field)))
                  (negb (Bool.eqb (db_index old_field) (db_index new_field)))
                  (opt_string_neq (check_of old_field) (check_of new_field))
                  (negb (Bool.eqb (null old_field) (null new_field))) t)
      ++ rest.
Proof.
  unfold alter_field_from_flags. apply trace_of_bind_prefix.
  intros _. emits_all.
Qed.

(** C3 as stated fails: a unique column that becomes the primary key keeps
    its uniqueness, so the uniqueness flag is not set, and its unique
    constraint is dropped all the same. *)
Lemma unique_dropped_without_unique_change :
  ~ (forall (E : Engine) (dj : Django) (model : Model) (strict : bool)
            (old_field new_field : Field) (t : Trace) (name : string),
        let alter_field_index :=
          negb (Bool.eqb (db_index old_field) (db_index new_field)) in
        let alter_field_unique :=
          negb (Bool.eqb (unique old_field) (unique new_field)) in
        let alter_field_primary_key :=
          negb (Bool.eqb (primary_key old_field) (primary_key new_field)) in
        let alter_field_check_constraint :=
          opt_string_neq (check_of old_field) (check_of new_field) in
        let alter_field_nullable :=
          negb (Bool.eqb (null old_field) (null new_field)) in
        In (Done (sql_delete_unique (quote_name dj (db_table model)) name))
           (since t (trace_of
              (drop_steps E dj model strict old_field alter_field_primary_key
                 alter_field_unique alter_field_index
                 alter_field_check_constraint alter_field_nullable t))) ->
        alter_field_unique = true /\ unique old_field = true).
Proof.
  intros H.
  specialize (H Sample.with_unique Sample.django Sample.T false
                Sample.unique_c Sample.pk_c [] "T_c_uniq").
  destruct (H ltac:(left; reflexivity)) as [X _]. discriminate.
Qed.

(** ** Altering a field: what the plan issues *)

Lemma alter_field_from_flags_no_remake E dj lib_str float_repr model strict
    old_field new_field rebuild alter_incoming :
  emits (fun ev => ~ remakes (stmt_of ev))
    (alter_field_from_flags E dj lib_str float_repr model strict old_field
       new_field rebuild alter_incoming).
Proof.
  unfold alter_field_from_flags. emits_all.
Qed.

(** ** Altering a field: the remake *)

Section Returns.

Lemma returns_ret {A} (R : A -> Prop) a : R a -> returns R (ret a).
Proof. intros H t b t' Q. inversion Q; subst. assumption. Qed.

Lemma returns_bind {A B} (R : B -> Prop) (m : M A) (k : A -> M B) :
  (forall a, returns R (k a)) -> returns R (bind m k).
Proof.
  intros H t b t' Q. apply bind_Ok_inv in Q.
  destruct Q as [a [t1 [_ Q]]]. eapply H; eauto.
Qed.

Lemma returns_bind_with {A B} (R1 : A -> Prop) (R : B -> Prop)
    (m : M A) (k : A -> M B) :
  returns R1 m -> (forall a, R1 a -> returns R (k a)) -> returns R (bind m k).
Proof.
  intros Hm H t b t' Q. apply bind_Ok_inv in Q.
  destruct Q as [a [t1 [Q1 Q]]]. eapply H; eauto.
Qed.

End Returns.

(** [add_field] gives the field back under the column it had. *)
Lemma add_field_column E dj model field :
  returns (fun f => column f = column field) (add_field E dj model field).
Proof.
  unfold add_field.
  repeat match goal with
         | |- returns _ (ret _) => apply returns_ret; try assumption; try reflexivity
         | |- returns _ (bind (A := Field) _ _) =>
             apply returns_bind_with with (R1 := fun f => column f = column field);
             [|intros ? ?]
         | |- returns _ (bind _ _) => apply returns_bind; intros
         | |- returns _ (if ?b then _ else _) => destruct b
         end.
Qed.

Lemma add_field_no_update E dj model field :
  emits (fun ev => match stmt_of ev with
                   | sql_update_set _ _ _ | super_remove_field _ _ => False
                   | _ => True
                   end)
    (add_field E dj model field).
Proof. emits_all. Qed.

Lemma first_event_bind {A B} (m : M A) (k : A -> M B) t ev :
  (exists rest, trace_of (m t) = t ++ ev :: rest) ->
  (forall a, emits (fun _ => True) (k a)) ->
  exists rest, trace_of (bind m k t) = t ++ ev :: rest.
Proof.
  intros [rest T] H. unfold bind.
  destruct (m t) as [a t1|e t1]; simpl in T; subst t1.
  - destruct (H a (t ++ ev :: rest)) as [ext [-> _]].
    exists (rest ++ ext). trace_eq.
  - exists rest. reflexivity.
Qed.

(** C2 as stated fails: an identity column that becomes a plain integer
    column goes through the remake, which creates the temporary column. *)
Lemma auto_to_integer_is_remade :
  ~ (forall (E : Engine) (dj : Django) (lib_str : Literal.PyValue -> string)
            (float_repr : Z -> string) (model : Model) (strict : bool)
            (old_field new_field : Field) (t : Trace),
        isinstance dj old_field AutoField = true ->
        isinstance dj new_field IntegerField = true ->
        opt_string_neq (db_type old_field) (db_type new_field) = true ->
        Forall (fun ev => ~ remakes (stmt_of ev))
          (since t (trace_of (alter_field E dj lib_str float_repr model strict
                                old_field new_field t)))).
Proof.
  intros H.
  specialize (H Sample.calm Sample.django Sample.no_str Sample.no_repr Sample.T
                false Sample.auto_id Sample.integer_id [] eq_refl eq_refl eq_refl).
  vm_compute in H. inversion H as [|ev l N _]; subst. apply N. exact I.
Qed.

(** C2, amended.  For two fields with storage types, [alter_field] takes the
    remake exactly when the types differ and the old field is an AutoField
    or a TextField or the new field is a TextField; so it does for an
    identity column that becomes a plain integer column, and it does not for
    an integer column that becomes an identity column.  Without the remake
    it creates, fills and removes no column.  With it, the first thing it
    does is to create the column [psudo_] + new column (truncated), nullable
    and without keys; when the call completes, [add_field] has added that
    column, one UPDATE has copied the old column into it, the old column has
    been removed, and the rest of the plan has run with the temporary column
    as the old field, without creating, filling or removing any column. *)
Theorem remake_path (E : Engine) (dj : Django)
    (lib_str : Literal.PyValue -> string) (float_repr : Z -> string)
    (model : Model) (strict : bool) (old_field new_field : Field) (t : Trace)
    (old_type new_type : string) (rel_condition : bool) :
  db_type old_field = Some old_type ->
  db_type new_field = Some new_type ->
  rel_condition_of old_field new_field t = Ok rel_condition t ->
  let remake :=
    negb (String.eqb old_type new_type)
    && (isinstance dj old_field AutoField || isinstance dj old_field TextField
        || isinstance dj new_field TextField) in
  let r := alter_field E dj lib_str float_repr model strict old_field new_field t in
  let tmp_column :=
    truncate_name dj ("psudo_" ++ column new_field)%string (max_name_length dj) in
  let created :=
    set__unique (set_primary_key (set_null (set_column new_field tmp_column) true)
                   false) false in
  let copy := sql_update_set (quote_name dj (db_table model))
                (quote_name dj tmp_column) (quote_name dj (column old_field)) in
  (remake = false ->
   Forall (fun ev => ~ remakes (stmt_of ev)) (since t (trace_of r)))
  /\ (remake = true ->
      (exists rest,
          trace_of r = t ++ attempt E t (super_add_field model created) :: rest)
      /\ forall u t', r = Ok u t' ->
           exists e1 tmp e2,
             t' = t ++ e1 ++ [Done copy; Done (super_remove_field model old_field)]
                    ++ e2
             /\ add_field E dj model (set_column new_field tmp_column) t
                = Ok tmp (t ++ e1)
             /\ column tmp = tmp_column
             /\ Forall (fun ev => match stmt_of ev with
                                  | sql_update_set _ _ _
                                  | super_remove_field _ _ => False
                                  | _ => True
                                  end) e1
             /\ alter_field_from_flags E dj lib_str float_repr model strict
                  tmp new_field
                  (primary_key old_field && primary_key new_field)
                  (primary_key old_field && primary_key new_field
                   && negb (isinstance dj old_field AutoField
                            && isinstance dj new_field IntegerField))
                  (t ++ e1 ++ [Done copy;
                               Done (super_remove_field model old_field)])
                = Ok u t'
             /\ Forall (fun ev => ~ remakes (stmt_of ev)) e2).
Proof.
  intros To Tn RC remake r tmp_column created copy.
  assert (r = (if remake
               then (fields <- alterFieldDataTypeByRemaking E dj model old_field
                                 new_field strict ;;
                     alter_field_from_flags E dj lib_str float_repr model strict
                       (fst fields) (snd fields)
                       (primary_key old_field && primary_key new_field)
                       (primary_key old_field && primary_key new_field
                        && negb (isinstance dj old_field AutoField
                                 && isinstance dj new_field IntegerField))) t
               else alter_field_from_flags E dj lib_str float_repr model strict
                      old_field new_field false false t)) as Hr.
  { unfold r, alter_field. unfold bind at 1. rewrite RC.
    unfold needs_remaking. rewrite To, Tn. simpl opt_is_None. simpl opt_string_neq.
    unfold remake. simpl.
    match goal with |- context [if ?c then _ else _] => destruct c end;
      reflexivity. }
  split; intros Rm; rewrite Rm in Hr.
  - rewrite Hr.
    destruct (alter_field_from_flags_no_remake E dj lib_str float_repr model strict
                old_field new_field false false t) as [ext [-> F]].
    rewrite since_app. exact F.
  - split.
    + rewrite Hr. apply first_event_bind.
      * unfold alterFieldDataTypeByRemaking. apply first_event_bind.
        -- apply add_field_first_event.
        -- intros a. emits_all.
      * intros [f1 f2]. eapply emits_weaken;
          [|apply alter_field_from_flags_no_remake]. auto.
    + intros u t' R. rewrite Hr in R.
      apply bind_Ok_inv in R. destruct R as [[f1 f2] [t1 [R1 R2]]].
      unfold alterFieldDataTypeByRemaking in R1.
      apply bind_Ok_inv in R1. destruct R1 as [tmp [ta [Ra R1]]].
      apply bind_Ok_inv in R1. destruct R1 as [[] [tb [Rb R1]]].
      apply bind_Ok_inv in R1. destruct R1 as [[] [tc [Rc R1]]].
      inversion R1; subst f1 f2 t1. clear R1.
      apply execute_Ok_inv in Rb. destruct Rb as [_ ->].
      apply execute_Ok_inv in Rc. destruct Rc as [_ ->].
      pose proof (add_field_column E dj model _ _ _ _ Ra) as Cl.
      change (column tmp = tmp_column) in Cl.
      change (add_field E dj model (set_column new_field tmp_column) t
              = Ok tmp ta) in Ra.
      destruct (emits_Ok _ _ _ _ _ (add_field_no_update E dj model _) Ra)
        as [e1 [-> F1]].
      simpl fst in R2. simpl snd in R2. unfold qn in R2. rewrite Cl in R2.
      fold copy in R2.
      destruct (emits_Ok _ _ _ _ _
                  (alter_field_from_flags_no_remake E dj lib_str float_repr model
                     strict tmp new_field _ _) R2) as [e2 [-> F2]].
      exists e1, tmp, e2.
      repeat split; try assumption; try reflexivity.
      * trace_eq.
      * etransitivity; [|exact R2]. f_equal. trace_eq.
Qed.

(** The amended C2 on the identity column [id] that becomes a plain integer
    column: the call starts by creating [psudo_id]. *)
Lemma remake_path_witness :
  exists rest,
    trace_of (alter_field Sample.calm Sample.django Sample.no_str Sample.no_repr
                Sample.T false Sample.auto_id Sample.integer_id [])
    = Done (super_add_field Sample.T
              (set__unique
                 (set_primary_key
                    (set_null (set_column Sample.integer_id "psudo_id") true)
                    false) false)) :: rest.
Proof.
  destruct (remake_path Sample.calm Sample.django Sample.no_str Sample.no_repr
              Sample.T false Sample.auto_id Sample.integer_id []
              "INTEGER GENERATED BY DEFAULT AS IDENTITY" "INTEGER" false
              eq_refl eq_refl eq_refl) as [_ H].
  destruct (H eq_refl) as [F _]. exact F.
Defined.

(** ** Altering a field: the default *)

Lemma attempts_of_app p (a b : Trace) :
  attempts_of p (a ++ b) = attempts_of p a + attempts_of p b.
Proof. unfold attempts_of. rewrite map_app, filter_app, length_app. reflexivity. Qed.

Lemma attempts_of_none p (ext : Trace) :
  Forall (fun ev => p (stmt_of ev) = false) ext -> attempts_of p ext = 0.
Proof.
  unfold attempts_of. induction 1 as [|ev ext H F IH]; [reflexivity|].
  simpl. rewrite H. exact IH.
Qed.

Section DefaultFacts.

Variable E : Engine.
Variable dj : Django.
Variable lib_str : Literal.PyValue -> string.
Variable float_repr : Z -> string.
Variable model : Model.
Variable strict : bool.
Variables old_field new_field : Field.

Local Abbreviation data_type_changes :=
  (opt_string_neq (db_type old_field) (db_type new_field)).

(** Before the default is changed, a default is only dropped by a change of
    storage type, and none is set. *)
Lemma before_default_emits :
  emits (fun ev => is_set_default (stmt_of ev) = false
                   /\ is_drop_default (stmt_of ev) && negb data_type_changes = false)
    (drop_steps E dj model strict old_field
       (negb (Bool.eqb (primary_key old_field) (primary_key new_field)))
       (negb (Bool.eqb (unique old_field) (unique new_field)))
       (negb (Bool.eqb (db_index old_field) (db_index new_field)))
       (opt_string_neq (check_of old_field) (check_of new_field))
       (negb (Bool.eqb (null old_field) (null new_field))) ;;
     drop_fk_constraints E dj model old_field).
Proof. emits_all. Qed.

Lemma rename_and_retype_emits rebuild alter_incoming :
  emits (fun ev => is_set_default (stmt_of ev) = false
                   /\ is_drop_default (stmt_of ev) && negb data_type_changes = false)
    (rename_and_retype E dj model old_field new_field (effective_default old_field)
       (negb (String.eqb (column old_field) (column new_field)))
       data_type_changes rebuild alter_incoming).
Proof. emits_all. Qed.

Lemma after_default_emits (flags : bool * bool) :
  emits (fun ev => is_set_default (stmt_of ev) = false
                   /\ is_drop_default (stmt_of ev) = false)
    (change_nullability E dj model new_field
       (negb (Bool.eqb (null old_field) (null new_field))) ;;
     add_check_constraint E dj model new_field
       (opt_string_neq (check_of old_field) (check_of new_field)) ;;
     added <- add_keys E dj model new_field
                (negb (Bool.eqb (primary_key old_field) (primary_key new_field)))
                (negb (Bool.eqb (unique old_field) (unique new_field)))
                (negb (Bool.eqb (db_index old_field) (db_index new_field))) ;;
     update_incoming_fk E dj
       ((if snd flags then get_all_related_objects (Schema.model new_field) else [])
        ++ added) ;;
     make_fk_constraint E dj model new_field ;;
     rebuild_incoming_fk E dj model new_field (fst flags)).
Proof. emits_all; destruct (null new_field); auto. Qed.

End DefaultFacts.

(** * Further properties of the editor *)

(** ** Loops of statements *)

Lemma for_each_ext {X} (xs : list X) (f g : X -> M unit) t :
  (forall x t', f x t' = g x t') -> for_each xs f t = for_each xs g t.
Proof.
  intros H. revert t. induction xs as [|x xs IH]; intros t; simpl; [reflexivity|].
  unfold bind. rewrite H. destruct (g x t); [apply IH | reflexivity].
Qed.

(** A loop of statements runs them in order and stops at the first one the
    engine refuses. *)
Lemma for_each_execute_run (E : Engine) {X} (xs : list X) (f : X -> Stmt) t :
  for_each xs (fun x => execute E (f x)) t
  = Ok tt (t ++ map (fun x => Done (f x)) xs)
  \/ exists before x after,
       xs = before ++ x :: after
       /\ for_each xs (fun x => execute E (f x)) t
          = Raise (Error (f x))
              (t ++ map (fun x => Done (f x)) before ++ [Refused (f x)]).
Proof.
  revert t. induction xs as [|x xs IH]; intros t; simpl.
  - left. unfold ret. rewrite app_nil_r. reflexivity.
  - unfold bind, execute at 1 3. destruct (refuses E t (f x)).
    + right. exists [], x, xs. auto.
    + destruct (IH (t ++ [Done (f x)])) as [R | [before [y [after [-> R]]]]].
      * left. rewrite R, <- app_assoc. reflexivity.
      * right. exists (x :: before), y, after. rewrite R, <- app_assoc.
        auto.
Qed.

(** ** Reorganizing *)

(** X1: [_reorg_tables] asks once which tables wait for a reorganization
    and reorganizes them in the order of the answer; it completes when no
    statement is refused, and otherwise raises the refusal of the first
    refused one, after which no further table is reorganized. *)
Theorem reorg_tables_runs (E : Engine) (t : Trace) :
  let reorg := fun p : string * string => sql_reorg_table (fst p) (snd p) in
  _reorg_tables E t
  = Ok tt (t ++ map (fun p => Done (reorg p)) (reorg_pending E t))
  \/ exists before p after,
       reorg_pending E t = before ++ p :: after
       /\ _reorg_tables E t
          = Raise (Error (reorg p))
              (t ++ map (fun p => Done (reorg p)) before ++ [Refused (reorg p)]).
Proof.
  intros reorg. unfold _reorg_tables, ask, bind.
  rewrite for_each_ext with (g := fun p => execute E (reorg p))
    by (intros [a b] t'; reflexivity).
  apply for_each_execute_run.
Qed.

(** ** Deferral: what is dropped and what is recorded *)

Lemma defer_entry_untouched E old_column table fp fu fi fc d n cd :
  touches old_column cd = false ->
  defer_entry E old_column table fp fu fi fc d (n, cd) = ret d.
Proof.
  unfold touches, defer_entry. intros ->. rewrite !andb_false_r. reflexivity.
Qed.

Lemma defer_entry_due E old_column table fp fu fi fc d n cd :
  emits (fun ev => touches old_column cd = true
                   /\ exists k, stmt_of ev = drop_stmt k table n
                        /\ deferring fp fu fi fc k = true
                        /\ is_kind k cd = true)
    (defer_entry E old_column table fp fu fi fc d (n, cd)).
Proof.
  destruct (touches old_column cd) eqn:T.
  2:{ rewrite defer_entry_untouched by assumption. apply emits_ret. }
  unfold touches in T. unfold defer_entry. rewrite T, !andb_true_r.
  assert (forall k s, s = drop_stmt k table n ->
            deferring fp fu fi fc k = true -> is_kind k cd = true ->
            true = true /\ exists k, s = drop_stmt k table n
              /\ deferring fp fu fi fc k = true /\ is_kind k cd = true) as D
    by (intros k s; eauto).
  destruct fp, (cd_primary_key cd) eqn:Kp; simpl;
    try (emits_step; [emits_step; apply (D KeyPk); auto | emits_step]);
    destruct fu, (cd_unique cd) eqn:Ku; simpl;
    try (emits_step; [emits_step; [emits_step; apply (D KeyUnique); auto
                                  | emits_step] | emits_step]);
    (emits_step;
     [ destruct fi, (cd_index cd) eqn:Ki; simpl;
       try (emits_step; [emits_step; [emits_step; apply (D KeyIndex); auto
                                     | emits_step] | emits_step]);
       emits_step
     | destruct fc, (cd_check cd) eqn:Kc; simpl;
       try (emits_step; [emits_step; apply (D KeyCheck); auto | emits_step]);
       emits_step ]).
Qed.

(** X2: the deferral only issues drops of constraints of the snapshot
    that list the column, and only of a kind whose [defer_*] argument is
    set and that the constraint has; in particular it drops no check
    constraint when [defer_check] is off, and nothing at all for the
    constraints that do not list the column. *)
Theorem deferral_drops_only_due (E : Engine) (old_column table : string)
    (defer_pk defer_unique defer_index defer_check : bool)
    (constraints : dict ConstrDict) (d : Deferred) (t : Trace) :
  exists ext,
    trace_of (_defer_constraints_check E old_column table defer_pk defer_unique
                defer_index defer_check constraints d t) = t ++ ext
    /\ Forall (fun ev => exists n cd k,
                 In (n, cd) constraints
                 /\ touches old_column cd = true
                 /\ stmt_of ev = drop_stmt k table n
                 /\ deferring defer_pk defer_unique defer_index defer_check k = true
                 /\ is_kind k cd = true) ext.
Proof.
  revert t. unfold _defer_constraints_check.
  apply emits_for_fold. intros s [n cd] I.
  eapply emits_weaken; [|apply defer_entry_due].
  intros ev [T [k H]]. exists n, cd, k. auto.
Qed.

Lemma In_dict_set {V} (d : dict V) k v x w :
  In (x, w) (dict_set d k v) -> (x = k /\ w = v) \/ In (x, w) d.
Proof.
  induction d as [|[k' v'] d IH]; simpl.
  - intros [Q|[]]. inversion Q. auto.
  - destruct (String.eqb_spec k' k) as [->|N]; simpl.
    + intros [Q|I]; [inversion Q|]; auto.
    + intros [Q|I]; [auto|]. destruct (IH I); auto.
Qed.

Lemma drop_stmt_inj k k' table n : drop_stmt k table n = drop_stmt k' table n -> k = k'.
Proof. destruct k, k'; simpl; congruence. Qed.

Lemma turn_recorded table n cols d t d' t' k m c :
  turn table n cols d t (Ok d' t') ->
  In (m, c) (entries k d') ->
  In (m, c) (entries k d)
  \/ (m = n /\ c = cols /\ In (Done (drop_stmt k table n)) (since t t')).
Proof.
  intros T.
  inversion T; subst;
    try match goal with
    | I : index_part _ _ _ _ _ _ _ |- _ => inversion I; subst
    end;
    destruct k; simpl; intros I; auto;
    try (apply In_dict_set in I; destruct I as [[-> ->]|I]; auto);
    right; rewrite <- ?app_assoc, since_app; simpl; auto.
Qed.

Lemma defer_entry_recorded E old_column table fp fu fi fc d n cd t d' t' k m c :
  defer_entry E old_column table fp fu fi fc d (n, cd) t = Ok d' t' ->
  In (m, c) (entries k d') ->
  exists ext, t' = t ++ ext
    /\ (In (m, c) (entries k d)
        \/ (m = n /\ c = cd_columns cd /\ touches old_column cd = true
            /\ deferring fp fu fi fc k = true /\ is_kind k cd = true
            /\ In (Done (drop_stmt k table n)) ext)).
Proof.
  intros R I.
  destruct (emits_Ok _ _ _ _ _ (defer_entry_due E old_column table fp fu fi fc d n cd) R)
    as [ext [-> F]].
  exists ext. split; [reflexivity|].
  pose proof (defer_entry_turn E old_column table fp fu fi fc d n cd t) as T.
  rewrite R in T.
  destruct (turn_recorded _ _ _ _ _ _ _ _ _ _ T I) as [H|[-> [-> H]]]; [auto|].
  right. rewrite since_app in H.
  rewrite Forall_forall in F. destruct (F _ H) as [To [k' [Q [D K]]]].
  simpl in Q. apply drop_stmt_inj in Q. subst k'. auto 7.
Qed.

(** X3: whatever a completed deferral has recorded under a kind is a
    constraint of the snapshot that lists the column and has that kind, is
    recorded with the column list of the snapshot, and was dropped by a
    statement that was accepted. *)
Theorem deferral_records_dropped (E : Engine) (old_column table : string)
    (defer_pk defer_unique defer_index defer_check : bool)
    (constraints : dict ConstrDict) (t : Trace) (d : Deferred) (t' : Trace)
    (k : DeferKey) (n : string) (cols : list string) :
  _defer_constraints_check E old_column table defer_pk defer_unique defer_index
    defer_check constraints no_deferred t = Ok d t' ->
  In (n, cols) (entries k d) ->
  exists cd,
    In (n, cd) constraints
    /\ cols = cd_columns cd
    /\ touches old_column cd = true
    /\ deferring defer_pk defer_unique defer_index defer_check k = true
    /\ is_kind k cd = true
    /\ In (Done (drop_stmt k table n)) (since t t').
Proof.
  assert (forall cs d0 t0 d1 t1,
            _defer_constraints_check E old_column table defer_pk defer_unique
              defer_index defer_check cs d0 t0 = Ok d1 t1 ->
            In (n, cols) (entries k d1) ->
            exists ext, t1 = t0 ++ ext
              /\ (In (n, cols) (entries k d0)
                  \/ exists cd, In (n, cd) cs /\ cols = cd_columns cd
                       /\ touches old_column cd = true
                       /\ deferring defer_pk defer_unique defer_index defer_check k
                          = true
                       /\ is_kind k cd = true
                       /\ In (Done (drop_stmt k table n)) ext)) as G.
  { induction cs as [|[m cm] cs IH]; intros d0 t0 d1 t1 R I.
    - inversion R; subst. exists []. rewrite app_nil_r. auto.
    - unfold _defer_constraints_check in R. cbn [for_fold] in R.
      apply bind_Ok_inv in R. destruct R as [d2 [t2 [R1 R2]]].
      destruct (IH _ _ _ _ R2 I) as [e2 [-> H2]].
      destruct H2 as [H2|[cd [I2 [Q [To [D [K O]]]]]]].
      + destruct (defer_entry_recorded _ _ _ _ _ _ _ _ _ _ _ _ _ _ _ _ R1 H2)
          as [e1 [-> H1]].
        exists (e1 ++ e2). rewrite app_assoc. split; [reflexivity|].
        destruct H1 as [H1|[-> [-> [To [D [K O]]]]]]; [auto|].
        right. exists cm. simpl. rewrite in_app_iff. auto 10.
      + destruct (emits_Ok _ _ _ _ _
                    (defer_entry_due E old_column table defer_pk defer_unique
                       defer_index defer_check d0 m cm) R1) as [e1 [-> _]].
        exists (e1 ++ e2). rewrite app_assoc. split; [reflexivity|].
        right. exists cd. simpl. rewrite in_app_iff. auto 10. }
  intros R I. destruct (G _ _ _ _ _ R I) as [ext [-> [H|H]]].
  - destruct k; destruct H.
  - rewrite since_app. exact H.
Qed.

Lemma deferral_records_dropped_witness :
  exists cd,
    In ("U", cd) Sample.three_constraints
    /\ ["c"] = cd_columns cd
    /\ touches "c" cd = true.
Proof.
  destruct (deferral_records_dropped Sample.calm "c" "T" true true true true
              Sample.three_constraints []
              {| d_pk := [("P", ["c"])]; d_unique := [("U", ["c"])];
                 d_index := []; d_check := [] |}
              [Done (sql_delete_pk "T" "P"); Done (sql_delete_unique "T" "U")]
              KeyUnique "U" ["c"] eq_refl (or_introl eq_refl))
    as [cd [I [Q [To _]]]].
  exists cd. auto.
Defined.

(** ** Deferral and restoration when nothing is refused *)

Section CalmDeferral.

Variable E : Engine.
Variables (old_column table : string).
Variables (defer_pk defer_unique defer_index defer_check : bool).

Hypothesis accepts : forall t s, refuses E t s = false.

Local Abbreviation plan := (deferred_of old_column defer_pk defer_unique defer_index
                              defer_check).
Local Abbreviation drops_of' := (drops_of old_column table defer_pk defer_unique
                                   defer_index defer_check).

Lemma deferred_of_app (a b : dict ConstrDict) :
  plan (a ++ b) = deferred_app (plan a) (plan b).
Proof.
  unfold deferred_of, deferred_app, taken. simpl.
  rewrite !filter_app, !map_app. reflexivity.
Qed.

Lemma deferred_app_assoc (a b c : Deferred) :
  deferred_app (deferred_app a b) c = deferred_app a (deferred_app b c).
Proof. unfold deferred_app. simpl. rewrite <- !app_assoc. reflexivity. Qed.

Lemma keys_taken p (cs : dict ConstrDict) x :
  In x (keys (taken p cs)) -> In x (keys cs).
Proof.
  unfold taken, keys. rewrite map_map. simpl. rewrite !in_map_iff.
  intros [e [Q I]]. apply filter_In in I. exists e. tauto.
Qed.

Lemma keys_plan k (cs : dict ConstrDict) x :
  In x (keys (entries k (plan cs))) -> In x (keys cs).
Proof. destruct k; simpl; apply keys_taken. Qed.

Lemma defer_entry_calm d n cd t :
  (forall k, ~ In n (keys (entries k d))) ->
  defer_entry E old_column table defer_pk defer_unique defer_index defer_check
    d (n, cd) t
  = Ok (deferred_app d (plan [(n, cd)])) (t ++ map Done (drops_of' (n, cd))).
Proof.
  intros F.
  pose proof (F KeyPk) as Fp. pose proof (F KeyUnique) as Fu.
  pose proof (F KeyIndex) as Fi. pose proof (F KeyCheck) as Fc.
  simpl in Fp, Fu, Fi, Fc.
  unfold defer_entry, deferred_of, taken, drops_of, defers_unique,
    defers_index, defers_check, defers_pk, touches. simpl.
  destruct d as [dp du di dc]. simpl in *.
  destruct (defer_pk && cd_primary_key cd
            && PyStr.contains old_column (cd_columns cd)); simpl.
  { unfold bind, execute, ret, record_pk, deferred_app. rewrite accepts. simpl.
    rewrite dict_set_fresh, !app_nil_r by assumption. reflexivity. }
  destruct (defer_unique && cd_unique cd
            && PyStr.contains old_column (cd_columns cd)); simpl.
  { unfold try_except, bind, execute, ret, record_unique, deferred_app.
    rewrite accepts. simpl.
    rewrite dict_set_fresh, !app_nil_r by assumption. reflexivity. }
  destruct (defer_index && cd_index cd
            && PyStr.contains old_column (cd_columns cd));
    destruct (defer_check && cd_check cd
              && PyStr.contains old_column (cd_columns cd)); simpl;
    unfold try_except, bind, execute, ret, record_index, record_check,
      deferred_app; rewrite ?accepts; simpl; rewrite ?accepts; simpl;
    rewrite ?dict_set_fresh, ?app_nil_r by assumption;
    rewrite <- ?app_assoc; reflexivity.
Qed.

Lemma defer_calm constraints d t :
  NoDup (keys constraints) ->
  (forall k x, In x (keys constraints) -> ~ In x (keys (entries k d))) ->
  _defer_constraints_check E old_column table defer_pk defer_unique defer_index
    defer_check constraints d t
  = Ok (deferred_app d (plan constraints))
      (t ++ map Done (flat_map drops_of' constraints)).
Proof.
  revert d t. induction constraints as [|[n cd] cs IH]; intros d t ND F.
  - unfold _defer_constraints_check, deferred_app, ret. simpl.
    rewrite !app_nil_r. destruct d. reflexivity.
  - unfold _defer_constraints_check. cbn [for_fold]. unfold bind.
    rewrite defer_entry_calm by (intros k; apply F; left; reflexivity).
    inversion ND as [|? ? NI ND']; subst.
    assert (forall k x, In x (keys cs) ->
              ~ In x (keys (entries k (deferred_app d (plan [(n, cd)]))))) as F'.
    { intros k x I H.
      assert (keys (entries k (deferred_app d (plan [(n, cd)])))
              = keys (entries k d) ++ keys (entries k (plan [(n, cd)]))) as Q
        by (destruct k; simpl; unfold keys; apply map_app).
      rewrite Q in H. apply in_app_or in H. destruct H as [H|H].
      - apply (F k x); [right; assumption | assumption].
      - apply keys_plan in H. simpl in H. destruct H as [<-|[]]. auto. }
    pose proof (IH (deferred_app d (plan [(n, cd)]))
                  (t ++ map Done (drops_of' (n, cd))) ND' F') as H.
    unfold _defer_constraints_check in H. rewrite H.
    change ((n, cd) :: cs) with ([(n, cd)] ++ cs).
    rewrite deferred_of_app, deferred_app_assoc.
    cbn [flat_map app]. rewrite map_app, <- !app_assoc. reflexivity.
Qed.

Hypothesis nothing_pending : forall t, reorg_pending E t = [].

Lemma reorg_calm t : _reorg_tables E t = Ok tt t.
Proof. unfold _reorg_tables, ask, bind. rewrite nothing_pending. reflexivity. Qed.

Lemma restore_calm new_column d t :
  _restore_constraints_check E old_column new_column table d t
  = Ok tt (t ++ map Done (restore_stmts old_column new_column table d)).
Proof.
  unfold _restore_constraints_check, restore_stmts, bind.
  rewrite for_each_ext
    with (g := fun x => execute E
                 (sql_create_pk table (fst x)
                    (renamed_columns old_column new_column (snd x))))
    by (intros [n c] t0; unfold execute_sql_create_pk, bind;
        rewrite reorg_calm; reflexivity).
  rewrite for_each_execute_all by (intros; apply accepts).
  rewrite for_each_ext
    with (g := fun x => execute E
                 (sql_create_unique table (fst x)
                    (renamed_columns old_column new_column (snd x))))
    by (intros [n c] t0; reflexivity).
  rewrite for_each_execute_all by (intros; apply accepts).
  rewrite for_each_ext
    with (g := fun x => execute E
                 (sql_create_index table (fst x)
                    (renamed_columns old_column new_column (snd x)) EmptyString))
    by (intros [n c] t0; reflexivity).
  rewrite for_each_execute_all by (intros; apply accepts).
  rewrite !map_app, !map_map, <- !app_assoc.
  repeat first [apply map_ext; intros [n c]; reflexivity | f_equal].
Qed.

End CalmDeferral.

(** X4: when the engine refuses nothing and a name stands for one
    constraint, the deferral drops, in the order of the snapshot, every
    constraint that lists the column, under the first branch that takes it:
    the primary key branch, else the unique branch, else the index branch
    and the check branch, which can both take one constraint; it records
    each one under the kind of its drop with the columns it had. *)
Theorem deferral_when_nothing_refused (E : Engine) (old_column table : string)
    (defer_pk defer_unique defer_index defer_check : bool)
    (constraints : dict ConstrDict) (t : Trace) :
  (forall t s, refuses E t s = false) ->
  NoDup (keys constraints) ->
  _defer_constraints_check E old_column table defer_pk defer_unique defer_index
    defer_check constraints no_deferred t
  = Ok (deferred_of old_column defer_pk defer_unique defer_index defer_check
          constraints)
      (t ++ map Done
              (flat_map (drops_of old_column table defer_pk defer_unique
                           defer_index defer_check) constraints)).
Proof.
  intros A ND. rewrite defer_calm; auto.
  intros k x _. destruct k; simpl; tauto.
Qed.

Lemma deferral_when_nothing_refused_witness :
  _defer_constraints_check Sample.calm "c" "T" true true true true
    Sample.three_constraints no_deferred []
  = Ok {| d_pk := [("P", ["c"])]; d_unique := [("U", ["c"])];
          d_index := []; d_check := [] |}
      [Done (sql_delete_pk "T" "P"); Done (sql_delete_unique "T" "U")].
Proof.
  apply (deferral_when_nothing_refused Sample.calm "c" "T" true true true true
           Sample.three_constraints []).
  - reflexivity.
  - repeat constructor; simpl; intuition discriminate.
Defined.

(** ** The column lists of the restoration *)

Lemma prefix_occurs (old s : string) : prefix old s = true -> occurs old s.
Proof.
  intros P. apply prefix_split in P. destruct P as [rest ->].
  exists EmptyString, rest. reflexivity.
Qed.

Lemma replace_from_absent (old new s : string) :
  ~ occurs old s -> replace_from old new 0 s = s.
Proof.
  induction s as [|c s IH]; intros N; [reflexivity|].
  cbn [replace_from].
  destruct (prefix old (String c s)) eqn:P.
  - destruct N. apply prefix_occurs. assumption.
  - f_equal. apply IH. intros [pre [post ->]]. apply N.
    exists (String c pre), post. reflexivity.
Qed.

Lemma replace_absent (s old new : string) :
  old <> EmptyString -> ~ occurs old s -> replace s old new = s.
Proof.
  intros NE N. unfold replace. destruct old as [|a o]; [congruence|].
  apply replace_from_absent. assumption.
Qed.

Lemma replace_whole (old new : string) :
  old <> EmptyString -> replace old old new = new.
Proof.
  intros NE. unfold replace. destruct old as [|a o]; [congruence|].
  pose proof (replace_from_head a o new EmptyString) as H.
  rewrite append_nil_r in H. rewrite H. simpl. apply append_nil_r.
Qed.

Lemma renamed_columns_same (old : string) (cols : list string) :
  old <> EmptyString -> renamed_columns old old cols = join ", " cols.
Proof.
  intros NE. unfold renamed_columns. f_equal.
  rewrite <- (map_id cols) at 2. apply map_ext. intros c.
  destruct (replace_same c old); [assumption | contradiction].
Qed.

(** X5: when every column of a deferred constraint either is the altered
    column or does not contain its name, the column list the restoration
    writes is the recorded one with the altered column under its new name,
    the other columns as they were and the order kept. *)
Theorem restoration_renames_the_column (old_column new_column : string)
    (columns : list string) :
  old_column <> EmptyString ->
  (forall c, In c columns -> c = old_column \/ ~ occurs old_column c) ->
  renamed_columns old_column new_column columns
  = join ", " (map (fun c => if String.eqb c old_column then new_column else c)
                 columns).
Proof.
  intros NE H. unfold renamed_columns. f_equal. apply map_ext_in.
  intros c I. destruct (String.eqb_spec c old_column) as [->|N].
  - apply replace_whole. assumption.
  - destruct (H c I) as [Q|A]; [contradiction|].
    apply replace_absent; assumption.
Qed.

Lemma restoration_renames_the_column_witness :
  renamed_columns "a" "z" ["b"; "a"; "c"] = "b, z, c"%string.
Proof.
  apply (restoration_renames_the_column "a" "z" ["b"; "a"; "c"]).
  - discriminate.
  - intros c [<-|[<-|[<-|[]]]]; [right | left; reflexivity | right];
      intros [[|x pre] [post Q]]; simpl in Q; try discriminate;
      inversion Q as [[Q1 Q2]]; destruct pre; discriminate.
Defined.

(** X6: on an engine that refuses nothing and has no table waiting for a
    reorganization, deferring the constraints of a column and restoring them
    under the same column name drops each constraint once and then recreates
    every primary key, unique constraint and index that was dropped, under
    its name and with its column list; the check constraints that were
    dropped are not among the statements that follow. *)
Theorem defer_then_restore (E : Engine) (column table : string)
    (defer_pk defer_unique defer_index defer_check : bool)
    (constraints : dict ConstrDict) (t : Trace) :
  (forall t s, refuses E t s = false) ->
  (forall t, reorg_pending E t = []) ->
  NoDup (keys constraints) ->
  column <> EmptyString ->
  (d <- _defer_constraints_check E column table defer_pk defer_unique defer_index
          defer_check constraints no_deferred ;;
   _restore_constraints_check E column column table d) t
  = Ok tt
      (t ++ map Done
              (flat_map (drops_of column table defer_pk defer_unique defer_index
                           defer_check) constraints)
         ++ map Done
              (recreate_stmts table
                 (deferred_of column defer_pk defer_unique defer_index defer_check
                    constraints))).
Proof.
  intros A NP ND NE. unfold bind.
  rewrite defer_calm; auto.
  2:{ intros k x _. destruct k; simpl; tauto. }
  rewrite restore_calm by assumption.
  rewrite <- app_assoc. unfold restore_stmts, recreate_stmts.
  repeat first [ apply map_ext; intros [n c]; simpl;
                 rewrite renamed_columns_same by assumption; reflexivity
               | f_equal ].
Qed.

Lemma defer_then_restore_witness :
  (d <- _defer_constraints_check Sample.calm "c" "T" true true true true
          Sample.three_constraints no_deferred ;;
   _restore_constraints_check Sample.calm "c" "c" "T" d) []
  = Ok tt [Done (sql_delete_pk "T" "P"); Done (sql_delete_unique "T" "U");
           Done (sql_create_pk "T" "P" "c"); Done (sql_create_unique "T" "U" "c")].
Proof.
  apply (defer_then_restore Sample.calm "c" "T" true true true true
           Sample.three_constraints []).
  - reflexivity.
  - reflexivity.
  - repeat constructor; simpl; intuition discriminate.
  - discriminate.
Defined.

(** ** Adding a column when nothing is refused *)

(** X7: on an engine that refuses nothing and has no table waiting for a
    reorganization, [add_field] of a field that is no auto-created link adds
    the column nullable and without keys, then sets NOT NULL when the field
    is not nullable, then, for a primary key, drops every primary key the
    table has and creates the key named with the suffix [_pk], and only for
    a field that is no primary key creates the unique constraint named with
    [_uniq]. *)
Theorem add_field_when_nothing_refused (E : Engine) (dj : Django) (model : Model)
    (field : Field) (rc : bool) (t : Trace) :
  (forall t s, refuses E t s = false) ->
  (forall t, reorg_pending E t = []) ->
  through_auto_created field = ret rc ->
  isinstance dj field ManyToManyField && rc = false ->
  let tbl := quote_name dj (db_table model) in
  let col := quote_name dj (column field) in
  let created := set__unique (set_primary_key (set_null field true) false) false in
  let not_null :=
    if null field then []
    else [Done (sql_alter_column tbl (sql_alter_column_not_null col))] in
  let t1 := t ++ Done (super_add_field model created) :: not_null in
  let key :=
    if primary_key field then
      map (fun pk => Done (sql_delete_pk tbl pk)) (primary_keys E t1 (db_table model))
      ++ [Done (sql_create_pk tbl
                  (_create_index_name dj (OfModel (db_table model)) [column field]
                     "_pk") col)]
    else if _unique field then
      [Done (sql_create_unique tbl
               (_create_index_name dj (OfModel (db_table model)) [column field]
                  "_uniq") col)]
    else [] in
  exists f, add_field E dj model field t = Ok f (t1 ++ key).
Proof.
  intros NR NP TA NL tbl col created not_null t1 key.
  assert (forall t0, _reorg_tables E t0 = Ok tt t0) as RC
    by (intros t0; unfold _reorg_tables, ask, bind; rewrite NP; reflexivity).
  unfold add_field. cbn zeta. fold created.
  change (through_auto_created created) with (through_auto_created field).
  change (isinstance dj created ManyToManyField)
    with (isinstance dj field ManyToManyField).
  unfold bind at 1. rewrite execute_accepted by apply NR.
  unfold bind at 1. rewrite TA. unfold ret at 1. rewrite NL.
  unfold bind at 1. rewrite RC.
  unfold key, t1, not_null. clear key t1 not_null.
  unfold qn, unique. subst created.
  cbn [_unique primary_key null column set_null set_primary_key set__unique].
  fold tbl col.
  destruct (null field), (primary_key field) eqn:PK, (_unique field) eqn:UQ;
    cbn [negb orb];
    unfold or_drop_column, try_except_Error, bind, ask, ret;
    rewrite ?execute_accepted by apply NR; rewrite ?RC;
    rewrite ?for_each_execute_all by (intros; apply NR);
    rewrite ?RC; rewrite ?execute_accepted by apply NR; rewrite ?RC;
    eexists; f_equal; trace_eq.
Qed.

Lemma add_field_when_nothing_refused_witness :
  exists f,
    add_field (Sample.engine (fun _ => false) [] (fun _ => []) ["OLD_PK"] None)
      Sample.django Sample.T Sample.id_pk []
    = Ok f
        [Done (super_add_field Sample.T
                 (set__unique (set_primary_key (set_null Sample.id_pk true) false)
                    false));
         Done (sql_alter_column "[T]" (sql_alter_column_not_null "[id]"));
         Done (sql_delete_pk "[T]" "OLD_PK");
         Done (sql_create_pk "[T]"
                 (_create_index_name Sample.django (OfModel "T") ["id"] "_pk")
                 "[id]")].
Proof.
  apply (add_field_when_nothing_refused
           (Sample.engine (fun _ => false) [] (fun _ => []) ["OLD_PK"] None)
           Sample.django Sample.T Sample.id_pk false []).
  - reflexivity.
  - reflexivity.
  - reflexivity.
  - reflexivity.
Defined.

(** ** The field [add_field] leaves to its caller *)

Lemma through_auto_created_Ok dj field t rc t' :
  through_auto_created field t = Ok rc t' ->
  t' = t
  /\ is_auto_created_link dj field = isinstance dj field ManyToManyField && rc.
Proof.
  unfold through_auto_created, is_auto_created_link.
  destruct (remote_field field) as [r|]; [destruct (through r) as [[th|]|]|];
    intros H; inversion H; auto.
Qed.

(** The field a completed [add_field] gives back *)
Lemma add_field_Ok (E : Engine) (dj : Django) (model : Model)
    (field : Field) (t : Trace) (f : Field) (t' : Trace) :
  add_field E dj model field t = Ok f t' -> f = added_field dj field.
Proof.
  unfold added_field, add_field. cbn zeta. intros R.
  apply bind_Ok_inv in R. destruct R as [[] [t1 [_ R]]].
  apply bind_Ok_inv in R. destruct R as [rc [t2 [TA R]]].
  apply (through_auto_created_Ok dj field) in TA. destruct TA as [-> TA].
  rewrite TA.
  change (isinstance dj
            (set__unique (set_primary_key (set_null field true) false) false)
            ManyToManyField)
    with (isinstance dj field ManyToManyField) in R.
  destruct (isinstance dj field ManyToManyField && rc).
  { inversion R. reflexivity. }
  revert t1 f t' R.
  match goal with
  | |- forall t a t', ?m t = Ok a t' -> a = ?X =>
      change (returns (fun a => a = X) m)
  end.
  destruct field as [c col ty ck nl pk uq ix df ed rf rl md].
  unfold unique, qn. simpl.
  destruct nl, pk, uq; simpl;
    repeat match goal with
           | |- returns _ (ret _) => apply returns_ret; reflexivity
           | |- returns _ (bind (A := Field) _ _) =>
               eapply returns_bind_with with (R1 := fun f => f = _);
               [| intros ? ->]
           | |- returns _ (bind _ _) => apply returns_bind; intros
           end.
Qed.


(** X8: [add_field] works on the caller's field with [null], [primary_key]
    and [_unique] cleared; when it completes it has put [null] and
    [primary_key] back, but [_unique] only for a field that is no primary
    key, and for an auto-created link it has put nothing back. *)
Theorem add_field_gives_field_back (E : Engine) (dj : Django) (model : Model)
    (field : Field) (t : Trace) (f : Field) (t' : Trace) :
  add_field E dj model field t = Ok f t' ->
  f = if is_auto_created_link dj field
      then set__unique (set_primary_key (set_null field true) false) false
      else set__unique field (_unique field && negb (primary_key field)).
Proof. exact (add_field_Ok E dj model field t f t'). Qed.

Lemma add_field_gives_field_back_witness :
  exists f t',
    add_field Sample.calm Sample.django Sample.T Sample.pk_c [] = Ok f t'
    /\ f = set__unique Sample.pk_c false
    /\ _unique Sample.pk_c = true.
Proof.
  eexists. eexists. split; [vm_compute; reflexivity|]. split; [|reflexivity].
  exact (add_field_gives_field_back Sample.calm Sample.django Sample.T
           Sample.pk_c [] _ _ eq_refl).
Defined.

(** X9: for a many-to-many field whose link table was auto-created,
    [add_field] issues the base class's statement and nothing else: no
    reorganization, no NOT NULL and no key, whatever the field asks for, and
    it returns the field with the three attributes cleared. *)
Theorem add_field_of_auto_created_link (E : Engine) (dj : Django) (model : Model)
    (field : Field) (t : Trace) :
  is_auto_created_link dj field = true ->
  let created := set__unique (set_primary_key (set_null field true) false) false in
  add_field E dj model field t
  = if refuses E t (super_add_field model created)
    then Raise (Error (super_add_field model created))
           (t ++ [Refused (super_add_field model created)])
    else Ok created (t ++ [Done (super_add_field model created)]).
Proof.
  intros L created. unfold add_field. cbn zeta. fold created.
  unfold is_auto_created_link in L. apply andb_true_iff in L. destruct L as [I A].
  change (isinstance dj created ManyToManyField)
    with (isinstance dj field ManyToManyField).
  change (through_auto_created created) with (through_auto_created field).
  unfold through_auto_created.
  destruct (remote_field field) as [r|]; [|discriminate].
  destruct (through r) as [[th|]|]; try discriminate.
  unfold bind, execute, ret.
  destruct (refuses E t (super_add_field model created)); [reflexivity|].
  rewrite I, A. reflexivity.
Qed.

Lemma add_field_of_auto_created_link_witness :
  add_field Sample.calm Sample.django Sample.T (set_primary_key Sample.tags true) []
  = Ok (set_null Sample.tags true)
      [Done (super_add_field Sample.T (set_null Sample.tags true))].
Proof.
  apply (add_field_of_auto_created_link Sample.calm Sample.django Sample.T
           (set_primary_key Sample.tags true) []).
  reflexivity.
Defined.

(** ** Altering a field *)

Lemma rel_condition_of_pure old_field new_field t :
  (exists rc, rel_condition_of old_field new_field t = Ok rc t)
  \/ rel_condition_of old_field new_field t = Raise AttributeError t.
Proof.
  unfold rel_condition_of.
  destruct (remote_field old_field) as [ro|]; [|left; eexists; reflexivity].
  destruct (through ro) as [[tho|]|]; try (left; eexists; reflexivity).
  destruct (remote_field new_field) as [rn|]; [|right; reflexivity].
  destruct (through rn) as [[thn|]|];
    [left; eexists; reflexivity | left; eexists; reflexivity | right; reflexivity].
Qed.

(** X10: when one of the two fields has no storage type, [alter_field]
    issues no statement and raises: [AttributeError] when the test of the
    link tables itself raises it (the old field has a link table and the new
    field has no [remote_field], or one without [through]), and [ValueError]
    otherwise, unless both fields have no storage type and both link tables
    are auto-created. *)
Theorem alter_field_without_storage_type (E : Engine) (dj : Django)
    (lib_str : Literal.PyValue -> string) (float_repr : Z -> string) (model : Model)
    (strict : bool) (old_field new_field : Field) (t : Trace) :
  db_type old_field = None \/ db_type new_field = None ->
  match rel_condition_of old_field new_field t with
  | Raise _ _ =>
      alter_field E dj lib_str float_repr model strict old_field new_field t
      = Raise AttributeError t
  | Ok rc _ =>
      db_type old_field <> None \/ db_type new_field <> None \/ rc = false ->
      exists msg,
        alter_field E dj lib_str float_repr model strict old_field new_field t
        = Raise (ValueError msg) t
  end
  /\ ((exists e t1, rel_condition_of old_field new_field t = Raise e t1)
      <-> exists ro tho,
            remote_field old_field = Some ro /\ through ro = Some (Some tho)
            /\ (remote_field new_field = None
                \/ exists rn, remote_field new_field = Some rn
                              /\ through rn = None)).
Proof.
  intros N. split.
  - unfold alter_field, bind.
    destruct (rel_condition_of_pure old_field new_field t) as [[rc ->] | ->];
      [|reflexivity].
    intros B. eexists.
    destruct (db_type old_field), (db_type new_field), rc; simpl;
      try reflexivity; exfalso; destruct N as [N|N]; try discriminate;
      destruct B as [B|[B|B]]; congruence.
  - unfold rel_condition_of.
    destruct (remote_field old_field) as [ro|].
    2:{ split; [intros [e [t1 H]]; discriminate
               | intros [ro [tho [H _]]]; discriminate]. }
    destruct (through ro) as [[tho|]|] eqn:TH.
    2,3: split; [intros [e [t1 H]]; discriminate
                | intros [ro' [tho' [H [H' _]]]]; congruence].
    destruct (remote_field new_field) as [rn|].
    2:{ split; [intros _; exists ro, tho; auto
               | intros _; eexists; eexists; reflexivity]. }
    destruct (through rn) as [[thn|]|] eqn:TN.
    1,2: split; [intros [e [t1 H]]; discriminate
                | intros [ro' [tho' [_ [_ [H|[rn' [H H']]]]]]]; congruence].
    split; [intros _; exists ro, tho; eauto 6
           | intros _; eexists; eexists; reflexivity].
Qed.

Lemma alter_field_without_storage_type_witness :
  alter_field Sample.calm Sample.django Sample.no_str Sample.no_repr Sample.T
    false Sample.tags Sample.integer_id []
  = Raise AttributeError []
  /\ exists msg,
       alter_field Sample.calm Sample.django Sample.no_str Sample.no_repr Sample.T
         false Sample.integer_id Sample.tags []
       = Raise (ValueError msg) [].
Proof.
  split.
  - apply (alter_field_without_storage_type Sample.calm Sample.django
             Sample.no_str Sample.no_repr Sample.T false Sample.tags
             Sample.integer_id [] (or_introl eq_refl)).
  - apply (alter_field_without_storage_type Sample.calm Sample.django
             Sample.no_str Sample.no_repr Sample.T false Sample.integer_id
             Sample.tags [] (or_intror eq_refl)).
    left. discriminate.
Defined.

(** X11: between two plain columns that differ at most in nullability, on an
    engine that refuses nothing, [alter_field] issues nothing when the
    nullability is the same, one DROP NOT NULL when the column becomes
    nullable, and SET NOT NULL twice when it stops being nullable: once
    among the removals and once more among the additions. *)
Theorem alter_field_nullability_only (E : Engine) (dj : Django)
    (lib_str : Literal.PyValue -> string) (float_repr : Z -> string)
    (model : Model) (strict : bool) (old_field new_field : Field) (t : Trace) :
  (forall t s, refuses E t s = false) ->
  remote_field old_field = None ->
  remote_field new_field = None ->
  rel new_field = None ->
  db_type old_field <> None ->
  opt_string_neq (db_type old_field) (db_type new_field) = false ->
  column old_field = column new_field ->
  db_index old_field = db_index new_field ->
  unique old_field = unique new_field ->
  primary_key old_field = primary_key new_field ->
  opt_string_neq (check_of old_field) (check_of new_field) = false ->
  default_is_not_None old_field && has_default old_field
  && default_neq (value_ne dj) (effective_default old_field)
       (effective_default new_field)
  = false ->
  let tbl := quote_name dj (db_table model) in
  let col := quote_name dj (column new_field) in
  alter_field E dj lib_str float_repr model strict old_field new_field t
  = Ok tt
      (t ++ if Bool.eqb (null old_field) (null new_field) then []
            else if null old_field
            then [Done (sql_alter_column tbl (sql_alter_column_not_null col));
                  Done (sql_alter_column tbl (sql_alter_column_not_null col))]
            else [Done (sql_alter_column tbl (sql_alter_column_null col))]).
Proof.
  intros NR RO RN RL TY DT COL IX UQ PK CK DF tbl col.
  unfold alter_field, rel_condition_of. rewrite RO. unfold bind at 1, ret at 1.
  destruct (db_type old_field) as [a|] eqn:TO; [|congruence].
  destruct (db_type new_field) as [b|] eqn:TN; [|discriminate].
  cbn [opt_is_None andb orb]. unfold needs_remaking. rewrite TO, TN, DT.
  cbn [andb].
  unfold alter_field_from_flags.
  rewrite TO, TN, DT, COL, IX, UQ, PK, CK, DF, String.eqb_refl, !Bool.eqb_reflx.
  cbn [negb].
  unfold drop_steps, remove_primary_key, remove_unique, remove_index, remove_check,
    remove_nullability, drop_fk_constraints, rename_and_retype, change_default,
    change_nullability, add_check_constraint, add_keys, update_incoming_fk,
    make_fk_constraint, rebuild_incoming_fk, qn.
  rewrite RO, RN, RL, COL, ?andb_false_r.
  fold tbl col.
  destruct ((fst (djangoVersion dj) <? 1)%nat
            || (fst (djangoVersion dj) =? 1)%nat && (snd (djangoVersion dj) <? 9)%nat);
    destruct (null old_field), (null new_field); simpl;
    unfold bind, ret, execute; rewrite ?NR; simpl; rewrite ?NR, ?app_nil_r;
    f_equal; trace_eq.
Qed.

Lemma alter_field_nullability_only_witness :
  alter_field Sample.calm Sample.django Sample.no_str Sample.no_repr Sample.T false
    Sample.nullable_n (set_null Sample.nullable_n false) []
  = Ok tt [Done (sql_alter_column "[T]" (sql_alter_column_not_null "[n]"));
           Done (sql_alter_column "[T]" (sql_alter_column_not_null "[n]"))].
Proof.
  apply (alter_field_nullability_only Sample.calm Sample.django Sample.no_str
           Sample.no_repr Sample.T false Sample.nullable_n
           (set_null Sample.nullable_n false) []);
    try reflexivity.
  discriminate.
Defined.

(** X12: when the new field becomes the primary key, [alter_field] first
    tries to drop the table's primary key and goes on whether or not the
    engine refuses that; it then creates the key, and creates neither a
    unique constraint nor an index for the column even when those changed. *)
Theorem add_keys_primary_key (E : Engine) (dj : Django) (model : Model)
    (new_field : Field)
    (alter_field_primary_key alter_field_unique alter_field_index : bool)
    (t : Trace) :
  alter_field_primary_key && primary_key new_field = true ->
  (forall t, reorg_pending E t = []) ->
  let tbl := quote_name dj (db_table model) in
  let create :=
    sql_create_pk tbl
      (_create_index_name dj (OfModel (db_table model)) [column new_field] "_pk")
      (quote_name dj (column new_field)) in
  let t1 := t ++ [attempt E t (sql_drop_pk tbl)] in
  add_keys E dj model new_field alter_field_primary_key alter_field_unique
    alter_field_index t
  = if refuses E t1 create
    then Raise (Error create) (t1 ++ [Refused create])
    else Ok (get_all_related_objects (Schema.model new_field)) (t1 ++ [Done create]).
Proof.
  intros PK NP tbl create t1. unfold add_keys. rewrite PK.
  unfold try_except, execute_sql_create_pk, _reorg_tables, ask, bind, qn.
  fold tbl. fold create. unfold t1, attempt, execute at 1, ret.
  destruct (refuses E t (sql_drop_pk tbl)); rewrite NP; simpl;
    unfold execute;
    match goal with |- context [refuses E ?a ?b] => destruct (refuses E a b) end;
    reflexivity.
Qed.

Lemma add_keys_primary_key_witness :
  add_keys Sample.no_pk_to_drop Sample.django Sample.T Sample.id_pk true true true []
  = Ok (get_all_related_objects Sample.T)
      [Refused (sql_drop_pk "[T]");
       Done (sql_create_pk "[T]"
               (_create_index_name Sample.django (OfModel "T") ["id"] "_pk")
               "[id]")].
Proof.
  apply (add_keys_primary_key Sample.no_pk_to_drop Sample.django Sample.T
           Sample.id_pk true true true []).
  - reflexivity.
  - reflexivity.
Defined.

(** ** Altering a link table *)

Lemma emits_then {A B} (P : Event -> Prop) (Q : Trace -> Trace -> Prop)
    (m : M A) (k : A -> M B) t :
  emits P m ->
  (forall a t1, exists rest, trace_of (k a t1) = t1 ++ rest /\ Q t1 rest) ->
  (forall t1, Q t1 []) ->
  exists before rest,
    trace_of (bind m k t) = t ++ before ++ rest
    /\ Forall P before /\ Q (t ++ before) rest.
Proof.
  intros Hm Hk Q0. destruct (Hm t) as [e1 [T1 F1]]. unfold bind.
  destruct (m t) as [a t1|e t1]; simpl in T1; subst t1.
  - destruct (Hk a (t ++ e1)) as [rest [T2 H]]. exists e1, rest.
    rewrite T2, app_assoc. auto.
  - exists e1, []. rewrite app_nil_r. auto.
Qed.

Lemma emits_defer_without_check E old_column table constraints d :
  emits (fun ev => clears_constraint (stmt_of ev))
    (_defer_constraints_check E old_column table true true true false
       constraints d).
Proof.
  unfold _defer_constraints_check. apply emits_for_fold. intros s [n cd] _.
  eapply emits_weaken; [|apply defer_entry_due].
  intros ev [_ [k [-> [D _]]]]. destruct k; simpl in *; [exact I..|discriminate].
Qed.

(** X13: [_alter_many_to_many] issues its statements in three parts: first
    drops of foreign keys, primary keys, unique constraints and indexes of
    the link table and reorganizations, then the alteration of the base
    class, at most once, then creations of primary keys, unique constraints
    and indexes and reorganizations; it never drops a check constraint, and
    it creates no foreign key. *)
Theorem alter_many_to_many_order (E : Engine) (dj : Django) (model : Model)
    (old_field new_field : Field) (strict : bool) (t : Trace) :
  exists before rest,
    trace_of (_alter_many_to_many E dj model old_field new_field strict t)
    = t ++ before ++ rest
    /\ Forall (fun ev => clears_constraint (stmt_of ev)) before
    /\ (rest = []
        \/ exists after,
             rest = attempt E (t ++ before)
                      (super_alter_many_to_many model old_field new_field strict)
                    :: after
             /\ Forall (fun ev => recreates_constraint (stmt_of ev)) after).
Proof.
  assert (exists before rest : Trace,
            t = t ++ before ++ rest
            /\ Forall (fun ev => clears_constraint (stmt_of ev)) before
            /\ (rest = []
                \/ exists after,
                     rest = attempt E (t ++ before)
                              (super_alter_many_to_many model old_field new_field
                                 strict) :: after
                     /\ Forall (fun ev => recreates_constraint (stmt_of ev)) after))
    as Quiet by (exists [], []; rewrite app_nil_r; auto).
  unfold _alter_many_to_many.
  destruct (remote_field old_field) as [ro|]; [|exact Quiet].
  destruct (remote_field new_field) as [rn|]; [|exact Quiet].
  destruct (through ro) as [[tho|]|]; destruct (through rn) as [[thn|]|];
    try exact Quiet.
  clear Quiet.
  set (table := through_db_table tho).
  set (base := super_alter_many_to_many model old_field new_field strict).
  set (after_base := fun d : Deferred =>
         match rel new_field with
         | Some r =>
             match through r with
             | Some (Some th) =>
                 _restore_constraints_check E (reverse_column tho)
                   (reverse_column thn) (through_db_table th) d
             | _ => raise AttributeError
             end
         | None => raise AttributeError
         end).
  set (prefix :=
         constraints <- ask E (fun e t => get_constraints e t table) ;;
         for_each constraints (fun '(constr_name, constr_dict) =>
           match cd_foreign_key constr_dict with
           | Some _ => execute E (sql_delete_fk (qn dj table) constr_name)
           | None => ret tt
           end) ;;
         d <- _defer_constraints_check E (reverse_column tho) table true true true
                false constraints no_deferred ;;
         _reorg_tables E ;;
         ret d).
  match goal with
  | |- context [trace_of (?m t)] =>
      assert (m t = bind prefix (fun d => execute E base ;; after_base d) t) as ->
  end.
  { unfold prefix, bind, ask, ret.
    repeat match goal with
           | |- context [match ?x with Ok _ _ => _ | Raise _ _ => _ end] =>
               destruct x; try reflexivity
           end. }
  apply emits_then
    with (Q := fun t1 rest =>
                 rest = []
                 \/ exists after,
                      rest = attempt E t1 base :: after
                      /\ Forall (fun ev => recreates_constraint (stmt_of ev)) after).
  - unfold prefix. apply emits_bind; [apply emits_ask|]. intros cs.
    apply emits_bind.
    { apply emits_for_each. intros [n cd] _.
      destruct (cd_foreign_key cd); [|apply emits_ret].
      apply emits_execute; exact I. }
    intros _. apply emits_bind; [apply emits_defer_without_check|].
    intros d. apply emits_bind; [|intros; apply emits_ret].
    eapply emits_weaken; [|apply emits_reorg]. intros [[]|[]]; simpl; tauto.
  - intros d t1.
    assert (emits (fun ev => recreates_constraint (stmt_of ev)) (after_base d)) as R.
    { unfold after_base.
      destruct (rel new_field) as [r|]; [|apply emits_raise].
      destruct (through r) as [[th|]|]; try apply emits_raise.
      unfold _restore_constraints_check, execute_sql_create_pk.
      repeat first
        [ emits_step
        | match goal with
          | |- emits _ (_reorg_tables _) =>
              eapply emits_weaken; [|apply emits_reorg]; intros [[]|[]]; simpl; tauto
          end ]. }
    unfold bind. pose proof (trace_of_execute E base t1) as T.
    destruct (execute E base t1) as [[] t2|e t2]; simpl in T; subst t2.
    + destruct (R (t1 ++ [attempt E t1 base])) as [after [-> F]].
      exists (attempt E t1 base :: after). rewrite <- app_assoc. simpl.
      split; [reflexivity|]. right. eauto.
    + exists [attempt E t1 base]. split; [reflexivity|]. right. eauto.
  - auto.
Qed.

(** X14: in strict mode, when the column stops being the primary key and
    the catalog shows no primary key constraint on it, [alter_field] raises
    [ValueError] before it issues any statement. *)
Theorem strict_missing_primary_key (E : Engine) (dj : Django)
    (lib_str : Literal.PyValue -> string) (float_repr : Z -> string)
    (model : Model) (old_field new_field : Field) (rc : bool) (t : Trace) :
  rel_condition_of old_field new_field = ret rc ->
  db_type old_field <> None ->
  db_type new_field <> None ->
  needs_remaking dj old_field new_field = false ->
  primary_key old_field = true ->
  primary_key new_field = false ->
  constraint_names E t (db_table model) [column old_field] PrimaryKey = [] ->
  exists msg,
    alter_field E dj lib_str float_repr model true old_field new_field t
    = Raise (ValueError msg) t.
Proof.
  intros R TO TN NM PO PN NO. unfold alter_field. rewrite R, NM.
  unfold bind at 1, ret at 1.
  destruct (db_type old_field); [|congruence].
  destruct (db_type new_field); [|congruence].
  cbn [opt_is_None andb orb].
  unfold alter_field_from_flags, drop_steps, remove_primary_key, names_on, ask.
  rewrite PO, PN. cbn [Bool.eqb negb andb]. unfold bind. rewrite NO.
  simpl. eexists. reflexivity.
Qed.

Lemma strict_missing_primary_key_witness :
  exists msg,
    alter_field Sample.calm Sample.django Sample.no_str Sample.no_repr Sample.T
      true Sample.id_pk (set_primary_key Sample.id_pk false) []
    = Raise (ValueError msg) [].
Proof.
  apply (strict_missing_primary_key Sample.calm Sample.django Sample.no_str
           Sample.no_repr Sample.T Sample.id_pk
           (set_primary_key Sample.id_pk false) false []);
    try reflexivity; discriminate.
Defined.

(** ** Literals that can be read back *)

Module LiteralInjective.

Import Literal PyStr PyStrFacts LiteralFacts.

Lemma append_inv_tail (a b c : string) : (a ++ c = b ++ c)%string -> a = b.
Proof.
  intros H.
  assert (String.length a = String.length b) as L.
  { apply (f_equal String.length) in H. rewrite !length_append in H. lia. }
  destruct (append_same_length a b c c L H). assumption.
Qed.

Lemma unhexdigit_hi (b : byte) :
  unhexdigit (hexdigit (Byte.to_N b / 16)) = Some (Byte.to_N b / 16)%N.
Proof. destruct b; reflexivity. Qed.

Lemma unhexdigit_lo (b : byte) :
  unhexdigit (hexdigit (Byte.to_N b mod 16)) = Some (Byte.to_N b mod 16)%N.
Proof. destruct b; reflexivity. Qed.

Lemma of_N_digits (b : byte) :
  Byte.of_N (Byte.to_N b / 16 * 16 + Byte.to_N b mod 16) = Some b.
Proof. destruct b; reflexivity. Qed.

(** The hex digits of a byte string give the bytes back. *)
Lemma unhex_bytes_hex (bs : list byte) : unhex (bytes_hex bs) = Some bs.
Proof.
  induction bs as [|b bs IH]; [reflexivity|].
  cbn [bytes_hex unhex].
  rewrite unhexdigit_hi, unhexdigit_lo, IH, of_N_digits. reflexivity.
Qed.

(** X15: [quote_value] writes different literals for different values
    among the texts and the byte strings: the text is read back from its
    literal by undoing the doubled quotes, the bytes from their hex digits,
    and a text literal is never a BLOB literal. *)
Theorem quote_value_injective (lib_str : PyValue -> string)
    (float_repr : Z -> string) (a b : PyValue) :
  match a with VStr _ | VBytes _ => True | _ => False end ->
  match b with VStr _ | VBytes _ => True | _ => False end ->
  quote_value lib_str float_repr a = quote_value lib_str float_repr b ->
  a = b.
Proof.
  destruct a as [x| | | | | |x| | |]; intros []; destruct b as [y| | | | | |y| | |];
    intros []; unfold quote_value, escape_quotes, py_str; intros Q.
  - rewrite !replace_quote in Q. apply append_inv_head in Q.
    apply append_inv_tail in Q.
    pose proof (unescape_double_quotes x) as U. rewrite Q in U.
    rewrite unescape_double_quotes in U. congruence.
  - discriminate.
  - discriminate.
  - apply append_inv_head in Q. apply append_inv_tail in Q.
    pose proof (unhex_bytes_hex x) as U. rewrite Q in U.
    rewrite unhex_bytes_hex in U. congruence.
Qed.

Lemma quote_value_injective_witness : VStr "it's" = VStr "it's".
Proof.
  exact (quote_value_injective Sample.no_str Sample.no_repr (VStr "it's")
           (VStr "it's") I I eq_refl).
Defined.

End LiteralInjective.

(** ** The remake *)

(** X16: [alterFieldDataTypeByRemaking] runs [add_field] on the temporary
    column, whose statements neither copy nor remove a column; when
    [add_field] raises, it raises the same error and issues nothing more;
    otherwise it attempts the UPDATE that copies the old column into the
    temporary one, and attempts the removal of the old column only after the
    UPDATE was accepted; it completes exactly when both are accepted, and
    then returns the field [add_field] left and the new field. *)
Theorem remake_copies_before_removing (E : Engine) (dj : Django) (model : Model)
    (old_field new_field : Field) (strict : bool) (t : Trace) :
  let tmp := temporary_field dj new_field in
  let copy :=
    sql_update_set (quote_name dj (db_table model)) (quote_name dj (column tmp))
      (quote_name dj (column old_field)) in
  let removal := super_remove_field model old_field in
  (exists added,
     trace_of (add_field E dj model tmp t) = t ++ added
     /\ Forall (fun ev => match stmt_of ev with
                          | sql_update_set _ _ _ | super_remove_field _ _ => False
                          | _ => True
                          end) added)
  /\ alterFieldDataTypeByRemaking E dj model old_field new_field strict t
     = match add_field E dj model tmp t with
       | Raise e t1 => Raise e t1
       | Ok f t1 =>
           if refuses E t1 copy then Raise (Error copy) (t1 ++ [Refused copy])
           else if refuses E (t1 ++ [Done copy]) removal
           then Raise (Error removal) (t1 ++ [Done copy; Refused removal])
           else Ok (f, new_field) (t1 ++ [Done copy; Done removal])
       end.
Proof.
  intros tmp copy removal. split.
  { apply (add_field_no_update E dj model tmp t). }
  unfold alterFieldDataTypeByRemaking. cbn zeta.
  change (set_column new_field
            (truncate_name dj (psudo_column_prefix ++ column new_field)%string
               (max_name_length dj))) with tmp.
  unfold bind at 1.
  pose proof (add_field_column E dj model tmp t) as C.
  destruct (add_field E dj model tmp t) as [f t1|e t1]; [|reflexivity].
  rewrite (C f _ eq_refl). unfold qn. fold copy removal.
  unfold bind, execute, ret.
  destruct (refuses E t1 copy); [reflexivity|].
  destruct (refuses E (t1 ++ [Done copy]) removal);
    rewrite <- app_assoc; reflexivity.
Qed.

(** * The claims on the whole of [alter_field] *)

(** ** The plan of a completed call *)

Lemma rel_condition_of_Ok old_field new_field t rc t' :
  rel_condition_of old_field new_field t = Ok rc t' -> t' = t.
Proof.
  destruct (rel_condition_of_pure old_field new_field t) as [[rc' ->] | ->];
    intros H; inversion H; reflexivity.
Qed.

Lemma remake_Ok E dj model old_field new_field strict t fields t0 :
  alterFieldDataTypeByRemaking E dj model old_field new_field strict t
  = Ok fields t0 ->
  fields = (added_field dj (temporary_field dj new_field), new_field).
Proof.
  unfold alterFieldDataTypeByRemaking. cbn zeta. intros R.
  apply bind_Ok_inv in R. destruct R as [f [t1 [A R]]].
  apply bind_Ok_inv in R. destruct R as [[] [t2 [_ R]]].
  apply bind_Ok_inv in R. destruct R as [[] [t3 [_ R]]].
  inversion R; subst. apply add_field_Ok in A. rewrite A. reflexivity.
Qed.

(** A completed [alter_field] on two fields with a storage type is the
    remake, when the test asks for it, followed by the plan on the field
    the remake leaves as the old one. *)
Lemma alter_field_Ok_plan E dj lib_str float_repr model strict
    old_field new_field t u t' :
  db_type old_field <> None ->
  db_type new_field <> None ->
  alter_field E dj lib_str float_repr model strict old_field new_field t
  = Ok u t' ->
  exists t0 rebuild alter_incoming,
    (if needs_remaking dj old_field new_field
     then alterFieldDataTypeByRemaking E dj model old_field new_field strict t
          = Ok (plan_old_field dj old_field new_field, new_field) t0
     else t0 = t)
    /\ alter_field_from_flags E dj lib_str float_repr model strict
         (plan_old_field dj old_field new_field) new_field rebuild alter_incoming t0
       = Ok u t'.
Proof.
  intros TO TN R. unfold alter_field in R.
  apply bind_Ok_inv in R. destruct R as [rc [t1 [RC R]]].
  apply rel_condition_of_Ok in RC. subst t1.
  destruct (db_type old_field) as [a|]; [|congruence].
  destruct (db_type new_field) as [b|]; [|congruence].
  cbn [opt_is_None andb orb] in R. unfold plan_old_field.
  destruct (needs_remaking dj old_field new_field).
  - apply bind_Ok_inv in R. destruct R as [fields [t0 [RM R]]].
    pose proof (remake_Ok _ _ _ _ _ _ _ _ _ RM) as Q. subst fields.
    exists t0. eexists. eexists. split; [exact RM | exact R].
  - exists t, false, false. split; [reflexivity | exact R].
Qed.

Lemma opt_string_neq_refl (a : option string) : opt_string_neq a a = false.
Proof. destruct a; simpl; [rewrite String.eqb_refl|]; reflexivity. Qed.

(** After a remake the plan compares the new field with a copy of itself
    under another column. *)
Lemma plan_old_field_remade dj old_field new_field :
  needs_remaking dj old_field new_field = true ->
  let subject := plan_old_field dj old_field new_field in
  db_type subject = db_type new_field
  /\ default subject = default new_field
  /\ effective_default subject = effective_default new_field.
Proof.
  intros NM. unfold plan_old_field. rewrite NM.
  unfold added_field, temporary_field.
  destruct (is_auto_created_link _ _); repeat split.
Qed.

(** ** The default *)

Lemma from_flags_default E dj lib_str float_repr model strict
    old_field new_field rebuild alter_incoming t u t' :
  alter_field_from_flags E dj lib_str float_repr model strict old_field new_field
    rebuild alter_incoming t = Ok u t' ->
  let tbl := quote_name dj (db_table model) in
  let col := quote_name dj (column new_field) in
  let data_type_changes := opt_string_neq (db_type old_field) (db_type new_field) in
  let nullable_changes := negb (Bool.eqb (null old_field) (null new_field)) in
  let must_change :=
    default_is_not_None old_field && has_default old_field
    && default_neq (value_ne dj) (effective_default old_field)
         (effective_default new_field) in
  let statement :=
    if must_change then
      match effective_default new_field with
      | None =>
          if data_type_changes || nullable_changes then None
          else Some (sql_drop_default tbl col)
      | Some v =>
          Some (sql_alter_column tbl
                  (sql_alter_column_default col
                     (Literal.quote_value lib_str float_repr v)))
      end
    else None in
  exists before after,
    t' = t ++ before
           ++ match statement with None => [] | Some s => [Done s] end
           ++ after
    /\ Forall (fun ev => is_set_default (stmt_of ev) = false
                         /\ is_drop_default (stmt_of ev)
                            && negb data_type_changes = false) before
    /\ Forall (fun ev => is_set_default (stmt_of ev) = false
                         /\ is_drop_default (stmt_of ev) = false) after.
Proof.
  intros R tbl col data_type_changes nullable_changes must_change statement.
  assert (forall t0,
      change_default E dj lib_str float_repr model new_field
        (effective_default new_field) must_change data_type_changes
        nullable_changes t0
      = match statement with
        | None => Ok tt t0
        | Some s => execute E s t0
        end) as Step.
  { intros t0. unfold change_default, statement, prepare_default, qn.
    destruct must_change; [|reflexivity].
    destruct (effective_default new_field); [reflexivity|].
    destruct (data_type_changes || nullable_changes); reflexivity. }
  unfold alter_field_from_flags in R.
  apply bind_Ok_inv in R. destruct R as [[] [t1 [R1 R]]].
  apply bind_Ok_inv in R. destruct R as [[] [t2 [R2 R]]].
  apply bind_Ok_inv in R. destruct R as [[rb ai] [t3 [R3 R]]].
  apply bind_Ok_inv in R. destruct R as [[] [t4 [R4 R]]].
  fold data_type_changes nullable_changes must_change in R4. rewrite Step in R4.
  assert ((drop_steps E dj model strict old_field
             (negb (Bool.eqb (primary_key old_field) (primary_key new_field)))
             (negb (Bool.eqb (unique old_field) (unique new_field)))
             (negb (Bool.eqb (db_index old_field) (db_index new_field)))
             (opt_string_neq (check_of old_field) (check_of new_field))
             (negb (Bool.eqb (null old_field) (null new_field))) ;;
           drop_fk_constraints E dj model old_field) t = Ok tt t2) as R12.
  { unfold bind. rewrite R1. exact R2. }
  destruct (emits_Ok _ _ _ _ _
              (before_default_emits E dj model strict old_field new_field) R12)
    as [e1 [-> F1]].
  destruct (emits_Ok _ _ _ _ _
              (rename_and_retype_emits E dj model old_field new_field rebuild
                 alter_incoming) R3) as [e2 [-> F2]].
  destruct (emits_Ok _ _ _ _ _
              (after_default_emits E dj model old_field new_field (rb, ai)) R)
    as [e3 [-> F3]].
  exists (e1 ++ e2), e3. split; [|split; [apply Forall_app; auto | exact F3]].
  destruct statement as [s|].
  - apply execute_Ok_inv in R4. destruct R4 as [_ ->]. trace_eq.
  - inversion R4; subst. trace_eq.
Qed.

Lemma remake_emits_no_default E dj model old_field new_field strict :
  emits (fun ev => is_set_default (stmt_of ev) = false
                   /\ is_drop_default (stmt_of ev) = false)
    (alterFieldDataTypeByRemaking E dj model old_field new_field strict).
Proof. emits_all. Qed.

(** C7 as stated fails: the old column has no default and the new one has
    the default 5, so the effective defaults differ; [alter_field]
    completes without a statement, the default is not set. *)
Lemma default_added_without_statement :
  ~ (forall (E : Engine) (dj : Django) (lib_str : Literal.PyValue -> string)
            (float_repr : Z -> string) (model : Model) (strict : bool)
            (old_field new_field : Field) (v : Literal.PyValue)
            (t : Trace) (u : unit) (t' : Trace),
        default_neq (value_ne dj) (effective_default old_field)
          (effective_default new_field) = true ->
        effective_default new_field = Some v ->
        alter_field E dj lib_str float_repr model strict old_field new_field t
        = Ok u t' ->
        In (Done (sql_alter_column (quote_name dj (db_table model))
                    (sql_alter_column_default (quote_name dj (column new_field))
                       (Literal.quote_value lib_str float_repr v))))
           (since t t')).
Proof.
  intros H.
  specialize (H Sample.calm Sample.django Sample.no_str Sample.no_repr Sample.T
                false (Sample.field IntegerField "n" "INTEGER")
                (Sample.n_default 5) (Literal.VInt 5) [] tt []
                eq_refl eq_refl eq_refl).
  destruct H.
Qed.

(** C7, amended.  Take a completed [alter_field] on two fields with a
    storage type, and the field the plan has as the old one: the old field,
    or the temporary column after a remake.  The default must change when
    that field's default is not [None], it has a default, and its effective
    default differs from the new one by [!=].  The trace is then what was
    issued before the default step (no default set; a default dropped only
    by a change of storage type), the statement of that step, and what was
    issued after it (no default set or dropped).  The step issues nothing
    when the default need not change; when it must, it issues nothing if the
    new default is absent and the storage type or the nullability changes,
    the drop of the default if the new default is absent otherwise, and the
    statement that sets the default to the text [quote_value] gives for the
    new default if there is one.  After a remake the field compared is a
    copy of the new field: same default, same effective default, same
    storage type. *)
Theorem default_change (E : Engine) (dj : Django)
    (lib_str : Literal.PyValue -> string) (float_repr : Z -> string)
    (model : Model) (strict : bool) (old_field new_field : Field)
    (t : Trace) (u : unit) (t' : Trace) :
  db_type old_field <> None ->
  db_type new_field <> None ->
  alter_field E dj lib_str float_repr model strict old_field new_field t
  = Ok u t' ->
  let subject := plan_old_field dj old_field new_field in
  let tbl := quote_name dj (db_table model) in
  let col := quote_name dj (column new_field) in
  let data_type_changes := opt_string_neq (db_type subject) (db_type new_field) in
  let nullable_changes := negb (Bool.eqb (null subject) (null new_field)) in
  let must_change :=
    default_is_not_None subject && has_default subject
    && default_neq (value_ne dj) (effective_default subject)
         (effective_default new_field) in
  let statement :=
    if must_change then
      match effective_default new_field with
      | None =>
          if data_type_changes || nullable_changes then None
          else Some (sql_drop_default tbl col)
      | Some v =>
          Some (sql_alter_column tbl
                  (sql_alter_column_default col
                     (Literal.quote_value lib_str float_repr v)))
      end
    else None in
  (exists before after,
     t' = t ++ before
            ++ match statement with None => [] | Some s => [Done s] end
            ++ after
     /\ Forall (fun ev => is_set_default (stmt_of ev) = false
                          /\ is_drop_default (stmt_of ev)
                             && negb data_type_changes = false) before
     /\ Forall (fun ev => is_set_default (stmt_of ev) = false
                          /\ is_drop_default (stmt_of ev) = false) after)
  /\ (needs_remaking dj old_field new_field = false -> subject = old_field)
  /\ (needs_remaking dj old_field new_field = true ->
      default subject = default new_field
      /\ effective_default subject = effective_default new_field
      /\ data_type_changes = false).
Proof.
  intros TO TN R subject tbl col data_type_changes nullable_changes must_change
    statement.
  split; [|split].
  - destruct (alter_field_Ok_plan _ _ _ _ _ _ _ _ _ _ _ TO TN R)
      as [t0 [rb [ai [P F]]]].
    apply from_flags_default in F. cbv zeta in F.
    fold subject tbl col data_type_changes nullable_changes must_change in F.
    fold statement in F.
    destruct F as [before [after [-> [F1 F2]]]].
    destruct (needs_remaking dj old_field new_field).
    + destruct (emits_Ok _ _ _ _ _
                  (remake_emits_no_default E dj model old_field new_field strict) P)
        as [e0 [-> F0]].
      exists (e0 ++ before), after. split; [trace_eq|]. split; [|exact F2].
      apply Forall_app. split; [|exact F1].
      eapply Forall_impl; [|exact F0]. intros ev [A B]. rewrite B. auto.
    + subst t0. exists before, after. auto.
  - intros NM. unfold subject, plan_old_field. rewrite NM. reflexivity.
  - intros NM. destruct (plan_old_field_remade dj old_field new_field NM)
      as [A [B C]].
    fold subject in A, B, C. repeat split; try assumption.
    unfold data_type_changes. rewrite A. apply opt_string_neq_refl.
Qed.

(** The amended C7 on the column [n] whose default goes from 0 to 5: one
    statement, which sets the default to the text of 5. *)
Lemma default_change_witness :
  alter_field Sample.calm Sample.django Sample.no_str Sample.no_repr Sample.T
    false (Sample.n_default 0) (Sample.n_default 5) []
  = Ok tt [Done (sql_alter_column "[T]" (sql_alter_column_default "[n]" "5"))]
  /\ exists before after,
       [Done (sql_alter_column "[T]" (sql_alter_column_default "[n]" "5"))]
       = [] ++ before
            ++ [Done (sql_alter_column "[T]" (sql_alter_column_default "[n]" "5"))]
            ++ after.
Proof.
  split; [reflexivity|].
  destruct (default_change Sample.calm Sample.django Sample.no_str Sample.no_repr
              Sample.T false (Sample.n_default 0) (Sample.n_default 5) [] tt
              [Done (sql_alter_column "[T]" (sql_alter_column_default "[n]" "5"))]
              ltac:(discriminate) ltac:(discriminate) eq_refl)
    as [[before [after [Q _]]] _].
  exists before, after. exact Q.
Defined.

(** ** The conversion to an identity column *)

Lemma alter_field_Ok_types E dj lib_str float_repr model strict
    old_field new_field t u t' :
  alter_field E dj lib_str float_repr model strict old_field new_field t
  = Ok u t' ->
  opt_string_neq (db_type old_field) (db_type new_field) = true ->
  db_type old_field <> None /\ db_type new_field <> None.
Proof.
  intros R D. unfold alter_field in R.
  apply bind_Ok_inv in R. destruct R as [rc [t1 [_ R]]].
  destruct (db_type old_field), (db_type new_field); simpl in *;
    try discriminate; split; discriminate.
Qed.

(** A plan that changes the storage type towards an AutoField *)
Lemma from_flags_identity E dj lib_str float_repr model strict
    old_field new_field rebuild alter_incoming t u t' :
  opt_string_neq (db_type old_field) (db_type new_field) = true ->
  isinstance dj new_field AutoField = true ->
  alter_field_from_flags E dj lib_str float_repr model strict old_field
    new_field rebuild alter_incoming t = Ok u t' ->
  let tbl := quote_name dj (db_table model) in
  let col := quote_name dj (column new_field) in
  let start := fun before =>
    match select_max E before col tbl with
    | None => 1%Z
    | Some m => (m + 1)%Z
    end in
  let widen :=
    if isinstance dj old_field IntegerField then []
    else [Done (sql_alter_column tbl (sql_alter_column_type col "Integer"))] in
  exists issued after,
    t' = (t ++ issued) ++ widen
           ++ [Done (sql_alter_column tbl
                       (sql_alter_column_type_from_int_to_auto col
                          (start (t ++ issued))))]
           ++ after
    /\ Forall (fun ev => is_identity (stmt_of ev) = false) issued
    /\ Forall (fun ev => is_identity (stmt_of ev) = false) after.
Proof.
  intros D A R tbl col start widen.
  set (P := fun ev => is_identity (stmt_of ev) = false).
  unfold alter_field_from_flags in R.
  apply bind_Ok_inv in R. destruct R as [[] [t1 [R1 R]]].
  apply bind_Ok_inv in R. destruct R as [[] [t2 [R2 R]]].
  apply bind_Ok_inv in R. destruct R as [[rb ai] [t3 [R3 R]]].
  unfold rename_and_retype in R3. rewrite D, orb_true_r in R3.
  apply bind_Ok_inv in R3. destruct R3 as [rb' [ta [Ra R3]]].
  apply bind_Ok_inv in R3. destruct R3 as [cs [ta' [Rq R3]]].
  inversion Rq; subst ta' cs. clear Rq.
  apply bind_Ok_inv in R3. destruct R3 as [d [tb [Rb R3]]].
  apply bind_Ok_inv in R3. destruct R3 as [[] [tc [Rc R3]]].
  apply bind_Ok_inv in R3. destruct R3 as [ai' [td [Rd R3]]].
  apply bind_Ok_inv in Rd. destruct Rd as [[] [td' [Rd Rd']]].
  inversion Rd'; subst td' ai'. clear Rd'.
  apply bind_Ok_inv in R3. destruct R3 as [[] [te [Re R3]]].
  inversion R3; subst t3 rb ai. clear R3.
  (* the type change *)
  unfold change_field_type in Rd. rewrite A in Rd.
  apply bind_Ok_inv in Rd. destruct Rd as [[] [tc' [Rdd Rd]]].
  apply bind_Ok_inv in Rd. destruct Rd as [mx [tq [Rq Rd]]].
  inversion Rq; subst tq mx. clear Rq.
  apply bind_Ok_inv in Rd. destruct Rd as [[] [tw [Rw Rd]]].
  apply execute_Ok_inv in Rd. destruct Rd as [_ ->].
  (* what came before *)
  eapply (emits_Ok P) in R1; [|unfold P; emits_all]. destruct R1 as [e1 [-> F1]].
  eapply (emits_Ok P) in R2; [|unfold P; emits_all]. destruct R2 as [e2 [-> F2]].
  eapply (emits_Ok P) in Ra; [|unfold P; emits_all]. destruct Ra as [e3 [-> F3]].
  eapply (emits_Ok P) in Rb; [|unfold P; emits_all]. destruct Rb as [e4 [-> F4]].
  eapply (emits_Ok P) in Rc; [|unfold P; emits_all]. destruct Rc as [e5 [-> F5]].
  eapply (emits_Ok P) in Rdd; [|unfold P; emits_all]. destruct Rdd as [e6 [-> F6]].
  (* what came after *)
  eapply (emits_Ok P) in Re; [|unfold P; emits_all]. destruct Re as [e7 [-> F7]].
  eapply (emits_Ok P) in R;
    [|unfold P; emits_all; destruct (null new_field); reflexivity].
  destruct R as [e8 [-> F8]].
  exists (e1 ++ e2 ++ e3 ++ e4 ++ e5 ++ e6), (e7 ++ e8).
  split; [|split; [repeat (apply Forall_app; split; try assumption)
                  | apply Forall_app; auto]].
  assert (((((((t ++ e1) ++ e2) ++ e3) ++ e4) ++ e5) ++ e6)
          = t ++ e1 ++ e2 ++ e3 ++ e4 ++ e5 ++ e6) as Q by trace_eq.
  rewrite Q in *. clear Q.
  set (before := t ++ e1 ++ e2 ++ e3 ++ e4 ++ e5 ++ e6) in *.
  unfold widen, start, tbl, col, qn in *.
  destruct (isinstance dj old_field IntegerField); simpl in Rw.
  + inversion Rw; subst tw.
    destruct (select_max E before _ _); trace_eq.
  + apply execute_Ok_inv in Rw. destruct Rw as [_ ->].
    destruct (select_max E before _ _); trace_eq.
Qed.

(** A plan between two fields of the same storage type converts nothing. *)
Lemma from_flags_no_identity E dj lib_str float_repr model strict
    old_field new_field rebuild alter_incoming :
  opt_string_neq (db_type old_field) (db_type new_field) = false ->
  emits (fun ev => is_identity (stmt_of ev) = false)
    (alter_field_from_flags E dj lib_str float_repr model strict old_field
       new_field rebuild alter_incoming).
Proof.
  intros D. unfold alter_field_from_flags, rename_and_retype.
  rewrite D, orb_false_r. cbv iota.
  emits_all; destruct (null new_field); reflexivity.
Qed.

Lemma remake_emits_no_identity E dj model old_field new_field strict :
  emits (fun ev => is_identity (stmt_of ev) = false)
    (alterFieldDataTypeByRemaking E dj model old_field new_field strict).
Proof. emits_all. Qed.

(** C4 as stated fails: a large-text column becomes an identity column;
    the storage types differ, so [alter_field] remakes the column, and the
    plan that follows finds the types equal: it completes without an
    identity conversion. *)
Lemma text_to_auto_is_not_converted :
  ~ (forall (E : Engine) (dj : Django) (lib_str : Literal.PyValue -> string)
            (float_repr : Z -> string) (model : Model) (strict : bool)
            (old_field new_field : Field) (t : Trace) (u : unit) (t' : Trace),
        opt_string_neq (db_type old_field) (db_type new_field) = true ->
        isinstance dj new_field AutoField = true ->
        alter_field E dj lib_str float_repr model strict old_field new_field t
        = Ok u t' ->
        exists start,
          In (Done (sql_alter_column (quote_name dj (db_table model))
                      (sql_alter_column_type_from_int_to_auto
                         (quote_name dj (column new_field)) start)))
             (since t t')).
Proof.
  intros H.
  specialize (H Sample.calm Sample.django Sample.no_str Sample.no_repr Sample.T
                false Sample.text_id Sample.auto_id [] tt
                (trace_of (alter_field Sample.calm Sample.django Sample.no_str
                             Sample.no_repr Sample.T false Sample.text_id
                             Sample.auto_id []))
                eq_refl eq_refl ltac:(vm_compute; reflexivity)).
  destruct H as [start I]. vm_compute in I.
  repeat (destruct I as [I|I]; [discriminate|]). exact I.
Qed.

(** C4, amended.  Take a completed [alter_field] between two fields whose
    storage types differ, towards an AutoField.  When the change goes
    through the remake (the old field is an AutoField or a TextField), the
    trace holds no identity-conversion statement.  Otherwise it holds one;
    the start value of that statement is one more than the [MAX] of the
    column the engine gives just before, and 1 when the engine gives none (an
    empty table); the statement just before it is the change of the column
    to [Integer] when the old field is not an IntegerField, and that
    statement is not issued when it is.  On an engine that refuses nothing
    the type change issues exactly: the drop of the old default if there is
    one, the widening if the old field is not an IntegerField, the
    conversion. *)
Theorem identity_conversion (E : Engine) (dj : Django)
    (lib_str : Literal.PyValue -> string) (float_repr : Z -> string)
    (model : Model) (strict : bool) (old_field new_field : Field)
    (t : Trace) (u : unit) (t' : Trace) :
  opt_string_neq (db_type old_field) (db_type new_field) = true ->
  isinstance dj new_field AutoField = true ->
  alter_field E dj lib_str float_repr model strict old_field new_field t
  = Ok u t' ->
  let tbl := quote_name dj (db_table model) in
  let col := quote_name dj (column new_field) in
  let start := fun before =>
    match select_max E before col tbl with
    | None => 1%Z
    | Some m => (m + 1)%Z
    end in
  let widen :=
    if isinstance dj old_field IntegerField then []
    else [Done (sql_alter_column tbl (sql_alter_column_type col "Integer"))] in
  let drop_default :=
    if default_is_not_None old_field && has_default old_field
       && negb (opt_is_None (effective_default old_field))
    then [Done (sql_drop_default tbl col)] else [] in
  needs_remaking dj old_field new_field
  = (isinstance dj old_field AutoField || isinstance dj old_field TextField)
  /\ (if needs_remaking dj old_field new_field
      then Forall (fun ev => is_identity (stmt_of ev) = false) (since t t')
      else exists issued after,
             t' = (t ++ issued) ++ widen
                    ++ [Done (sql_alter_column tbl
                                (sql_alter_column_type_from_int_to_auto col
                                   (start (t ++ issued))))]
                    ++ after
             /\ Forall (fun ev => is_identity (stmt_of ev) = false) issued
             /\ Forall (fun ev => is_identity (stmt_of ev) = false) after)
  /\ ((forall t0 s, refuses E t0 s = false) ->
      forall t0,
        change_field_type E dj model old_field new_field
          (effective_default old_field) t0
        = Ok tt ((t0 ++ drop_default) ++ widen
                   ++ [Done (sql_alter_column tbl
                               (sql_alter_column_type_from_int_to_auto col
                                  (start (t0 ++ drop_default))))])).
Proof.
  intros D A R tbl col start widen drop_default.
  destruct (alter_field_Ok_types _ _ _ _ _ _ _ _ _ _ _ R D) as [TO TN].
  split; [|split].
  - unfold needs_remaking. rewrite D. cbn [andb].
    assert (isinstance dj new_field TextField = false) as ->.
    { unfold isinstance in *. destruct (cls new_field); simpl in *;
        rewrite ?andb_false_r in *; try discriminate; reflexivity. }
    apply orb_false_r.
  - destruct (alter_field_Ok_plan _ _ _ _ _ _ _ _ _ _ _ TO TN R)
      as [t0 [rb [ai [P F]]]].
    destruct (needs_remaking dj old_field new_field) eqn:NM.
    + destruct (emits_Ok _ _ _ _ _
                  (remake_emits_no_identity E dj model old_field new_field strict)
                  P) as [e0 [-> F0]].
      destruct (plan_old_field_remade dj old_field new_field NM) as [T _].
      eapply emits_Ok in F.
      2:{ apply from_flags_no_identity. rewrite T. apply opt_string_neq_refl. }
      destruct F as [e1 [-> F1]].
      rewrite <- app_assoc, since_app. apply Forall_app. auto.
    + subst t0. unfold plan_old_field in F. rewrite NM in F.
      exact (from_flags_identity _ _ _ _ _ _ _ _ _ _ _ _ _ D A F).
  - intros NR t0. unfold change_field_type, drop_default, widen, start, tbl, col, qn.
    rewrite A. unfold bind, ask, execute, ret.
    destruct (default_is_not_None old_field && has_default old_field
              && negb (opt_is_None (effective_default old_field)));
      destruct (isinstance dj old_field IntegerField); simpl;
      rewrite ?NR; simpl; rewrite ?NR, ?app_nil_r;
      match goal with
      | |- context [select_max ?e ?a ?b ?c] => destruct (select_max e a b c)
      end; f_equal; trace_eq.
Qed.

(** The amended C4 on an integer column that becomes an identity column:
    with 41 as greatest value the conversion starts at 42, on an empty
    table it starts at 1, and nothing is widened. *)
Lemma identity_conversion_witness :
  (exists issued after,
     [Done (sql_alter_column "[T]"
              (sql_alter_column_type_from_int_to_auto "[id]" 42))]
     = ([] ++ issued)
         ++ [Done (sql_alter_column "[T]"
                     (sql_alter_column_type_from_int_to_auto "[id]" 42))]
         ++ after)
  /\ alter_field Sample.calm Sample.django Sample.no_str Sample.no_repr Sample.T
       false Sample.integer_id Sample.auto_id []
     = Ok tt [Done (sql_alter_column "[T]"
                      (sql_alter_column_type_from_int_to_auto "[id]" 1))].
Proof.
  split; [|reflexivity].
  destruct (identity_conversion Sample.max_41 Sample.django Sample.no_str
              Sample.no_repr Sample.T false Sample.integer_id Sample.auto_id
              [] tt
              [Done (sql_alter_column "[T]"
                       (sql_alter_column_type_from_int_to_auto "[id]" 42))]
              eq_refl eq_refl eq_refl) as [_ [[issued [after [Q _]]] _]].
  exists issued, after. exact Q.
Defined.

(** ** The drops *)

Lemma for_each_execute_Ok (E : Engine) {X} (xs : list X) (f : X -> Stmt) t u t' :
  for_each xs (fun x => execute E (f x)) t = Ok u t' ->
  t' = t ++ map (fun x => Done (f x)) xs.
Proof.
  destruct (for_each_execute_run E xs f t) as [-> | [b [x [a [_ ->]]]]];
    intros H; inversion H; reflexivity.
Qed.

Lemma for_each_execute_no_ValueError (E : Engine) {X} (xs : list X)
    (f : X -> Stmt) t msg t' :
  for_each xs (fun x => execute E (f x)) t <> Raise (ValueError msg) t'.
Proof.
  destruct (for_each_execute_run E xs f t) as [-> | [b [x [a [_ ->]]]]];
    discriminate.
Qed.

Section DropRun.

Variable E : Engine.
Variable dj : Django.
Variable model : Model.
Variable strict : bool.
Variable old_field : Field.
Variables (alter_field_primary_key alter_field_unique alter_field_index
           alter_field_check_constraint alter_field_nullable : bool).
Variable t : Trace.

Let tbl : string := quote_name dj (db_table model).
Let names (t0 : Trace) (k : ConstraintKind) : list string :=
  constraint_names E t0 (db_table model) [column old_field] k.
Let do_pk : bool := alter_field_primary_key && primary_key old_field.
Let do_unique : bool :=
  (alter_field_unique && unique old_field)
  || (unique old_field && alter_field_primary_key && negb (primary_key old_field)).
Let do_index : bool := alter_field_index && db_index old_field.
Let do_check : bool := alter_field_check_constraint && truthy (check_of old_field).
Let do_null : bool := alter_field_nullable && null old_field.
Let e1 : Trace := if do_pk then [Done (sql_drop_pk tbl)] else [].
Let t1 : Trace := t ++ e1.
Let e2 : Trace :=
  if do_unique
  then map (fun n => Done (sql_delete_unique tbl n)) (names t1 Unique) else [].
Let t2 : Trace := t1 ++ e2.
Let e3 : Trace :=
  if do_index
  then map (fun n => Done (sql_delete_index None n)) (names t2 Index) else [].
Let t3 : Trace := t2 ++ e3.
Let e4 : Trace :=
  if do_check
  then map (fun n => Done (sql_delete_check tbl n)) (names t3 Check) else [].
Let t4 : Trace := t3 ++ e4.
Let e5 : Trace :=
  if do_null
  then [Done (sql_alter_column tbl
                (sql_alter_column_not_null (quote_name dj (column old_field))))]
  else [].
Let bad_pk : bool :=
  strict && do_pk && (List.length (names t PrimaryKey) =? 0)%nat.
Let bad_unique : bool :=
  strict && do_unique && negb (List.length (names t1 Unique) =? 1)%nat.
Let bad_index : bool :=
  strict && do_index && negb (List.length (names t2 Index) =? 1)%nat.
Let bad_check : bool :=
  strict && do_check && negb (List.length (names t3 Check) =? 1)%nat.

Local Abbreviation pk_step :=
  (remove_primary_key E dj model strict old_field alter_field_primary_key).
Local Abbreviation unique_step :=
  (remove_unique E dj model strict old_field alter_field_unique
     alter_field_primary_key).
Local Abbreviation index_step :=
  (remove_index E model strict old_field alter_field_index).
Local Abbreviation check_step :=
  (remove_check E dj model strict old_field alter_field_check_constraint).
Local Abbreviation null_step :=
  (remove_nullability E dj model old_field alter_field_nullable).

Lemma pk_step_run :
  (bad_pk = true /\ exists msg, pk_step t = Raise (ValueError msg) t)
  \/ (bad_pk = false
      /\ pk_step t = if do_pk then execute E (sql_drop_pk tbl) t else Ok tt t).
Proof.
  unfold remove_primary_key, names_on, bad_pk, qn. fold do_pk. fold tbl.
  destruct do_pk; [|right; rewrite andb_false_r; split; reflexivity].
  destruct strict; [|right; split; reflexivity].
  unfold bind, ask. fold (names t PrimaryKey). simpl.
  destruct (List.length (names t PrimaryKey) =? 0)%nat.
  - left. split; [reflexivity|]. eexists. reflexivity.
  - right. split; reflexivity.
Qed.

Lemma unique_step_run :
  (bad_unique = true /\ exists msg, unique_step t1 = Raise (ValueError msg) t1)
  \/ (bad_unique = false
      /\ unique_step t1
         = if do_unique
           then for_each (names t1 Unique)
                  (fun n => execute E (sql_delete_unique tbl n)) t1
           else Ok tt t1).
Proof.
  unfold remove_unique, names_on, bad_unique, qn. fold do_unique. fold tbl.
  destruct do_unique; [|right; rewrite andb_false_r; split; reflexivity].
  unfold bind, ask. fold (names t1 Unique). rewrite andb_true_r.
  destruct (strict && negb (List.length (names t1 Unique) =? 1)%nat).
  - left. split; [reflexivity|]. eexists. reflexivity.
  - right. split; reflexivity.
Qed.

Lemma index_step_run :
  (bad_index = true /\ exists msg, index_step t2 = Raise (ValueError msg) t2)
  \/ (bad_index = false
      /\ index_step t2
         = if do_index
           then for_each (names t2 Index)
                  (fun n => execute E (sql_delete_index None n)) t2
           else Ok tt t2).
Proof.
  unfold remove_index, names_on, bad_index. fold do_index.
  destruct do_index; [|right; rewrite andb_false_r; split; reflexivity].
  unfold bind, ask. fold (names t2 Index). rewrite andb_true_r.
  destruct (strict && negb (List.length (names t2 Index) =? 1)%nat).
  - left. split; [reflexivity|]. eexists. reflexivity.
  - right. split; reflexivity.
Qed.

Lemma check_step_run :
  (bad_check = true /\ exists msg, check_step t3 = Raise (ValueError msg) t3)
  \/ (bad_check = false
      /\ check_step t3
         = if do_check
           then for_each (names t3 Check)
                  (fun n => execute E (sql_delete_check tbl n)) t3
           else Ok tt t3).
Proof.
  unfold remove_check, names_on, bad_check, qn. fold do_check. fold tbl.
  destruct do_check; [|right; rewrite andb_false_r; split; reflexivity].
  unfold bind, ask. fold (names t3 Check). rewrite andb_true_r.
  destruct (strict && negb (List.length (names t3 Check) =? 1)%nat).
  - left. split; [reflexivity|]. eexists. reflexivity.
  - right. split; reflexivity.
Qed.

Lemma null_step_run :
  null_step t4
  = if do_null
    then execute E (sql_alter_column tbl
                      (sql_alter_column_not_null (quote_name dj (column old_field))))
           t4
    else Ok tt t4.
Proof. unfold remove_nullability, qn. fold do_null. fold tbl. destruct do_null; reflexivity. Qed.

Local Abbreviation steps :=
  (drop_steps E dj model strict old_field alter_field_primary_key
     alter_field_unique alter_field_index alter_field_check_constraint
     alter_field_nullable).

(** The first step that completes leaves [t1], and so on. *)
Lemma pk_step_Ok u t' : pk_step t = Ok u t' -> t' = t1 /\ bad_pk = false.
Proof.
  destruct pk_step_run as [[_ [msg ->]] | [B ->]]; [discriminate|].
  unfold t1, e1. destruct do_pk; intros H.
  - apply execute_Ok_inv in H. destruct H as [_ ->]. auto.
  - inversion H. rewrite app_nil_r. auto.
Qed.

Lemma unique_step_Ok u t' : unique_step t1 = Ok u t' -> t' = t2 /\ bad_unique = false.
Proof.
  destruct unique_step_run as [[_ [msg ->]] | [B ->]]; [discriminate|].
  unfold t2, e2. destruct do_unique; intros H.
  - apply for_each_execute_Ok in H. auto.
  - inversion H. rewrite app_nil_r. auto.
Qed.

Lemma index_step_Ok u t' : index_step t2 = Ok u t' -> t' = t3 /\ bad_index = false.
Proof.
  destruct index_step_run as [[_ [msg ->]] | [B ->]]; [discriminate|].
  unfold t3, e3. destruct do_index; intros H.
  - apply for_each_execute_Ok in H. auto.
  - inversion H. rewrite app_nil_r. auto.
Qed.

Lemma check_step_Ok u t' : check_step t3 = Ok u t' -> t' = t4 /\ bad_check = false.
Proof.
  destruct check_step_run as [[_ [msg ->]] | [B ->]]; [discriminate|].
  unfold t4, e4. destruct do_check; intros H.
  - apply for_each_execute_Ok in H. auto.
  - inversion H. rewrite app_nil_r. auto.
Qed.

Lemma null_step_Ok u t' : null_step t4 = Ok u t' -> t' = t4 ++ e5.
Proof.
  rewrite null_step_run. unfold e5. destruct do_null; intros H.
  - apply execute_Ok_inv in H. tauto.
  - inversion H. rewrite app_nil_r. reflexivity.
Qed.

(** A completed run of the five steps *)
Lemma drop_steps_Ok u t' :
  steps t = Ok u t' ->
  t' = t4 ++ e5
  /\ bad_pk = false /\ bad_unique = false /\ bad_index = false
  /\ bad_check = false.
Proof.
  unfold drop_steps. intros R.
  apply bind_Ok_inv in R. destruct R as [[] [s1 [R1 R]]].
  apply pk_step_Ok in R1. destruct R1 as [-> B1].
  apply bind_Ok_inv in R. destruct R as [[] [s2 [R2 R]]].
  apply unique_step_Ok in R2. destruct R2 as [-> B2].
  apply bind_Ok_inv in R. destruct R as [[] [s3 [R3 R]]].
  apply index_step_Ok in R3. destruct R3 as [-> B3].
  apply bind_Ok_inv in R. destruct R as [[] [s4 [R4 R]]].
  apply check_step_Ok in R4. destruct R4 as [-> B4].
  apply null_step_Ok in R. auto.
Qed.

(** A run that ends on [ValueError] *)
Lemma drop_steps_ValueError msg t' :
  steps t = Raise (ValueError msg) t' ->
  (bad_pk = true /\ t' = t)
  \/ (bad_pk = false /\ bad_unique = true /\ t' = t1)
  \/ (bad_pk = false /\ bad_unique = false /\ bad_index = true /\ t' = t2)
  \/ (bad_pk = false /\ bad_unique = false /\ bad_index = false
      /\ bad_check = true /\ t' = t3).
Proof.
  unfold drop_steps. intros R.
  apply bind_Raise_inv in R. destruct R as [R|[[] [s1 [R1 R]]]].
  { destruct pk_step_run as [[B [m Q]] | [B Q]]; rewrite Q in R.
    - inversion R. left. auto.
    - destruct do_pk; [|discriminate].
      apply execute_Raise_inv in R. destruct R as [_ [X _]]. discriminate. }
  apply pk_step_Ok in R1. destruct R1 as [-> B1].
  apply bind_Raise_inv in R. destruct R as [R|[[] [s2 [R2 R]]]].
  { destruct unique_step_run as [[B [m Q]] | [B Q]]; rewrite Q in R.
    - inversion R. right. left. auto.
    - destruct do_unique; [|discriminate].
      exfalso. exact (for_each_execute_no_ValueError _ _ _ _ _ _ R). }
  apply unique_step_Ok in R2. destruct R2 as [-> B2].
  apply bind_Raise_inv in R. destruct R as [R|[[] [s3 [R3 R]]]].
  { destruct index_step_run as [[B [m Q]] | [B Q]]; rewrite Q in R.
    - inversion R. right. right. left. auto.
    - destruct do_index; [|discriminate].
      exfalso. exact (for_each_execute_no_ValueError _ _ _ _ _ _ R). }
  apply index_step_Ok in R3. destruct R3 as [-> B3].
  apply bind_Raise_inv in R. destruct R as [R|[[] [s4 [R4 R]]]].
  { destruct check_step_run as [[B [m Q]] | [B Q]]; rewrite Q in R.
    - inversion R. right. right. right. auto 6.
    - destruct do_check; [|discriminate].
      exfalso. exact (for_each_execute_no_ValueError _ _ _ _ _ _ R). }
  apply check_step_Ok in R4. destruct R4 as [-> B4].
  rewrite null_step_run in R. destruct do_null; [|discriminate].
  apply execute_Raise_inv in R. destruct R as [_ [X _]]. discriminate.
Qed.

Hypothesis accepts : forall t0 s, refuses E t0 s = false.

(** On an engine that refuses nothing the run is decided by the counts. *)
Lemma drop_steps_calm :
  (bad_pk = true -> exists msg, steps t = Raise (ValueError msg) t)
  /\ (bad_pk = false -> bad_unique = true ->
      exists msg, steps t = Raise (ValueError msg) t1)
  /\ (bad_pk = false -> bad_unique = false -> bad_index = true ->
      exists msg, steps t = Raise (ValueError msg) t2)
  /\ (bad_pk = false -> bad_unique = false -> bad_index = false ->
      bad_check = true -> exists msg, steps t = Raise (ValueError msg) t3)
  /\ (bad_pk = false -> bad_unique = false -> bad_index = false ->
      bad_check = false -> steps t = Ok tt (t4 ++ e5)).
Proof.
  assert (bad_pk = false -> pk_step t = Ok tt t1) as S1.
  { intros B. destruct pk_step_run as [[B' _] | [_ ->]]; [congruence|].
    unfold t1, e1. destruct do_pk.
    - apply execute_accepted, accepts.
    - rewrite app_nil_r. reflexivity. }
  assert (bad_unique = false -> unique_step t1 = Ok tt t2) as S2.
  { intros B. destruct unique_step_run as [[B' _] | [_ ->]]; [congruence|].
    unfold t2, e2. destruct do_unique.
    - apply for_each_execute_all. intros; apply accepts.
    - rewrite app_nil_r. reflexivity. }
  assert (bad_index = false -> index_step t2 = Ok tt t3) as S3.
  { intros B. destruct index_step_run as [[B' _] | [_ ->]]; [congruence|].
    unfold t3, e3. destruct do_index.
    - apply for_each_execute_all. intros; apply accepts.
    - rewrite app_nil_r. reflexivity. }
  assert (bad_check = false -> check_step t3 = Ok tt t4) as S4.
  { intros B. destruct check_step_run as [[B' _] | [_ ->]]; [congruence|].
    unfold t4, e4. destruct do_check.
    - apply for_each_execute_all. intros; apply accepts.
    - rewrite app_nil_r. reflexivity. }
  unfold drop_steps, bind. refine (conj _ (conj _ (conj _ (conj _ _)))).
  - intros B. destruct pk_step_run as [[_ [msg ->]] | [B' _]]; [eauto | congruence].
  - intros B1 B. rewrite (S1 B1).
    destruct unique_step_run as [[_ [msg ->]] | [B' _]]; [eauto | congruence].
  - intros B1 B2 B. rewrite (S1 B1), (S2 B2).
    destruct index_step_run as [[_ [msg ->]] | [B' _]]; [eauto | congruence].
  - intros B1 B2 B3 B. rewrite (S1 B1), (S2 B2), (S3 B3).
    destruct check_step_run as [[_ [msg ->]] | [B' _]]; [eauto | congruence].
  - intros B1 B2 B3 B4. rewrite (S1 B1), (S2 B2), (S3 B3), (S4 B4).
    rewrite null_step_run. unfold e5. destruct do_null.
    + apply execute_accepted, accepts.
    + rewrite app_nil_r. reflexivity.
Qed.

End DropRun.

(** C3, amended.  A completed [alter_field] on two fields with a storage
    type runs, after the remake if there is one, the five steps of
    [drop_steps] on the field the plan has as the old one, with the flags
    that compare it with the new field; and without a remake a run of the
    steps that raises makes [alter_field] raise the same error with the same
    trace.  The steps run in the order primary key, unique constraints,
    indexes, check constraints, NOT NULL.  The primary key, the indexes and
    the check constraints are dropped when their flag is set and the old
    field had the property; the unique constraints are dropped when the
    uniqueness flag is set and the old field was unique, and also when the
    old field was unique without being the primary key and the primary-key
    flag is set; the fifth step sets the old column NOT NULL when the
    nullability flag is set and the old field was nullable.  A completed run
    issued exactly: the drop of the primary key, the drop of every unique
    constraint the catalog names at that point, of every index, of every
    check constraint, and the NOT NULL statement, each part only if its step
    is due, all accepted; and with [strict] every count was right.  A run
    that ends on [ValueError] is a run with [strict] in which the count of a
    due step is wrong (no primary key; not exactly one unique constraint,
    index, check constraint) after the steps before it have completed; its
    trace holds those steps and no statement of the step that raised.  On
    an engine that refuses nothing the run ends that way at the first wrong
    count and completes otherwise. *)
Theorem drop_steps_order (E : Engine) (dj : Django)
    (lib_str : Literal.PyValue -> string) (float_repr : Z -> string)
    (model : Model) (strict : bool) :
  (forall old_field new_field t,
     let subject := plan_old_field dj old_field new_field in
     let steps :=
       drop_steps E dj model strict subject
         (negb (Bool.eqb (primary_key subject) (primary_key new_field)))
         (negb (Bool.eqb (unique subject) (unique new_field)))
         (negb (Bool.eqb (db_index subject) (db_index new_field)))
         (opt_string_neq (check_of subject) (check_of new_field))
         (negb (Bool.eqb (null subject) (null new_field))) in
     db_type old_field <> None ->
     db_type new_field <> None ->
     (forall u t',
        alter_field E dj lib_str float_repr model strict old_field new_field t
        = Ok u t' ->
        exists t0 td rest,
          (if needs_remaking dj old_field new_field
           then alterFieldDataTypeByRemaking E dj model old_field new_field
                  strict t = Ok (subject, new_field) t0
           else t0 = t)
          /\ steps t0 = Ok tt td /\ t' = td ++ rest)
     /\ (needs_remaking dj old_field new_field = false ->
         forall rc e t',
           rel_condition_of old_field new_field t = Ok rc t ->
           steps t = Raise e t' ->
           alter_field E dj lib_str float_repr model strict old_field new_field t
           = Raise e t'))
  /\ forall old_field
       (alter_field_primary_key alter_field_unique alter_field_index
        alter_field_check_constraint alter_field_nullable : bool) t,
       let tbl := quote_name dj (db_table model) in
       let names := fun t0 k =>
         constraint_names E t0 (db_table model) [column old_field] k in
       let do_pk := alter_field_primary_key && primary_key old_field in
       let do_unique :=
         (alter_field_unique && unique old_field)
         || (unique old_field && alter_field_primary_key
             && negb (primary_key old_field)) in
       let do_index := alter_field_index && db_index old_field in
       let do_check :=
         alter_field_check_constraint && truthy (check_of old_field) in
       let do_null := alter_field_nullable && null old_field in
       let e1 := if do_pk then [Done (sql_drop_pk tbl)] else [] in
       let t1 := t ++ e1 in
       let e2 :=
         if do_unique
         then map (fun n => Done (sql_delete_unique tbl n)) (names t1 Unique)
         else [] in
       let t2 := t1 ++ e2 in
       let e3 :=
         if do_index
         then map (fun n => Done (sql_delete_index None n)) (names t2 Index)
         else [] in
       let t3 := t2 ++ e3 in
       let e4 :=
         if do_check
         then map (fun n => Done (sql_delete_check tbl n)) (names t3 Check)
         else [] in
       let t4 := t3 ++ e4 in
       let e5 :=
         if do_null
         then [Done (sql_alter_column tbl
                       (sql_alter_column_not_null
                          (quote_name dj (column old_field))))]
         else [] in
       let bad_pk :=
         strict && do_pk && (List.length (names t PrimaryKey) =? 0)%nat in
       let bad_unique :=
         strict && do_unique && negb (List.length (names t1 Unique) =? 1)%nat in
       let bad_index :=
         strict && do_index && negb (List.length (names t2 Index) =? 1)%nat in
       let bad_check :=
         strict && do_check && negb (List.length (names t3 Check) =? 1)%nat in
       let steps :=
         drop_steps E dj model strict old_field alter_field_primary_key
           alter_field_unique alter_field_index alter_field_check_constraint
           alter_field_nullable in
       (forall u t',
          steps t = Ok u t' ->
          t' = t4 ++ e5
          /\ bad_pk = false /\ bad_unique = false /\ bad_index = false
          /\ bad_check = false)
       /\ (forall msg t',
             steps t = Raise (ValueError msg) t' ->
             (bad_pk = true /\ t' = t)
             \/ (bad_pk = false /\ bad_unique = true /\ t' = t1)
             \/ (bad_pk = false /\ bad_unique = false /\ bad_index = true
                 /\ t' = t2)
             \/ (bad_pk = false /\ bad_unique = false /\ bad_index = false
                 /\ bad_check = true /\ t' = t3))
       /\ ((forall t0 s, refuses E t0 s = false) ->
           (bad_pk = true -> exists msg, steps t = Raise (ValueError msg) t)
           /\ (bad_pk = false -> bad_unique = true ->
               exists msg, steps t = Raise (ValueError msg) t1)
           /\ (bad_pk = false -> bad_unique = false -> bad_index = true ->
               exists msg, steps t = Raise (ValueError msg) t2)
           /\ (bad_pk = false -> bad_unique = false -> bad_index = false ->
               bad_check = true ->
               exists msg, steps t = Raise (ValueError msg) t3)
           /\ (bad_pk = false -> bad_unique = false -> bad_index = false ->
               bad_check = false -> steps t = Ok tt (t4 ++ e5))).
Proof.
  split.
  - intros old_field new_field t subject steps TO TN. split.
    + intros u t' R.
      destruct (alter_field_Ok_plan _ _ _ _ _ _ _ _ _ _ _ TO TN R)
        as [t0 [rb [ai [P F]]]].
      fold subject in P, F. unfold alter_field_from_flags in F.
      apply bind_Ok_inv in F. destruct F as [[] [td [RD K]]].
      eapply (emits_Ok (fun _ => True)) in K; [|emits_all].
      destruct K as [rest [-> _]].
      exists t0, td, rest. auto.
    + intros NM rc e t' RC RD. unfold alter_field, bind. rewrite RC.
      destruct (db_type old_field) as [a|]; [|congruence].
      destruct (db_type new_field) as [b|]; [|congruence].
      cbn [opt_is_None andb orb]. rewrite NM.
      unfold steps, subject, plan_old_field in RD. rewrite NM in RD.
      unfold alter_field_from_flags, bind. rewrite RD. reflexivity.
  - intros old_field fpk fu fi fc fn t. cbv zeta. split; [|split].
    + intros u t'. apply drop_steps_Ok.
    + intros msg t'. apply drop_steps_ValueError.
    + intros NR. apply drop_steps_calm. exact NR.
Qed.

(** The amended C3 on a strict call that finds no unique constraint to
    drop: the run raises and the trace is untouched; and on a strict call
    that finds one, which is dropped. *)
Lemma drop_steps_order_witness :
  (exists msg,
     drop_steps Sample.calm Sample.django Sample.T true Sample.unique_c
       false true false false false []
     = Raise (ValueError msg) [])
  /\ drop_steps Sample.with_unique Sample.django Sample.T true Sample.unique_c
       false true false false false []
     = Ok tt [Done (sql_delete_unique "[T]" "T_c_uniq")].
Proof.
  split.
  - destruct (drop_steps_order Sample.calm Sample.django Sample.no_str
                Sample.no_repr Sample.T true) as [_ H].
    destruct (H Sample.unique_c false true false false false [])
      as [_ [_ C]].
    destruct (C (fun _ _ => eq_refl)) as [_ [U _]].
    exact (U eq_refl eq_refl).
  - destruct (drop_steps_order Sample.with_unique Sample.django Sample.no_str
                Sample.no_repr Sample.T true) as [_ H].
    destruct (H Sample.unique_c false true false false false [])
      as [_ [_ C]].
    destruct (C (fun _ _ => eq_refl)) as [_ [_ [_ [_ O]]]].
    exact (O eq_refl eq_refl eq_refl eq_refl).
Defined.

(** ** The guarded statements of [add_field] *)


